(** * DevEvent: schema hooks and connection cache

    A shallow embedding of the logic of
      - [src/database/event.model.ts]   (generateSlug, normalizeDate,
                                         normalizeTime, the Event pre-save hook),
      - [src/database/booking.model.ts] (the Booking pre-save hook),
      - [src/lib/mongodb.ts]            (module initialisation and connectDB),
    together with the properties of these functions.

    JavaScript strings are sequences of UTF-16 code units; they are modelled
    as [list Z], one number per code unit.  Thrown exceptions are modelled
    by the [Throw] constructor of [result]. *)

From Stdlib Require Import ZArith Lia Bool.
From stdpp Require Import base list strings gmap.

Local Open Scope Z_scope.

(** ** JavaScript strings *)

Module JS.

(** A string is the list of its UTF-16 code units. *)
Abbreviation jsstring := (list Z).

(** A string literal of the source (ASCII only), as code units. *)
Fixpoint str (s : string) : jsstring :=
  match s with
  | EmptyString => []
  | String a r => Z.of_N (Ascii.N_of_ascii a) :: str r
  end.

(** The outcome of a call that may throw: [Throw msg] is
    [throw new Error(msg)]. *)
Inductive result (A : Type) : Type :=
  | Ok (a : A)
  | Throw (msg : jsstring).
Arguments Ok {A} a.
Arguments Throw {A} msg.

Fixpoint streqb (a b : jsstring) : bool :=
  match a, b with
  | [], [] => true
  | x :: a', y :: b' => (x =? y) && streqb a' b'
  | _, _ => false
  end.

(** *** Character classes of the regular expressions (no [u] flag) *)

(** [\d] *)
Definition is_digit (c : Z) : bool := (48 <=? c) && (c <=? 57).

Definition is_upper (c : Z) : bool := (65 <=? c) && (c <=? 90).
Definition is_lower (c : Z) : bool := (97 <=? c) && (c <=? 122).

(** [\w] is [[A-Za-z0-9_]]. *)
Definition is_word (c : Z) : bool :=
  is_upper c || is_lower c || is_digit c || (c =? 95).

Definition hyphen : Z := 45.
Definition is_hyphen (c : Z) : bool := c =? hyphen.

(** [\s], which is also the set removed by [String.prototype.trim]:
    the WhiteSpace and LineTerminator code points of ECMAScript
    (TAB, LF, VT, FF, CR, SP, NBSP, U+1680, U+2000..U+200A, LS, PS,
    U+202F, U+205F, U+3000, ZWNBSP). *)
Definition is_space (c : Z) : bool :=
  ((9 <=? c) && (c <=? 13)) || (c =? 32) || (c =? 160) || (c =? 5760)
  || ((8192 <=? c) && (c <=? 8202)) || (c =? 8232) || (c =? 8233)
  || (c =? 8239) || (c =? 8287) || (c =? 12288) || (c =? 65279).

(** The lowercase word characters [[a-z0-9_]]. *)
Definition is_lower_word (c : Z) : bool :=
  is_lower c || is_digit c || (c =? 95).

(** *** String.prototype.trim *)

Fixpoint dropWhile (p : Z -> bool) (s : jsstring) : jsstring :=
  match s with
  | [] => []
  | c :: r => if p c then dropWhile p r else s
  end.

Definition dropWhileEnd (p : Z -> bool) (s : jsstring) : jsstring :=
  rev (dropWhile p (rev s)).

Definition trim (s : jsstring) : jsstring :=
  dropWhileEnd is_space (dropWhile is_space s).

(** *** Numbers and strings *)

(** [parseInt(s, 10)] on a string of decimal digits. *)
Definition parseInt10 (s : jsstring) : Z :=
  fold_left (fun acc d => acc * 10 + (d - 48)) s 0.

(** [Number.prototype.toString] on a non-negative integer: its decimal
    digits, most significant first.  A number below [2^k] has at most
    [k] digits, which bounds the recursion. *)
Fixpoint digits_loop (fuel : nat) (n : Z) (acc : jsstring) : jsstring :=
  let acc' := (48 + n mod 10) :: acc in
  match fuel with
  | O => acc'
  | S f => if n <? 10 then acc' else digits_loop f (n / 10) acc'
  end.

Definition toString (n : Z) : jsstring :=
  digits_loop (Z.to_nat (Z.log2 n)) n [].

(** [s.padStart(len, fill)] with a one-character [fill]. *)
Definition padStart (len : nat) (fill : Z) (s : jsstring) : jsstring :=
  replicate (len - length s) fill ++ s.

(** ASCII part of [toUpperCase]. *)
Definition upperAscii (c : Z) : Z := if is_lower c then c - 32 else c.
(** ASCII part of [toLowerCase]. *)
Definition lowerAscii (c : Z) : Z := if is_upper c then c + 32 else c.

End JS.

Import JS.

(** ** Regular expressions

    The regular expressions of the source, as data, and the way the
    engine runs them: alternatives from left to right, quantifiers
    greedy, giving back one unit at a time.  The quantifiers of the
    source all stand on a character class. *)

Module Regex.

Inductive regex : Type :=
  | Unit (p : Z -> bool)                            (* one unit of a class *)
  | Rep (p : Z -> bool) (lo : nat) (hi : option nat) (* class{lo,hi}, greedy *)
  | Seq (r1 r2 : regex)
  | Alt (r1 r2 : regex)
  | Group (r : regex)                               (* capture group *)
  | Bol                                             (* ^ *)
  | Eol.                                            (* $ *)

(** Length of the longest prefix of [s] made of units of the class. *)
Fixpoint span (p : Z -> bool) (s : jsstring) : nat :=
  match s with
  | c :: r => if p c then S (span p r) else O
  | [] => O
  end.

Section Exec.

Context {A : Type}.

(** A greedy quantifier tries [n] repetitions, then [n - 1], down to
    [lo], and keeps the first for which the rest of the match succeeds. *)
Fixpoint greedy (lo : nat) (try : nat -> option A) (n : nat) : option A :=
  match try n with
  | Some a => Some a
  | None =>
      match n with
      | O => None
      | S n' => if (lo <=? n')%nat then greedy lo try n' else None
      end
  end.

(** [exec r pos rest caps k] matches [r] at offset [pos], where [rest]
    is what remains of the input and [caps] are the groups captured so
    far, and goes on with [k]; a failure of [k] makes the matcher
    backtrack.  Groups are recorded when they close, which is their
    number as long as they are not nested. *)
Fixpoint exec (r : regex) (pos : nat) (rest : jsstring) (caps : list jsstring)
    (k : nat -> jsstring -> list jsstring -> option A) : option A :=
  match r with
  | Unit p =>
      match rest with
      | c :: rest' => if p c then k (S pos) rest' caps else None
      | [] => None
      end
  | Rep p lo hi =>
      let most :=
        match hi with
        | Some h => Nat.min (span p rest) h
        | None => span p rest
        end in
      if (lo <=? most)%nat
      then greedy lo (fun n => k (pos + n)%nat (drop n rest) caps) most
      else None
  | Seq r1 r2 =>
      exec r1 pos rest caps (fun pos' rest' caps' => exec r2 pos' rest' caps' k)
  | Alt r1 r2 =>
      match exec r1 pos rest caps k with
      | Some a => Some a
      | None => exec r2 pos rest caps k
      end
  | Group r1 =>
      exec r1 pos rest caps
        (fun pos' rest' caps' =>
           k pos' rest' (caps' ++ [take (pos' - pos) rest]))
  | Bol => if (pos =? 0)%nat then k pos rest caps else None
  | Eol => match rest with [] => k pos rest caps | _ :: _ => None end
  end.

End Exec.

(** A match of [r] that starts at offset [pos]: the offset where it
    ends and its captures. *)
Definition match_at (r : regex) (pos : nat) (rest : jsstring)
  : option (nat * list jsstring) :=
  exec r pos rest [] (fun pos' _ caps => Some (pos', caps)).

(** [s.match(r)] without the [g] flag: the captures of the leftmost
    match, [None] for [null]. *)
Fixpoint search (r : regex) (pos : nat) (rest : jsstring)
  : option (list jsstring) :=
  match match_at r pos rest with
  | Some (_, caps) => Some caps
  | None =>
      match rest with
      | [] => None
      | _ :: rest' => search r (S pos) rest'
      end
  end.

Definition String_match (s : jsstring) (r : regex) : option (list jsstring) :=
  search r 0 s.

(** [match[i]] for [i >= 1]. *)
Definition capture (caps : list jsstring) (i : nat) : jsstring :=
  nth (i - 1) caps [].

(** [s.replace(r, by)] with the [g] flag and a replacement without
    dollar patterns: the matches are found from left to right, each
    search starting where the previous match ended (one unit further
    after an empty match).  [skip] counts the units of the current
    match still to be passed over. *)
Fixpoint replace_loop (r : regex) (by_ : jsstring) (pos : nat)
    (rest : jsstring) (skip : nat) : jsstring :=
  match rest with
  | [] =>
      match match_at r pos [] with
      | Some _ => by_
      | None => []
      end
  | c :: rest' =>
      match skip with
      | S n => replace_loop r by_ (S pos) rest' n
      | O =>
          match match_at r pos rest with
          | Some (end_, _) =>
              if (pos <? end_)%nat
              then by_ ++ replace_loop r by_ (S pos) rest' (end_ - pos - 1)
              else by_ ++ c :: replace_loop r by_ (S pos) rest' O
          | None => c :: replace_loop r by_ (S pos) rest' O
          end
      end
  end.

Definition String_replace (s : jsstring) (r : regex) (by_ : jsstring)
  : jsstring :=
  replace_loop r by_ 0 s 0.

(** A letter under the [i] flag: itself or its other case. *)
Definition letter_i (upper : Z) : regex :=
  Unit (fun c => (c =? upper) || (c =? upper + 32)).

End Regex.

Import Regex.

(** ** Event model: time normalisation
    [src/database/event.model.ts], lines 148-186. *)

Module EventTime.

Definition err_time_range : jsstring :=
  str "Invalid time. Hours must be 0-23 and minutes 0-59.".
Definition err_time_format : jsstring :=
  str "Invalid time format. Use HH:MM or HH:MM AM/PM.".

(** [/^(\d{1,2}):(\d{2})\s*(AM|PM)$/i] *)
Definition timeRegex12Hour : regex :=
  Seq Bol
    (Seq (Group (Rep is_digit 1 (Some 2%nat)))
       (Seq (Unit (fun c => c =? 58))
          (Seq (Group (Rep is_digit 2 (Some 2%nat)))
             (Seq (Rep is_space 0 None)
                (Seq (Group (Alt (Seq (letter_i 65) (letter_i 77))
                                 (Seq (letter_i 80) (letter_i 77))))
                   Eol))))).

(** [/^(\d{1,2}):(\d{2})$/] *)
Definition timeRegex24Hour : regex :=
  Seq Bol
    (Seq (Group (Rep is_digit 1 (Some 2%nat)))
       (Seq (Unit (fun c => c =? 58))
          (Seq (Group (Rep is_digit 2 (Some 2%nat))) Eol))).

Definition normalizeTime (timeStr : jsstring) : result jsstring :=
  let timeStr := trim timeStr in
  let match12Hour := String_match timeStr timeRegex12Hour in
  match match12Hour with
  | Some match12Hour =>
      let hours := parseInt10 (capture match12Hour 1) in
      let minutes := capture match12Hour 2 in
      let period := map upperAscii (capture match12Hour 3) in
      let hours :=
        if streqb period (str "PM") && negb (hours =? 12)
        then hours + 12 else hours in
      let hours :=
        if streqb period (str "AM") && (hours =? 12) then 0 else hours in
      Ok (padStart 2 48 (toString hours) ++ str ":" ++ minutes)
  | None =>
      let match24Hour := String_match timeStr timeRegex24Hour in
      match match24Hour with
      | Some match24Hour =>
          let hours := parseInt10 (capture match24Hour 1) in
          let minutes := parseInt10 (capture match24Hour 2) in
          if (hours <? 0) || (hours >? 23) || (minutes <? 0) || (minutes >? 59)
          then Throw err_time_range
          else Ok (padStart 2 48 (toString hours) ++ str ":"
                     ++ padStart 2 48 (toString minutes))
      | None => Throw err_time_format
      end
  end.

(** The end of [timeRegex12Hour], after the white space. *)
Definition period_regex : regex :=
  Seq (Group (Alt (Seq (letter_i 65) (letter_i 77))
                  (Seq (letter_i 80) (letter_i 77)))) Eol.

(** *** The two matches in closed form

    What the two regular expressions accept, written without the
    engine; the properties below show that the engine computes this. *)

(** The tail [\s*(AM|PM)$] with the [i] flag, after the minutes.  The
    greedy [\s*] takes the whole run of white space: giving one back
    would leave a white-space unit where [A] or [P] is required.  The
    result is the third capture group. *)
Definition match_period (r : jsstring) : option jsstring :=
  match dropWhile is_space r with
  | [a; m] =>
      if ((a =? 65) || (a =? 97) || (a =? 80) || (a =? 112))
         && ((m =? 77) || (m =? 109))
      then Some [a; m] else None
  | _ => None
  end.

(** One way of matching [^(\d{n}):(\d{2})] at the start of [s]; gives
    the two capture groups and the rest of the string. *)
Definition match_hm (n : nat) (s : jsstring)
  : option (jsstring * jsstring * jsstring) :=
  let h := take n s in
  if (length h =? n)%nat && forallb is_digit h then
    match drop n s with
    | c :: m1 :: m2 :: r =>
        if (c =? 58) && is_digit m1 && is_digit m2
        then Some (h, [m1; m2], r) else None
    | _ => None
    end
  else None.

(** The 12-hour expression with exactly [n] digits of hours. *)
Definition match12_with (n : nat) (s : jsstring)
  : option (jsstring * jsstring * jsstring) :=
  match match_hm n s with
  | Some (h, m, r) =>
      match match_period r with
      | Some p => Some (h, m, p)
      | None => None
      end
  | None => None
  end.

(** What [timeRegex12Hour] accepts, with its three groups: the greedy
    [\d{1,2}] is tried with two digits first, then with one. *)
Definition shape12 (s : jsstring)
  : option (jsstring * jsstring * jsstring) :=
  match match12_with 2 s with
  | Some g => Some g
  | None => match12_with 1 s
  end.

(** The 24-hour expression with exactly [n] digits of hours. *)
Definition match24_with (n : nat) (s : jsstring)
  : option (jsstring * jsstring) :=
  match match_hm n s with
  | Some (h, m, []) => Some (h, m)
  | _ => None
  end.

(** What [timeRegex24Hour] accepts, with its two groups. *)
Definition shape24 (s : jsstring) : option (jsstring * jsstring) :=
  match match24_with 2 s with
  | Some g => Some g
  | None => match24_with 1 s
  end.

(** [normalizeTime] over the closed forms. *)
Definition normalizeTime_direct (timeStr : jsstring) : result jsstring :=
  let timeStr := trim timeStr in
  match shape12 timeStr with
  | Some (g1, g2, g3) =>
      let hours := parseInt10 g1 in
      let minutes := g2 in
      let period := map upperAscii g3 in
      let hours :=
        if streqb period (str "PM") && negb (hours =? 12)
        then hours + 12 else hours in
      let hours :=
        if streqb period (str "AM") && (hours =? 12) then 0 else hours in
      Ok (padStart 2 48 (toString hours) ++ str ":" ++ minutes)
  | None =>
      match shape24 timeStr with
      | Some (g1, g2) =>
          let hours := parseInt10 g1 in
          let minutes := parseInt10 g2 in
          if (hours <? 0) || (hours >? 23) || (minutes <? 0) || (minutes >? 59)
          then Throw err_time_range
          else Ok (padStart 2 48 (toString hours) ++ str ":"
                     ++ padStart 2 48 (toString minutes))
      | None => Throw err_time_format
      end
  end.

(** The conversion in the words of the specification: 12 AM is hour
    0, 12 PM stays 12, the PM hours 1 to 11 gain 12. *)
Inductive period : Type := AM | PM.

Definition spec_hour24 (h : Z) (p : period) : Z :=
  match p with
  | AM => if h =? 12 then 0 else h
  | PM => if h =? 12 then 12 else h + 12
  end.

(** [sfx] spells the period, in upper or lower case, letter by letter. *)
Definition spells (p : period) (sfx : jsstring) : bool :=
  match sfx with
  | [a; m] =>
      match p with
      | AM => (a =? 65) || (a =? 97)
      | PM => (a =? 80) || (a =? 112)
      end && ((m =? 77) || (m =? 109))
  | _ => false
  end.

End EventTime.

(** ** Event model: slug derivation
    [src/database/event.model.ts], lines 119-131. *)

Module EventSlug.

Section WithCaseTable.

(** [String.prototype.toLowerCase] maps every ASCII code unit to its
    ASCII lower case, whatever surrounds it.  What it does to a code
    unit above U+007F is given by the Unicode case tables (and, for
    sigma, by the units around it); those tables are a parameter:
    [lowerNonAscii before c after] is the output for the unit [c]. *)
Variable lowerNonAscii : jsstring -> Z -> jsstring -> jsstring.

Fixpoint toLowerCase_from (before s : jsstring) : jsstring :=
  match s with
  | [] => []
  | c :: r =>
      (if c <? 128 then [lowerAscii c] else lowerNonAscii before c r)
        ++ toLowerCase_from (before ++ [c]) r
  end.

Definition toLowerCase (s : jsstring) : jsstring := toLowerCase_from [] s.

(** [/[^\w\s-]/g] *)
Definition re_special : regex :=
  Unit (fun c => negb (is_word c || is_space c || is_hyphen c)).
(** [/\s+/g] *)
Definition re_spaces : regex := Rep is_space 1 None.
(** [/-+/g] *)
Definition re_hyphens : regex := Rep is_hyphen 1 None.
(** [/^-+|-+$/g] *)
Definition re_edge_hyphens : regex :=
  Alt (Seq Bol (Rep is_hyphen 1 None)) (Seq (Rep is_hyphen 1 None) Eol).

Definition generateSlug (text : jsstring) : jsstring :=
  String_replace
    (String_replace
       (String_replace
          (String_replace (trim (toLowerCase text)) re_special [])
          re_spaces (str "-"))
       re_hyphens (str "-"))
    re_edge_hyphens [].

(** *** The replacements in closed form *)

(** Removing the matches of [re_special]: the units of the class
    [[\w\s-]] are kept. *)
Definition keep_slug_unit (c : Z) : bool :=
  is_word c || is_space c || is_hyphen c.

Definition remove_special (s : jsstring) : jsstring :=
  List.filter keep_slug_unit s.

(** Replacing the matches of [X+] for a character class [X]: every
    maximal run of units of the class is replaced by [by_].  [inrun] says
    that the previous unit belonged to the run being replaced. *)
Fixpoint replace_runs_from (p : Z -> bool) (by_ : jsstring)
    (inrun : bool) (s : jsstring) : jsstring :=
  match s with
  | [] => []
  | c :: r =>
      if p c
      then (if inrun then [] else by_) ++ replace_runs_from p by_ true r
      else c :: replace_runs_from p by_ false r
  end.

Definition replace_runs (p : Z -> bool) (by_ s : jsstring) : jsstring :=
  replace_runs_from p by_ false s.

(** Removing the matches of [re_edge_hyphens]: the first alternative
    removes the run of hyphens at the start, the second the run that
    reaches the end. *)
Definition strip_hyphens (s : jsstring) : jsstring :=
  dropWhileEnd is_hyphen (dropWhile is_hyphen s).

(** [generateSlug] over the closed forms. *)
Definition generateSlug_direct (text : jsstring) : jsstring :=
  strip_hyphens
    (replace_runs is_hyphen (str "-")
       (replace_runs is_space (str "-")
          (remove_special (trim (toLowerCase text))))).

End WithCaseTable.

(** A fragment of the Unicode tables, enough to run the functions:
    Latin-1 capitals, KELVIN SIGN (to [k]) and LATIN CAPITAL LETTER I
    WITH DOT ABOVE (to [i] and COMBINING DOT ABOVE); other units are
    left as they are. *)
Definition lowerSample (before : jsstring) (c : Z) (after : jsstring)
  : jsstring :=
  if c =? 8490 then [107]
  else if c =? 304 then [105; 775]
  else if (192 <=? c) && (c <=? 222) && negb (c =? 215) then [c + 32]
  else [c].

(** A unit of a finished slug: a lowercase word character or a hyphen. *)
Definition slug_unit (c : Z) : Prop := is_lower_word c = true \/ c = hyphen.

(** The properties of a finished slug, in the words of the
    specification: only lowercase word characters and hyphens, no
    hyphen at the start or at the end, no two hyphens in a row. *)
Definition well_formed_slug (s : jsstring) : Prop :=
  Forall slug_unit s
  /\ (forall r, s <> hyphen :: r)
  /\ (forall l, s <> l ++ [hyphen])
  /\ (forall l r, s <> l ++ hyphen :: hyphen :: r).

End EventSlug.

(** ** Event model: date normalisation
    [src/database/event.model.ts], lines 133-146. *)

Module EventDate.

(** *** The calendar of ECMAScript time values

    A time value is a number of milliseconds since 1970-01-01T00:00Z in
    the proleptic Gregorian calendar. *)

Definition msPerDay : Z := 86400000.

(** Largest magnitude of a time value (TimeClip). *)
Definition maxTime : Z := 8640000000000000.

Definition isLeapYear (y : Z) : bool :=
  ((y mod 4 =? 0) && negb (y mod 100 =? 0)) || (y mod 400 =? 0).

Definition daysInMonth (y m : Z) : Z :=
  if m =? 2 then (if isLeapYear y then 29 else 28)
  else if (m =? 4) || (m =? 6) || (m =? 9) || (m =? 11) then 30
  else 31.

(** Day number of the civil date [y]-[m]-[d] (MakeDay). *)
Definition daysFromCivil (y m d : Z) : Z :=
  let y' := if m <=? 2 then y - 1 else y in
  let era := y' / 400 in
  let yoe := y' - era * 400 in
  let doy := (153 * (if 2 <? m then m - 3 else m + 9) + 2) / 5 + d - 1 in
  let doe := yoe * 365 + yoe / 4 - yoe / 100 + doy in
  era * 146097 + doe - 719468.

(** Civil date of a day number (YearFromTime, MonthFromTime,
    DateFromTime). *)
Definition civilFromDays (z : Z) : Z * Z * Z :=
  let z' := z + 719468 in
  let era := z' / 146097 in
  let doe := z' - era * 146097 in
  let yoe := (doe - doe / 1460 + doe / 36524 - doe / 146096) / 365 in
  let doy := doe - (365 * yoe + yoe / 4 - yoe / 100) in
  let mp := (5 * doy + 2) / 153 in
  let d := doy - (153 * mp + 2) / 5 + 1 in
  let m := if mp <? 10 then mp + 3 else mp - 9 in
  (yoe + era * 400 + (if m <=? 2 then 1 else 0), m, d).

(** *** Date.parse *)

(** The date-only forms [YYYY-MM-DD] and [+YYYYYY-MM-DD], [-YYYYYY-MM-DD]
    of the ECMAScript date-time string format, which every engine reads
    as midnight UTC of that day.  [-000000] is not a year. *)
Definition parseMonthDay (y : Z) (r : jsstring) : option Z :=
  match r with
  | [c1; m1; m2; c2; d1; d2] =>
      if (c1 =? 45) && (c2 =? 45) && forallb is_digit [m1; m2; d1; d2] then
        let m := parseInt10 [m1; m2] in
        let d := parseInt10 [d1; d2] in
        if (1 <=? m) && (m <=? 12) && (1 <=? d) && (d <=? daysInMonth y m)
        then Some (daysFromCivil y m d * msPerDay) else None
      else None
  | _ => None
  end.

Definition parseIsoDate (s : jsstring) : option Z :=
  match s with
  | sg :: y1 :: y2 :: y3 :: y4 :: y5 :: y6 :: r =>
      if ((sg =? 43) || (sg =? 45)) then
        if forallb is_digit [y1; y2; y3; y4; y5; y6] then
          let y := parseInt10 [y1; y2; y3; y4; y5; y6] in
          if (sg =? 45) && (y =? 0) then None
          else parseMonthDay (if sg =? 45 then - y else y) r
        else None
      else
        if forallb is_digit [sg; y1; y2; y3] then
          parseMonthDay (parseInt10 [sg; y1; y2; y3]) (y4 :: y5 :: y6 :: r)
        else None
  | _ => None
  end.

Section WithHostParser.

(** What [Date.parse] answers on any other string: the remaining forms
    of the standard format (read in the host's time zone when they have
    a time and no offset) and the fallback formats, which ECMAScript
    leaves to the engine.  [None] is NaN. *)
Variable hostParse : jsstring -> option Z.

Definition Date_parse (s : jsstring) : option Z :=
  match parseIsoDate s with
  | Some tv => Some tv
  | None => hostParse s
  end.

(** [new Date(dateStr).getTime()]: the parsed time value after TimeClip;
    [None] is NaN. *)
Definition Date_getTime (dateStr : jsstring) : option Z :=
  match Date_parse dateStr with
  | Some tv => if Z.abs tv <=? maxTime then Some tv else None
  | None => None
  end.

(** [Date.prototype.toISOString] of a valid date: four-digit years
    from 0 to 9999, a sign and six digits otherwise. *)
Definition isoYear (y : Z) : jsstring :=
  if (0 <=? y) && (y <=? 9999) then padStart 4 48 (toString y)
  else (if y <? 0 then 45 else 43) :: padStart 6 48 (toString (Z.abs y)).

Definition toISOString (tv : Z) : jsstring :=
  let '(y, m, d) := civilFromDays (tv / msPerDay) in
  let ms := tv mod msPerDay in
  isoYear y ++ str "-" ++ padStart 2 48 (toString m) ++ str "-"
    ++ padStart 2 48 (toString d) ++ str "T"
    ++ padStart 2 48 (toString (ms / 3600000)) ++ str ":"
    ++ padStart 2 48 (toString (ms / 60000 mod 60)) ++ str ":"
    ++ padStart 2 48 (toString (ms / 1000 mod 60)) ++ str "."
    ++ padStart 3 48 (toString (ms mod 1000)) ++ str "Z".

(** [s.split(sep)[0]] for a one-character separator: the part before
    its first occurrence. *)
Fixpoint split_first (sep : Z) (s : jsstring) : jsstring :=
  match s with
  | [] => []
  | c :: r => if c =? sep then [] else c :: split_first sep r
  end.

Definition err_date : jsstring :=
  str "Invalid date format. Please provide a valid date.".

Definition normalizeDate (dateStr : jsstring) : result jsstring :=
  match Date_getTime dateStr with
  | None => Throw err_date
  | Some tv => Ok (split_first 84 (toISOString tv))
  end.

End WithHostParser.

(** The date part of the ISO string of a time value. *)
Definition isoDatePart (tv : Z) : jsstring :=
  let '(y, m, d) := civilFromDays (tv / msPerDay) in
  isoYear y ++ str "-" ++ padStart 2 48 (toString m) ++ str "-"
    ++ padStart 2 48 (toString d).

(** The canonical spelling [YYYY-MM-DD] of a date with a year from 0
    to 9999. *)
Definition canonicalDate (y m d : Z) : jsstring :=
  padStart 4 48 (toString y) ++ str "-" ++ padStart 2 48 (toString m)
    ++ str "-" ++ padStart 2 48 (toString d).

(** The shape [YYYY-MM-DD]. *)
Definition isYMD (s : jsstring) : bool :=
  match s with
  | [y1; y2; y3; y4; c1; m1; m2; c2; d1; d2] =>
      forallb is_digit [y1; y2; y3; y4; m1; m2; d1; d2]
      && (c1 =? 45) && (c2 =? 45)
  | _ => false
  end.

End EventDate.

Import EventTime EventSlug EventDate.

(** ** Event model: the pre-save hook
    [src/database/event.model.ts], lines 188-217. *)

Module EventHook.

Record EventDoc : Type := mkEvent {
  title : jsstring;
  slug : jsstring;
  description : jsstring;
  overview : jsstring;
  image : jsstring;
  venue : jsstring;
  location : jsstring;
  date : jsstring;
  time : jsstring;
  mode : jsstring;
  audience : jsstring;
  agenda : list jsstring;
  organizer : jsstring;
  tags : list jsstring
}.

(** [this.slug = v], [this.date = v], [this.time = v] *)
Definition set_slug (v : jsstring) (d : EventDoc) : EventDoc :=
  mkEvent (title d) v (description d) (overview d) (image d) (venue d)
    (location d) (date d) (time d) (mode d) (audience d) (agenda d)
    (organizer d) (tags d).
Definition set_date (v : jsstring) (d : EventDoc) : EventDoc :=
  mkEvent (title d) (slug d) (description d) (overview d) (image d) (venue d)
    (location d) v (time d) (mode d) (audience d) (agenda d)
    (organizer d) (tags d).
Definition set_time (v : jsstring) (d : EventDoc) : EventDoc :=
  mkEvent (title d) (slug d) (description d) (overview d) (image d) (venue d)
    (location d) (date d) v (mode d) (audience d) (agenda d)
    (organizer d) (tags d).

(** What the hook passes to [next]. *)
Inductive next_arg : Type :=
  | Next
  | NextError (e : jsstring).

(** The three transformations; the hook's run records the ones it
    called, in order. *)
Inductive transform : Type :=
  | SlugDerivation
  | DateNormalization
  | TimeNormalization.

Section Hook.

Variable lowerNonAscii : jsstring -> Z -> jsstring -> jsstring.
Variable hostParse : jsstring -> option Z.

(** [this.isModified(path)] during the save. *)
Variable isModified : jsstring -> bool.

(** The document being saved and the transformations called so far. *)
Definition hook_state : Type := EventDoc * list transform.

(** A statement of the hook either goes on or leaves through
    [return next(error)]. *)
Definition bind (m : hook_state * option jsstring)
    (k : hook_state -> hook_state * option jsstring)
  : hook_state * option jsstring :=
  match m with
  | (st, None) => k st
  | (st, Some e) => (st, Some e)
  end.

Definition slug_stmt (st : hook_state) : hook_state * option jsstring :=
  let '(this, ran) := st in
  if isModified (str "title")
  then ((set_slug (generateSlug lowerNonAscii (title this)) this,
         ran ++ [SlugDerivation]), None)
  else (st, None).

Definition date_stmt (st : hook_state) : hook_state * option jsstring :=
  let '(this, ran) := st in
  if isModified (str "date") then
    match normalizeDate hostParse (date this) with
    | Ok v => ((set_date v this, ran ++ [DateNormalization]), None)
    | Throw e => ((this, ran ++ [DateNormalization]), Some e)
    end
  else (st, None).

Definition time_stmt (st : hook_state) : hook_state * option jsstring :=
  let '(this, ran) := st in
  if isModified (str "time") then
    match normalizeTime (time this) with
    | Ok v => ((set_time v this, ran ++ [TimeNormalization]), None)
    | Throw e => ((this, ran ++ [TimeNormalization]), Some e)
    end
  else (st, None).

(** [EventSchema.pre("save", ...)]: the document after the hook, the
    transformations it called, and the argument of [next]. *)
Definition eventPreSave (this : EventDoc)
  : EventDoc * list transform * next_arg :=
  match bind (bind (slug_stmt (this, [])) date_stmt) time_stmt with
  | ((this', ran), None) => (this', ran, Next)
  | ((this', ran), Some e) => (this', ran, NextError e)
  end.

End Hook.

(** The fields no statement of the hook assigns. *)
Definition same_other_fields (d d' : EventDoc) : Prop :=
  title d' = title d /\ description d' = description d
  /\ overview d' = overview d /\ image d' = image d /\ venue d' = venue d
  /\ location d' = location d /\ mode d' = mode d
  /\ audience d' = audience d /\ agenda d' = agenda d
  /\ organizer d' = organizer d /\ tags d' = tags d.

End EventHook.

(** ** Booking model: the pre-save hook
    [src/database/booking.model.ts], lines 46-77. *)

Module BookingHook.

Import EventHook.

(** ObjectIds are written as their 24 hexadecimal digits, which is
    what the template literal of the error message prints. *)
Record BookingDoc : Type := mkBooking {
  _id : jsstring;
  eventId : jsstring;
  email : jsstring
}.

(** The two collections, by [_id]; the log of the calls of
    [Event.exists]; and the state of the layers under the model: the
    error, if any, with which an existence query for an identifier is
    rejected now, because the value cannot be cast to an ObjectId, the
    driver fails, or the connection is not up while command buffering
    is off. *)
Record Db : Type := mkDb {
  events : gmap jsstring EventDoc;
  bookings : gmap jsstring BookingDoc;
  existsQueries : list jsstring;
  queryFailure : jsstring -> option jsstring
}.

Definition err_no_event (id : jsstring) : jsstring :=
  str "Event with ID " ++ id
    ++ str " does not exist. Cannot create booking for non-existent event.".

(** [await Event.exists({ _id: id })]: the promise is rejected, or
    resolves to a document or to null. *)
Definition Event_exists (id : jsstring) (db : Db) : Db * result bool :=
  (mkDb (events db) (bookings db) (existsQueries db ++ [id]) (queryFailure db),
   match queryFailure db id with
   | Some e => Throw e
   | None =>
       Ok match events db !! id with Some _ => true | None => false end
   end).

(** [BookingSchema.pre("save", ...)]: whatever is thrown inside [try],
    by the awaited query or by the [throw] of line 61, is caught and
    given to [next]. *)
Definition bookingPreSave (isModified : jsstring -> bool)
    (this : BookingDoc) (db : Db) : Db * next_arg :=
  if isModified (str "eventId") then
    match Event_exists (eventId this) db with
    | (db', Throw error) => (db', NextError error)
    | (db', Ok eventExists) =>
        if negb eventExists
        then (db', NextError (err_no_event (eventId this)))
        else (db', Next)
    end
  else (db, Next).

(** [s.startsWith(sub)] and [s.includes(sub)] *)
Fixpoint startsWith (s sub : jsstring) : bool :=
  match sub, s with
  | [], _ => true
  | c :: sub', d :: s' => (c =? d) && startsWith s' sub'
  | _ :: _, [] => false
  end.

Fixpoint includes (s sub : jsstring) : bool :=
  startsWith s sub
  || match s with
     | [] => false
     | _ :: s' => includes s' sub
     end.

(** The unique compound index [{ eventId: 1, email: 1 }]: another
    stored booking with the same pair. *)
Definition duplicate_pair (this : BookingDoc) (db : Db) : bool :=
  existsb
    (fun kv : jsstring * BookingDoc =>
       negb (streqb (fst kv) (_id this))
       && streqb (eventId (snd kv)) (eventId this)
       && streqb (email (snd kv)) (email this))
    (map_to_list (bookings db)).

Definition err_duplicate : jsstring := str "E11000 duplicate key error".

(** [booking.save()] from the call of the pre-save hook on: an error
    given to [next] rejects the save before anything is written;
    otherwise the document is written under its [_id], unless the
    unique index refuses it. *)
Definition save (isModified : jsstring -> bool) (this : BookingDoc)
    (db : Db) : Db * result unit :=
  match bookingPreSave isModified this db with
  | (db', NextError e) => (db', Throw e)
  | (db', Next) =>
      if duplicate_pair this db' then (db', Throw err_duplicate)
      else (mkDb (events db') (<[_id this := this]> (bookings db'))
              (existsQueries db') (queryFailure db'), Ok tt)
  end.

End BookingHook.

(** ** The connection cache
    [src/lib/mongodb.ts]. *)

Module Mongodb.

(** A connection object, by identity. *)
Definition handle : Type := nat.

(** One call of [mongoose.connect] and the promise chain built on it
    (lines 95-106): the driver is still connecting; or its promise has
    settled and the [then]/[catch] reaction has not run yet; or the
    reaction has run and the promise stored in the cache is settled. *)
Inductive attempt_state : Type :=
  | Connecting
  | Settled (r : result handle)
  | Handled (r : result handle).

Record attempt : Type := mkAttempt {
  a_uri : jsstring;
  a_bufferCommands : bool;
  a_state : attempt_state
}.

(** A call of [connectDB]: suspended at [await cached.promise] on the
    promise of an attempt, or finished. *)
Inductive caller_state : Type :=
  | Awaiting (a : nat)
  | Returned (h : handle)
  | Threw (e : jsstring).

(** The module's state: the constant [MONGODB_URI], the two fields of
    [cached], every attempt made so far (an attempt is named by its
    index) and every call made so far. *)
Record State : Type := mkState {
  MONGODB_URI : jsstring;
  conn : option handle;
  promise : option nat;
  attempts : list attempt;
  callers : gmap nat caller_state
}.

Definition err_no_uri : jsstring :=
  str "Please define the MONGODB_URI environment variable inside .env".

(** Evaluation of the module (lines 7-52) in a fresh process, where
    [global.mongoose] is still undefined: [env] is [process.env]. *)
Definition loadModule (env : gmap jsstring jsstring) : result State :=
  match env !! str "MONGODB_URI" with
  | None => Throw err_no_uri
  | Some [] => Throw err_no_uri
  | Some u => Ok (mkState u None None [] ∅)
  end.

(** The state of attempt [a], if it was made. *)
Definition state_of (s : State) (a : nat) : option attempt_state :=
  a_state <$> attempts s !! a.

(** The attempts of [s] with the state of attempt [a] changed. *)
Definition set_attempt (a : nat) (st : attempt_state) (s : State)
  : list attempt :=
  match attempts s !! a with
  | Some at_ =>
      <[a := mkAttempt (a_uri at_) (a_bufferCommands at_) st]> (attempts s)
  | None => attempts s
  end.

(** [connectDB()] from its entry to its first suspension or return
    (lines 74-113), for the call named [c]. *)
Definition connectDB_enter (c : nat) (s : State) : State :=
  match conn s with
  | Some h =>
      mkState (MONGODB_URI s) (conn s) (promise s) (attempts s)
        (<[c := Returned h]> (callers s))
  | None =>
      match promise s with
      | None =>
          let a := length (attempts s) in
          mkState (MONGODB_URI s) None (Some a)
            (attempts s ++ [mkAttempt (MONGODB_URI s) false Connecting])
            (<[c := Awaiting a]> (callers s))
      | Some a =>
          mkState (MONGODB_URI s) None (Some a) (attempts s)
            (<[c := Awaiting a]> (callers s))
      end
  end.

(** The reaction registered by [.then] (lines 97-100) or by [.catch]
    (lines 101-106) on the promise of attempt [a], which settled
    with [r]. *)
Definition reaction (a : nat) (r : result handle) (s : State) : State :=
  match r with
  | Ok h =>
      mkState (MONGODB_URI s) (conn s) (promise s)
        (set_attempt a (Handled (Ok h)) s) (callers s)
  | Throw e =>
      mkState (MONGODB_URI s) (conn s) None
        (set_attempt a (Handled (Throw e)) s) (callers s)
  end.

(** [connectDB()] after [await cached.promise] (lines 113-115), when
    the awaited promise is settled with [r]. *)
Definition connectDB_resume (c : nat) (r : result handle) (s : State)
  : State :=
  match r with
  | Ok h =>
      mkState (MONGODB_URI s) (Some h) (promise s) (attempts s)
        (<[c := Returned h]> (callers s))
  | Throw e =>
      mkState (MONGODB_URI s) (conn s) (promise s) (attempts s)
        (<[c := Threw e]> (callers s))
  end.

(** What can happen in the process, one job of the event loop at a
    time: a new call of [connectDB]; the driver finishing an attempt;
    the reaction to that; a suspended call being resumed. *)
Inductive event : Type :=
  | Call (c : nat)
  | Settle (a : nat) (r : result handle)
  | React (a : nat)
  | Resume (c : nat).

(** [None] when the event cannot happen in [s]. *)
Definition step (ev : event) (s : State) : option State :=
  match ev with
  | Call c =>
      match callers s !! c with
      | Some _ => None
      | None => Some (connectDB_enter c s)
      end
  | Settle a r =>
      match state_of s a with
      | Some Connecting =>
          Some (mkState (MONGODB_URI s) (conn s) (promise s)
                  (set_attempt a (Settled r) s) (callers s))
      | _ => None
      end
  | React a =>
      match state_of s a with
      | Some (Settled r) => Some (reaction a r s)
      | _ => None
      end
  | Resume c =>
      match callers s !! c with
      | Some (Awaiting a) =>
          match state_of s a with
          | Some (Handled r) => Some (connectDB_resume c r s)
          | _ => None
          end
      | _ => None
      end
  end.

Fixpoint run (evs : list event) (s : State) : option State :=
  match evs with
  | [] => Some s
  | ev :: evs' =>
      match step ev s with
      | Some s' => run evs' s'
      | None => None
      end
  end.

(** The states a process started with environment [env] can be in. *)
Definition reachable (env : gmap jsstring jsstring) (s : State) : Prop :=
  exists s0 evs, loadModule env = Ok s0 /\ run evs s0 = Some s.

(** The connection-establishment operation of attempt [a] is in
    flight: the driver has not finished it. *)
Definition in_flight (s : State) (a : nat) : Prop :=
  state_of s a = Some Connecting.

(** The promise of attempt [a], the one stored in [cached.promise], is
    not settled yet. *)
Definition pending (s : State) (a : nat) : Prop :=
  state_of s a = Some Connecting \/ exists r, state_of s a = Some (Settled r).

(** What holds of the cache in every state of a run: an attempt that
    has not failed is the one in [cached.promise]; that slot names an
    attempt made; [cached.conn] and every handle returned come from an
    attempt that succeeded; every suspended call waits for an attempt
    made. *)
Definition cache_inv (s : State) : Prop :=
  (forall a st, state_of s a = Some st ->
     (forall e, st <> Handled (Throw e)) -> promise s = Some a)
  /\ (forall a, promise s = Some a -> is_Some (state_of s a))
  /\ (forall h, conn s = Some h ->
       exists a, promise s = Some a /\ state_of s a = Some (Handled (Ok h)))
  /\ (forall c h, callers s !! c = Some (Returned h) ->
       exists a, state_of s a = Some (Handled (Ok h)))
  /\ (forall c a, callers s !! c = Some (Awaiting a) ->
       is_Some (state_of s a)).

End Mongodb.

Import EventHook BookingHook Mongodb.

(** ** Booking model: the e-mail validator
    [src/database/booking.model.ts], lines 26-39. *)

Module BookingEmail.

(** [r.test(s)] for a regular expression without the [g] flag. *)
Definition RegExp_test (r : regex) (s : jsstring) : bool :=
  match search r 0 s with
  | Some _ => true
  | None => false
  end.

(** The class [[^\s@]]. *)
Definition not_space_or_at (c : Z) : bool := negb (is_space c || (c =? 64)).

(** [/^[^\s@]+@[^\s@]+\.[^\s@]+$/] *)
Definition emailRegex : regex :=
  Seq Bol
    (Seq (Rep not_space_or_at 1 None)
       (Seq (Unit (fun c => c =? 64))
          (Seq (Rep not_space_or_at 1 None)
             (Seq (Unit (fun c => c =? 46))
                (Seq (Rep not_space_or_at 1 None) Eol))))).

(** The [validator] function of the [email] path. *)
Definition email_validator (email : jsstring) : bool :=
  RegExp_test emailRegex email.

End BookingEmail.

(** ** The connection cache under hot reloads
    [src/lib/mongodb.ts], lines 39-52. *)

Module HotReload.

Import Mongodb.

(** Evaluation of the module (lines 7-52) in a process where an earlier
    evaluation has left the cache in [global.mongoose]: the constant is
    read again, [cached] is the object found there (line 44) and the
    assignment of line 51 is skipped.  The attempts and calls under way
    belong to the process and go on. *)
Definition reloadModule (env : gmap jsstring jsstring) (s : State)
  : result State :=
  match env !! str "MONGODB_URI" with
  | None => Throw err_no_uri
  | Some [] => Throw err_no_uri
  | Some u => Ok (mkState u (conn s) (promise s) (attempts s) (callers s))
  end.

(** What happens in a development process: the events of [connectDB],
    and reloads of the module with the environment of the moment. *)
Inductive hmr_event : Type :=
  | Run (ev : event)
  | Reload (env : gmap jsstring jsstring).

(** A reload whose evaluation throws leaves the process as it is. *)
Definition hmr_step (ev : hmr_event) (s : State) : option State :=
  match ev with
  | Run ev' => step ev' s
  | Reload env =>
      match reloadModule env s with
      | Ok s' => Some s'
      | Throw _ => Some s
      end
  end.

Fixpoint hmr_run (evs : list hmr_event) (s : State) : option State :=
  match evs with
  | [] => Some s
  | ev :: evs' =>
      match hmr_step ev s with
      | Some s' => hmr_run evs' s'
      | None => None
      end
  end.

End HotReload.

Import BookingEmail HotReload.

(** ** Sample data *)

Module Samples.

(** A stored event whose time alone is modified in the save. *)
Definition sample_event : EventDoc :=
  mkEvent (str "Rocq Meetup") (str "kept-slug") (str "An evening of proofs")
    (str "Talks") (str "/img.png") (str "Hall 1") (str "Paris")
    (str "2024-05-01") (str "9:30 PM") (str "offline") (str "Developers")
    [str "Doors"; str "Talks"] (str "The team") [str "rocq"].

Definition only_time_modified (path : jsstring) : bool :=
  streqb path (str "time").

(** A database with one event and no booking, whose queries are
    answered; the same database while the server cannot be reached; and
    a booking that refers to an event that is not stored. *)
Definition sample_db : Db :=
  mkDb {[ str "65f0a1b2c3d4e5f601234567" := sample_event ]} ∅ []
    (fun _ => None).

Definition sample_db_down : Db :=
  mkDb {[ str "65f0a1b2c3d4e5f601234567" := sample_event ]} ∅ []
    (fun _ => Some (str "connect ECONNREFUSED 127.0.0.1:27017")).

Definition sample_booking : BookingDoc :=
  mkBooking (str "65f0a1b2c3d4e5f6012345aa") (str "ffffffffffffffffffffffff")
    (str "ada@example.org").

(** A process with a connection string, and its state after the
    module is loaded. *)
Definition sample_env : gmap jsstring jsstring :=
  {[ str "MONGODB_URI" := str "mongodb://localhost:27017/devevent" ]}.

Definition booted : State :=
  mkState (str "mongodb://localhost:27017/devevent") None None [] ∅.

(** Two calls share one attempt, which succeeds with handle 7; a third
    call finds the connection cached. *)
Definition success_trace : list event :=
  [Call 0; Call 1; Settle 0 (Ok 7); React 0; Resume 1; Call 2; Resume 0]%nat.

(** Two calls share one attempt, which fails. *)
Definition failure_trace : list event :=
  [Call 0; Call 1; Settle 0 (Throw (str "ECONNREFUSED")); React 0; Resume 0]%nat.

End Samples.

Import Samples.

(** * Properties *)

(** ** Strings *)

Section StringFacts.

Variable p : Z -> bool.

Lemma dropWhile_app_all (l r : jsstring) :
  forallb p l = true -> dropWhile p (l ++ r) = dropWhile p r.
Proof.
  induction l as [|c l IH]; simpl; [done|].
  intros [Hc Hl]%andb_true_iff. rewrite Hc. auto.
Qed.

Lemma dropWhile_stop (c : Z) (r : jsstring) :
  p c = false -> dropWhile p (c :: r) = c :: r.
Proof. intros H. simpl. by rewrite H. Qed.

Lemma dropWhile_none (s : jsstring) :
  forallb (fun c => negb (p c)) s = true -> dropWhile p s = s.
Proof.
  destruct s as [|c r]; simpl; [done|].
  intros [Hc _]%andb_true_iff. by destruct (p c).
Qed.

Lemma forallb_rev (q : Z -> bool) (s : jsstring) :
  forallb q (rev s) = forallb q s.
Proof.
  induction s as [|c s IH]; simpl; [done|].
  rewrite forallb_app, IH. simpl. rewrite andb_true_r. apply andb_comm.
Qed.

Lemma dropWhileEnd_app_all (l r : jsstring) :
  forallb p r = true -> dropWhileEnd p (l ++ r) = dropWhileEnd p l.
Proof.
  intros H. unfold dropWhileEnd. rewrite rev_app_distr.
  rewrite dropWhile_app_all; [done|]. by rewrite forallb_rev.
Qed.

Lemma dropWhileEnd_stop (l : jsstring) (c : Z) :
  p c = false -> dropWhileEnd p (l ++ [c]) = l ++ [c].
Proof.
  intros H. unfold dropWhileEnd. rewrite rev_app_distr. simpl.
  rewrite H. simpl. by rewrite rev_involutive.
Qed.

Lemma dropWhileEnd_none (s : jsstring) :
  forallb (fun c => negb (p c)) s = true -> dropWhileEnd p s = s.
Proof.
  intros H. unfold dropWhileEnd.
  rewrite dropWhile_none; [apply rev_involutive|]. by rewrite forallb_rev.
Qed.

End StringFacts.

(** [trim] removes the white space around a string that neither starts
    nor ends with white space. *)
Lemma trim_around (lead trail mid : jsstring) (c d : Z) :
  forallb is_space lead = true -> forallb is_space trail = true ->
  is_space c = false -> is_space d = false ->
  trim (lead ++ (c :: mid ++ [d]) ++ trail) = c :: mid ++ [d].
Proof.
  intros Hl Ht Hc Hd. unfold trim.
  rewrite dropWhile_app_all by done.
  change ((c :: mid ++ [d]) ++ trail) with (c :: (mid ++ [d]) ++ trail).
  rewrite dropWhile_stop by done.
  change (c :: (mid ++ [d]) ++ trail) with ((c :: mid ++ [d]) ++ trail).
  rewrite dropWhileEnd_app_all by done.
  change (c :: mid ++ [d]) with ((c :: mid) ++ [d]).
  by rewrite dropWhileEnd_stop.
Qed.

(** ** Decimal printing *)

Lemma toString_lt10 (n : Z) : 0 <= n < 10 -> toString n = [48 + n].
Proof.
  intros H. unfold toString.
  assert (Hm : n mod 10 = n) by (apply Z.mod_small; lia).
  destruct (Z.to_nat (Z.log2 n)); simpl; rewrite Hm.
  - done.
  - destruct (Z.ltb_spec n 10); [done | lia].
Qed.

Lemma toString_lt100 (n : Z) :
  10 <= n < 100 -> toString n = [48 + n / 10; 48 + n mod 10].
Proof.
  intros H. unfold toString.
  assert (Hlog : 3 <= Z.log2 n)
    by (change 3 with (Z.log2 10); apply Z.log2_le_mono; lia).
  destruct (Z.to_nat (Z.log2 n)) as [|f] eqn:E; [lia|].
  simpl. destruct (Z.ltb_spec n 10); [lia|].
  assert (Hq : 0 <= n / 10 < 10)
    by (split; [apply Z.div_pos; lia | apply Z.div_lt_upper_bound; lia]).
  assert (Hm : (n / 10) mod 10 = n / 10) by (apply Z.mod_small; lia).
  destruct f; simpl; rewrite Hm; [done|].
  destruct (Z.ltb_spec (n / 10) 10); [done | lia].
Qed.

(** Two decimal digits, zero-padded. *)
Lemma pad2_digits (n : Z) :
  0 <= n < 100 -> padStart 2 48 (toString n) = [48 + n / 10; 48 + n mod 10].
Proof.
  intros H. destruct (Z.lt_ge_cases n 10).
  - rewrite toString_lt10 by lia. unfold padStart. simpl.
    rewrite Z.div_small, Z.mod_small by lia. done.
  - rewrite toString_lt100 by lia. done.
Qed.

Lemma digit_code (d : Z) : 0 <= d < 10 -> is_digit (48 + d) = true.
Proof. intros H. unfold is_digit. apply andb_true_iff. lia. Qed.

Lemma digit_not_space (c : Z) : is_digit c = true -> is_space c = false.
Proof.
  unfold is_digit, is_space. intros [H1 H2]%andb_true_iff.
  repeat (apply orb_false_iff; split); try apply andb_false_iff; lia.
Qed.

(** [toString] prints every non-negative integer: reading the digits
    back gives the number, so the recursion bound is never short. *)
Lemma parseInt10_from (s : jsstring) (acc : Z) :
  fold_left (fun a d => a * 10 + (d - 48)) s acc
  = acc * 10 ^ Z.of_nat (length s) + parseInt10 s.
Proof.
  unfold parseInt10. revert acc.
  induction s as [|d s IH]; intros acc; [simpl; lia|].
  cbn [fold_left length]. rewrite IH. rewrite (IH (0 * 10 + (d - 48))).
  rewrite Nat2Z.inj_succ, Z.pow_succ_r by lia. lia.
Qed.

Lemma digits_loop_value (f : nat) (n : Z) (acc : jsstring) :
  0 <= n < 2 ^ (Z.of_nat f + 1) ->
  parseInt10 (digits_loop f n acc)
  = n * 10 ^ Z.of_nat (length acc) + parseInt10 acc.
Proof.
  revert n acc. induction f as [|f IH]; intros n acc Hn.
  - change (2 ^ (Z.of_nat 0 + 1)) with 2 in Hn.
    cbn [digits_loop]. unfold parseInt10 at 1. cbn [fold_left].
    rewrite parseInt10_from, Z.mod_small by lia.
    by replace (0 * 10 + (48 + n - 48)) with n by lia.
  - cbn [digits_loop]. destruct (Z.ltb_spec n 10).
    + unfold parseInt10 at 1. cbn [fold_left].
      rewrite parseInt10_from, Z.mod_small by lia.
    by replace (0 * 10 + (48 + n - 48)) with n by lia.
    + rewrite IH.
      * unfold parseInt10 at 1. cbn [fold_left length].
        rewrite parseInt10_from, Nat2Z.inj_succ, Z.pow_succ_r by lia.
        pose proof (Z.div_mod n 10 ltac:(lia)) as Hdm.
        set (P := 10 ^ Z.of_nat (length acc)).
        rewrite Hdm at 3. ring.
      * split; [apply Z.div_pos; lia|].
        replace (Z.of_nat (S f) + 1) with (Z.succ (Z.of_nat f + 1)) in Hn by lia.
        rewrite Z.pow_succ_r in Hn by lia.
        apply Z.div_lt_upper_bound; lia.
Qed.

Lemma parseInt10_toString (n : Z) : 0 <= n -> parseInt10 (toString n) = n.
Proof.
  intros Hn. unfold toString. rewrite digits_loop_value.
  { change (10 ^ Z.of_nat (length [])) with 1.
    change (parseInt10 []) with 0. lia. }
  split; [done|]. destruct (Z.eq_dec n 0) as [-> | Hne]; [done|].
  rewrite Z2Nat.id by apply Z.log2_nonneg.
  replace (Z.log2 n + 1) with (Z.succ (Z.log2 n)) by lia.
  apply Z.log2_spec. lia.
Qed.

(** ** The engine computes the closed forms *)

Section GreedyFacts.

Context {A : Type}.
Implicit Types (try : nat -> option A).

Lemma greedy_top (lo : nat) try (n : nat) :
  (forall j, (j < n)%nat -> try j = None) -> greedy lo try n = try n.
Proof.
  revert try. induction n as [|n IH]; intros try Hlt; simpl.
  - by destruct (try 0%nat).
  - destruct (try (S n)) eqn:E; [done|].
    destruct (lo <=? n)%nat; [|done].
    rewrite IH by (intros j Hj; apply Hlt; lia). apply Hlt. lia.
Qed.

Lemma greedy_one (lo : nat) try (n : nat) :
  lo = n -> greedy lo try n = try n.
Proof.
  intros ->. destruct n as [|n]; [simpl; by destruct (try 0%nat)|].
  cbn [greedy]. destruct (try (S n)); [done|].
  destruct (Nat.leb_spec (S n) n); [lia | done].
Qed.

End GreedyFacts.

Lemma span_le_length (p : Z -> bool) (s : jsstring) :
  (span p s <= length s)%nat.
Proof. induction s as [|c s IH]; simpl; [lia|]. destruct (p c); simpl; lia. Qed.

Lemma span_all (p : Z -> bool) (s : jsstring) :
  span p s = length s <-> forallb p s = true.
Proof.
  induction s as [|c s IH]; simpl; [done|].
  pose proof (span_le_length p s). destruct (p c); simpl; [|split; [lia|done]].
  rewrite <- IH. lia.
Qed.

Lemma drop_span (p : Z -> bool) (s : jsstring) :
  drop (span p s) s = dropWhile p s.
Proof. induction s as [|c s IH]; simpl; [done|]. by destruct (p c). Qed.

Lemma drop_below_span (p : Z -> bool) (s : jsstring) (j : nat) :
  (j < span p s)%nat -> exists c r, drop j s = c :: r /\ p c = true.
Proof.
  revert j. induction s as [|c s IH]; intros j; simpl; [lia|].
  destruct (p c) eqn:E; [|lia]. destruct j as [|j]; simpl.
  - eauto.
  - intros H. apply IH. lia.
Qed.

(** A regular expression that starts with [^] matches at offset 0 or
    nowhere. *)
Lemma search_anchored (r : regex) (pos : nat) (rest : jsstring) :
  (0 < pos)%nat -> search (Seq Bol r) pos rest = None.
Proof.
  revert pos. induction rest as [|c rest IH]; intros pos Hpos; simpl;
    unfold match_at; simpl; destruct pos; try lia; simpl; [done|].
  apply IH. lia.
Qed.

Lemma String_match_anchored (r : regex) (s : jsstring) :
  String_match s (Seq Bol r)
  = match match_at (Seq Bol r) 0 s with
    | Some (_, caps) => Some caps
    | None => None
    end.
Proof.
  unfold String_match. destruct s as [|c s]; simpl.
  - by destruct (match_at _ _ _) as [[? ?]|].
  - destruct (match_at _ _ _) as [[? ?]|]; [done|].
    apply search_anchored. lia.
Qed.

(** The engine on some well-known cases: an empty match is replaced
    and then passed over; a match may start where the previous one
    ended; alternatives are tried in order; a quantifier gives back. *)
Example replace_empty_matches :
  String_replace (str "abc") (Rep (fun c => c =? 120) 0 None) (str "-")
  = str "-a-b-c-".
Proof. reflexivity. Qed.

Example replace_match_at_end :
  String_replace (str "abc") (Alt (Unit (fun c => c =? 99)) Eol) (str "X")
  = str "abXX".
Proof. reflexivity. Qed.

Example match_backtracks :
  String_match (str "aab")
    (Seq (Group (Rep (fun c => c =? 97) 0 None))
       (Seq (Unit (fun c => c =? 97)) (Group (Unit (fun c => c =? 98)))))
  = Some [str "a"; str "b"].
Proof. reflexivity. Qed.

Example match_leftmost :
  String_match (str "xx12:34")
    (Seq (Group (Rep is_digit 1 (Some 2%nat))) (Unit (fun c => c =? 58)))
  = Some [str "12"].
Proof. reflexivity. Qed.

(** *** The replacements of [generateSlug] *)

Lemma replace_loop_special (s : jsstring) (pos : nat) :
  replace_loop re_special [] pos s 0 = remove_special s.
Proof.
  unfold remove_special. revert pos.
  induction s as [|c s IH]; intros pos; [done|].
  cbn [replace_loop List.filter]. unfold match_at, re_special.
  cbn [exec]. unfold keep_slug_unit.
  destruct (is_word c || is_space c || is_hyphen c); cbn [negb].
  - by rewrite IH.
  - rewrite (proj2 (Nat.ltb_lt pos (S pos))) by lia.
    replace (S pos - pos - 1)%nat with 0%nat by lia. simpl. apply IH.
Qed.

Lemma replace_special (s : jsstring) :
  String_replace s re_special [] = remove_special s.
Proof. apply replace_loop_special. Qed.

Lemma match_at_run (p : Z -> bool) (pos : nat) (rest : jsstring) :
  match_at (Rep p 1 None) pos rest
  = if (1 <=? span p rest)%nat then Some ((pos + span p rest)%nat, [])
    else None.
Proof.
  unfold match_at. cbn [exec].
  destruct (1 <=? span p rest)%nat; [|done].
  by destruct (span p rest).
Qed.

Lemma replace_loop_runs (p : Z -> bool) (by_ s : jsstring) (pos : nat) :
  replace_loop (Rep p 1 None) by_ pos s 0 = replace_runs_from p by_ false s
  /\ replace_loop (Rep p 1 None) by_ pos s (span p s)
     = replace_runs_from p by_ true s.
Proof.
  revert pos. induction s as [|c s IH]; intros pos.
  - by cbn.
  - destruct (IH (S pos)) as [IH0 IH1].
    assert (H0 : replace_loop (Rep p 1 None) by_ pos (c :: s) 0
                 = replace_runs_from p by_ false (c :: s)).
    { cbn [replace_loop replace_runs_from]. rewrite match_at_run.
      cbn [span]. destruct (p c) eqn:E; cbn [Nat.leb].
      - rewrite (proj2 (Nat.ltb_lt pos (pos + S (span p s)))) by lia.
        replace (pos + S (span p s) - pos - 1)%nat with (span p s) by lia.
        by rewrite IH1.
      - by rewrite IH0. }
    split; [exact H0|].
    cbn [span]. destruct (p c) eqn:E.
    + cbn [replace_loop replace_runs_from]. rewrite E. apply IH1.
    + rewrite H0. cbn [replace_runs_from]. by rewrite E.
Qed.

Lemma replace_runs_engine (p : Z -> bool) (by_ s : jsstring) :
  String_replace s (Rep p 1 None) by_ = replace_runs p by_ s.
Proof. apply replace_loop_runs. Qed.

Lemma dropWhileEnd_cons (p : Z -> bool) (c : Z) (s : jsstring) :
  dropWhileEnd p (c :: s)
  = if forallb p (c :: s) then [] else c :: dropWhileEnd p s.
Proof.
  induction s as [|x s IH] using rev_ind.
  - unfold dropWhileEnd. simpl. by destruct (p c).
  - change (c :: s ++ [x]) with ((c :: s) ++ [x]).
    rewrite forallb_app. simpl forallb at 2. rewrite andb_true_r.
    destruct (p x) eqn:E.
    + rewrite !dropWhileEnd_app_all by (simpl; by rewrite E).
      by rewrite andb_true_r.
    + rewrite !dropWhileEnd_stop by done. by rewrite andb_false_r.
Qed.

Lemma dropWhile_all (p : Z -> bool) (s : jsstring) :
  forallb p s = true -> dropWhile p s = [].
Proof.
  induction s as [|c s IH]; simpl; [done|].
  intros [-> Hs]%andb_true_iff. auto.
Qed.

Lemma match_at_edge (pos : nat) (rest : jsstring) :
  match_at re_edge_hyphens pos rest
  = if (1 <=? span is_hyphen rest)%nat
       && ((pos =? 0)%nat || forallb is_hyphen rest)
    then Some ((pos + span is_hyphen rest)%nat, []) else None.
Proof.
  unfold match_at, re_edge_hyphens. cbn [exec].
  set (n := span is_hyphen rest).
  destruct (1 <=? n)%nat eqn:En; cbn [andb].
  2:{ by destruct (pos =? 0)%nat. }
  assert (Hn : (1 <= n)%nat) by (by apply Nat.leb_le).
  destruct (pos =? 0)%nat eqn:Ep; cbn [orb].
  - destruct n; [lia|]. done.
  - destruct (forallb is_hyphen rest) eqn:Ea.
    + assert (Hlen : n = length rest) by (by apply span_all).
      rewrite greedy_top.
      * by rewrite Hlen, drop_all.
      * intros j Hj. destruct (drop j rest) eqn:Ed; [|done].
        apply (f_equal length) in Ed. rewrite length_drop in Ed. simpl in Ed. lia.
    + assert (Hlen : (n < length rest)%nat).
      { pose proof (span_le_length is_hyphen rest).
        destruct (decide (n = length rest)) as [E|E]; [|subst n; lia].
        apply span_all in E. congruence. }
      rewrite greedy_top.
      * destruct (drop n rest) eqn:Ed; [|done].
        apply (f_equal length) in Ed. rewrite length_drop in Ed. simpl in Ed. lia.
      * intros j Hj. destruct (drop j rest) eqn:Ed; [|done].
        apply (f_equal length) in Ed. rewrite length_drop in Ed. simpl in Ed. lia.
Qed.

Lemma replace_loop_edge (s : jsstring) (pos : nat) :
  (0 < pos)%nat ->
  replace_loop re_edge_hyphens [] pos s 0 = dropWhileEnd is_hyphen s
  /\ replace_loop re_edge_hyphens [] pos s (span is_hyphen s)
     = dropWhileEnd is_hyphen (dropWhile is_hyphen s).
Proof.
  revert pos. induction s as [|c s IH]; intros pos Hpos.
  - cbn [replace_loop span]. rewrite match_at_edge. by cbn.
  - destruct (IH (S pos) ltac:(lia)) as [IH0 IH1].
    assert (H0 : replace_loop re_edge_hyphens [] pos (c :: s) 0
                 = dropWhileEnd is_hyphen (c :: s)).
    { cbn [replace_loop]. rewrite match_at_edge, dropWhileEnd_cons.
      rewrite (proj2 (Nat.eqb_neq pos 0)) by lia. cbn [orb].
      destruct (forallb is_hyphen (c :: s)) eqn:Ea.
      - cbn [forallb] in Ea. apply andb_true_iff in Ea as [Ec Es].
        cbn [span]. rewrite Ec. cbn [Nat.leb andb].
        rewrite (proj2 (Nat.ltb_lt pos (pos + S (span is_hyphen s)))) by lia.
        replace (pos + S (span is_hyphen s) - pos - 1)%nat
          with (span is_hyphen s) by lia.
        rewrite IH1. rewrite dropWhile_all by done. done.
      - rewrite andb_false_r. by rewrite IH0. }
    split; [exact H0|].
    cbn [span dropWhile]. destruct (is_hyphen c) eqn:Ec.
    + cbn [replace_loop]. apply IH1.
    + exact H0.
Qed.

Lemma replace_edge_hyphens (s : jsstring) :
  String_replace s re_edge_hyphens [] = strip_hyphens s.
Proof.
  unfold String_replace, strip_hyphens. destruct s as [|c s]; [done|].
  cbn [replace_loop]. rewrite match_at_edge. cbn [Nat.eqb orb span dropWhile].
  destruct (replace_loop_edge s 1 ltac:(lia)) as [IH0 IH1].
  destruct (is_hyphen c) eqn:Ec.
  - cbn [Nat.leb andb].
    rewrite (proj2 (Nat.ltb_lt 0 (0 + S (span is_hyphen s)))) by lia.
    replace (0 + S (span is_hyphen s) - 0 - 1)%nat
      with (span is_hyphen s) by lia.
    apply IH1.
  - cbn [Nat.leb andb]. rewrite IH0, dropWhileEnd_cons.
    cbn [forallb]. by rewrite Ec.
Qed.

(** [generateSlug] in closed form. *)
Lemma generateSlug_closed_form
    (lowerNonAscii : jsstring -> Z -> jsstring -> jsstring) (text : jsstring) :
  generateSlug lowerNonAscii text = generateSlug_direct lowerNonAscii text.
Proof.
  unfold generateSlug, generateSlug_direct.
  rewrite replace_special. unfold re_spaces, re_hyphens.
  rewrite !replace_runs_engine. apply replace_edge_hyphens.
Qed.

(** *** The matches of [normalizeTime] *)

Section TimeRegexFacts.

Context {A : Type}.
Implicit Types (k : nat -> jsstring -> list jsstring -> option A).

Lemma exec_Seq (r1 r2 : regex) (pos : nat) (rest : jsstring)
    (caps : list jsstring) k :
  exec (Seq r1 r2) pos rest caps k
  = exec r1 pos rest caps (fun pos' rest' caps' => exec r2 pos' rest' caps' k).
Proof. done. Qed.

Lemma exec_Unit (p : Z -> bool) (pos : nat) (rest : jsstring)
    (caps : list jsstring) k :
  exec (Unit p) pos rest caps k
  = match rest with
    | c :: rest' => if p c then k (S pos) rest' caps else None
    | [] => None
    end.
Proof. done. Qed.

Lemma exec_Eol (pos : nat) (rest : jsstring) (caps : list jsstring) k :
  exec Eol pos rest caps k
  = match rest with [] => k pos rest caps | _ :: _ => None end.
Proof. done. Qed.

Lemma exec_two_digits (pos : nat) (rest : jsstring) (caps : list jsstring) k :
  exec (Group (Rep is_digit 2 (Some 2%nat))) pos rest caps k
  = match rest with
    | m1 :: m2 :: r =>
        if is_digit m1 && is_digit m2
        then k (pos + 2)%nat r (caps ++ [[m1; m2]]) else None
    | _ => None
    end.
Proof.
  cbn [exec]. destruct rest as [|m1 [|m2 r]]; cbn [span].
  - done.
  - by destruct (is_digit m1).
  - destruct (is_digit m1); [|done]. destruct (is_digit m2); [|done].
    replace (Nat.min (S (S (span is_digit r))) 2) with 2%nat by lia.
    cbn [Nat.leb andb]. rewrite greedy_one by done.
    replace (pos + 2 - pos)%nat with 2%nat by lia. done.
Qed.

Lemma exec_one_or_two_digits (s : jsstring) k :
  exec (Group (Rep is_digit 1 (Some 2%nat))) 0 s [] k
  = if (2 <=? span is_digit s)%nat then
      match k 2%nat (drop 2 s) [take 2 s] with
      | Some a => Some a
      | None => k 1%nat (drop 1 s) [take 1 s]
      end
    else if (1 <=? span is_digit s)%nat then k 1%nat (drop 1 s) [take 1 s]
    else None.
Proof.
  cbn [exec]. destruct (span is_digit s) as [|[|n]].
  - done.
  - cbn [Nat.min Nat.leb]. by rewrite greedy_one.
  - replace (Nat.min (S (S n)) 2) with 2%nat by lia.
    cbn [greedy Nat.leb Nat.add Nat.sub app].
    destruct (k 2%nat (drop 2 s) [take 2 s]); [done|].
    by destruct (k 1%nat (drop 1 s) [take 1 s]).
Qed.

Lemma space_not_letter (c : Z) :
  is_space c = true ->
  (c =? 65) || (c =? 65 + 32) = false /\ (c =? 80) || (c =? 80 + 32) = false.
Proof.
  unfold is_space. rewrite !orb_true_iff, !andb_true_iff, !orb_false_iff. lia.
Qed.

Lemma exec_period_letters (pos : nat) (t : jsstring) (caps : list jsstring) k :
  exec period_regex pos t caps k
  = match t with
    | [a; m] =>
        if ((a =? 65) || (a =? 97) || (a =? 80) || (a =? 112))
           && ((m =? 77) || (m =? 109))
        then k (pos + 2)%nat [] (caps ++ [[a; m]]) else None
    | _ => None
    end.
Proof.
  unfold period_regex, letter_i. cbn [exec].
  destruct t as [|a [|m [|x t]]].
  - done.
  - by destruct ((a =? 65) || (a =? 65 + 32)), ((a =? 80) || (a =? 80 + 32)).
  - change (65 + 32) with 97. change (80 + 32) with 112. change (77 + 32) with 109.
    replace (S (S pos) - pos)%nat with 2%nat by lia.
    replace (S (S pos)) with (pos + 2)%nat by lia. cbn [take].
    destruct (a =? 65), (a =? 97), (a =? 80), (a =? 112), (m =? 77),
      (m =? 109); cbn [orb andb]; try done;
      by destruct (k (pos + 2)%nat [] (caps ++ [[a; m]])).
  - destruct ((a =? 65) || (a =? 65 + 32)), ((a =? 80) || (a =? 80 + 32)),
      ((m =? 77) || (m =? 77 + 32)); done.
Qed.

Lemma length_dropWhile (p : Z -> bool) (s : jsstring) :
  length s = (span p s + length (dropWhile p s))%nat.
Proof. induction s as [|c s IH]; simpl; [done|]. destruct (p c); simpl; lia. Qed.

Lemma exec_period (pos : nat) (rest : jsstring) (caps : list jsstring) k :
  exec (Seq (Rep is_space 0 None) period_regex) pos rest caps k
  = match match_period rest with
    | Some p => k (pos + length rest)%nat [] (caps ++ [p])
    | None => None
    end.
Proof.
  change (exec (Seq (Rep is_space 0 None) period_regex) pos rest caps k)
    with (greedy 0 (fun n => exec period_regex (pos + n)%nat (drop n rest) caps k)
            (span is_space rest)).
  rewrite greedy_top.
  - rewrite drop_span, exec_period_letters. unfold match_period.
    pose proof (length_dropWhile is_space rest) as Hlen.
    destruct (dropWhile is_space rest) as [|a [|m [|x t]]]; try done.
    simpl in Hlen. replace (pos + length rest)%nat
      with (pos + span is_space rest + 2)%nat by lia.
    by destruct (((a =? 65) || (a =? 97) || (a =? 80) || (a =? 112))
                 && ((m =? 77) || (m =? 109))).
  - intros j Hj. destruct (drop_below_span _ _ _ Hj) as (c & r & -> & Hc).
    destruct (space_not_letter c Hc) as [H1 H2].
    unfold period_regex, letter_i. cbn [exec]. by rewrite H1, H2.
Qed.

End TimeRegexFacts.

Lemma take_digits (n : nat) (s : jsstring) :
  (length (take n s) =? n)%nat && forallb is_digit (take n s)
  = (n <=? span is_digit s)%nat.
Proof.
  revert s. induction n as [|n IH]; intros s; [done|].
  destruct s as [|c s]; [done|]. cbn [take length forallb span Nat.eqb].
  destruct (is_digit c); cbn [andb Nat.leb].
  - apply IH.
  - by rewrite andb_false_r.
Qed.

(** What follows the hours in the 12-hour expression, in terms of the
    closed form. *)
Lemma exec_after_hours_12 {A : Type} (n : nat) (s : jsstring)
    (k : nat -> jsstring -> list jsstring -> option A) :
  (n <=? span is_digit s)%nat = true ->
  exec (Seq (Unit (fun c => c =? 58))
          (Seq (Group (Rep is_digit 2 (Some 2%nat)))
             (Seq (Rep is_space 0 None) period_regex)))
    n (drop n s) [take n s] k
  = match match12_with n s with
    | Some (h, m, p) => k (length s) [] [h; m; p]
    | None => None
    end.
Proof.
  intros Hn. unfold match12_with, match_hm. rewrite take_digits, Hn.
  pose proof (length_drop s n) as Hlen.
  assert (Hle : (n <= length s)%nat).
  { apply Nat.leb_le in Hn. pose proof (span_le_length is_digit s). lia. }
  rewrite exec_Seq, exec_Unit.
  destruct (drop n s) as [|c rest]; [done|].
  destruct (c =? 58); [|by destruct rest as [|? [|? ?]]]. cbn [andb].
  rewrite exec_Seq, exec_two_digits.
  destruct rest as [|m1 [|m2 r]]; try done.
  destruct (is_digit m1 && is_digit m2); [|done].
  rewrite exec_period. destruct (match_period r); [|done].
  simpl in Hlen. f_equal. lia.
Qed.

Lemma match12_with_short (n : nat) (s : jsstring) :
  (n <=? span is_digit s)%nat = false -> match12_with n s = None.
Proof. intros Hn. unfold match12_with, match_hm. by rewrite take_digits, Hn. Qed.

(** [timeStr.match(timeRegex12Hour)] computes [shape12]. *)
Lemma String_match_12 (s : jsstring) :
  String_match s timeRegex12Hour
  = match shape12 s with
    | Some (h, m, p) => Some [h; m; p]
    | None => None
    end.
Proof.
  unfold timeRegex12Hour. rewrite String_match_anchored. unfold match_at.
  change (exec (Seq Bol (Seq ?g ?r)) 0 s [] ?k)
    with (exec g 0 s [] (fun pos' rest' caps' => exec r pos' rest' caps' k)).
  rewrite exec_one_or_two_digits. unfold shape12.
  fold period_regex.
  destruct (2 <=? span is_digit s)%nat eqn:E2.
  - assert (E1 : (1 <=? span is_digit s)%nat = true).
    { apply Nat.leb_le. apply Nat.leb_le in E2. lia. }
    rewrite !exec_after_hours_12 by done.
    destruct (match12_with 2 s) as [[[h m] p]|]; [done|].
    by destruct (match12_with 1 s) as [[[h m] p]|].
  - rewrite (match12_with_short 2) by done.
    destruct (1 <=? span is_digit s)%nat eqn:E1.
    + rewrite exec_after_hours_12 by done.
      by destruct (match12_with 1 s) as [[[h m] p]|].
    + by rewrite (match12_with_short 1).
Qed.

Lemma exec_after_hours_24 {A : Type} (n : nat) (s : jsstring)
    (k : nat -> jsstring -> list jsstring -> option A) :
  (n <=? span is_digit s)%nat = true ->
  exec (Seq (Unit (fun c => c =? 58))
          (Seq (Group (Rep is_digit 2 (Some 2%nat))) Eol))
    n (drop n s) [take n s] k
  = match match24_with n s with
    | Some (h, m) => k (length s) [] [h; m]
    | None => None
    end.
Proof.
  intros Hn. unfold match24_with, match_hm. rewrite take_digits, Hn.
  pose proof (length_drop s n) as Hlen.
  assert (Hle : (n <= length s)%nat).
  { apply Nat.leb_le in Hn. pose proof (span_le_length is_digit s). lia. }
  rewrite exec_Seq, exec_Unit.
  destruct (drop n s) as [|c rest]; [done|].
  destruct (c =? 58); [|by destruct rest as [|? [|? ?]]]. cbn [andb].
  rewrite exec_Seq, exec_two_digits.
  destruct rest as [|m1 [|m2 r]]; try done.
  destruct (is_digit m1 && is_digit m2); [|done].
  rewrite exec_Eol. destruct r; [|done].
  simpl in Hlen. f_equal. lia.
Qed.

Lemma match24_with_short (n : nat) (s : jsstring) :
  (n <=? span is_digit s)%nat = false -> match24_with n s = None.
Proof. intros Hn. unfold match24_with, match_hm. by rewrite take_digits, Hn. Qed.

(** [timeStr.match(timeRegex24Hour)] computes [shape24]. *)
Lemma String_match_24 (s : jsstring) :
  String_match s timeRegex24Hour
  = match shape24 s with
    | Some (h, m) => Some [h; m]
    | None => None
    end.
Proof.
  unfold timeRegex24Hour. rewrite String_match_anchored. unfold match_at.
  change (exec (Seq Bol (Seq ?g ?r)) 0 s [] ?k)
    with (exec g 0 s [] (fun pos' rest' caps' => exec r pos' rest' caps' k)).
  rewrite exec_one_or_two_digits. unfold shape24.
  destruct (2 <=? span is_digit s)%nat eqn:E2.
  - assert (E1 : (1 <=? span is_digit s)%nat = true).
    { apply Nat.leb_le. apply Nat.leb_le in E2. lia. }
    rewrite !exec_after_hours_24 by done.
    destruct (match24_with 2 s) as [[h m]|]; [done|].
    by destruct (match24_with 1 s) as [[h m]|].
  - rewrite (match24_with_short 2) by done.
    destruct (1 <=? span is_digit s)%nat eqn:E1.
    + rewrite exec_after_hours_24 by done.
      by destruct (match24_with 1 s) as [[h m]|].
    + by rewrite (match24_with_short 1).
Qed.

(** [normalizeTime] in closed form. *)
Lemma normalizeTime_closed_form (timeStr : jsstring) :
  normalizeTime timeStr = normalizeTime_direct timeStr.
Proof.
  unfold normalizeTime, normalizeTime_direct.
  rewrite String_match_12, String_match_24.
  destruct (shape12 (trim timeStr)) as [[[h m] p]|]; [done|].
  by destruct (shape24 (trim timeStr)) as [[h m]|].
Qed.


(** ** Time normalisation *)

Lemma match_period_ok (p : period) (ws sfx : jsstring) :
  forallb is_space ws = true -> spells p sfx = true ->
  match_period (ws ++ sfx) = Some sfx.
Proof.
  intros Hws Hs. unfold match_period. rewrite dropWhile_app_all by done.
  destruct sfx as [|a [|m [|? ?]]]; try discriminate.
  apply andb_true_iff in Hs as [Ha Hm].
  assert (Hsp : is_space a = false).
  { unfold is_space.
    repeat (apply orb_false_iff; split); try apply andb_false_iff;
      destruct p; lia. }
  rewrite dropWhile_stop by done.
  replace ((a =? 65) || (a =? 97) || (a =? 80) || (a =? 112)) with true
    by (destruct p; lia).
  by rewrite Hm.
Qed.

Lemma match12Hour_ok (p : period) (hs ws sfx : jsstring) (d1 d2 : Z) :
  (length hs = 1 \/ length hs = 2)%nat -> forallb is_digit hs = true ->
  is_digit d1 = true -> is_digit d2 = true ->
  forallb is_space ws = true -> spells p sfx = true ->
  shape12 (hs ++ 58 :: d1 :: d2 :: ws ++ sfx) = Some (hs, [d1; d2], sfx).
Proof.
  intros Hlen Hhs Hd1 Hd2 Hws Hs.
  pose proof (match_period_ok p ws sfx Hws Hs) as Hp.
  unfold shape12, match12_with, match_hm.
  destruct hs as [|x [|y [|? ?]]]; simpl in Hlen; try lia; simpl in *.
  - apply andb_true_iff in Hhs as [Hx _]. rewrite Hx. simpl.
    rewrite Hd1, Hd2. simpl. by rewrite Hp.
  - rewrite Hhs. simpl. rewrite Hd1, Hd2. simpl. by rewrite Hp.
Qed.

Lemma toString_head_digit (h : Z) :
  0 <= h < 100 ->
  exists x r, toString h = x :: r /\ is_digit x = true
              /\ forallb is_digit r = true /\ (length r <= 1)%nat
              /\ parseInt10 (x :: r) = h.
Proof.
  intros H. destruct (Z.lt_ge_cases h 10).
  - rewrite toString_lt10 by lia. exists (48 + h), [].
    repeat split; [apply digit_code; lia | simpl; lia | unfold parseInt10; simpl; lia].
  - rewrite toString_lt100 by lia. exists (48 + h / 10), [48 + h mod 10].
    assert (0 <= h / 10 < 10)
      by (split; [apply Z.div_pos; lia | apply Z.div_lt_upper_bound; lia]).
    pose proof (Z.mod_pos_bound h 10 ltac:(lia)).
    repeat split; [apply digit_code; lia | | simpl; lia | ].
    + simpl. rewrite digit_code by lia. done.
    + unfold parseInt10. simpl. pose proof (Z.div_mod h 10 ltac:(lia)). lia.
Qed.

Lemma hour_spelling (h : Z) (hs : jsstring) :
  0 <= h < 100 ->
  hs = toString h \/ hs = padStart 2 48 (toString h) ->
  exists x r, hs = x :: r /\ is_digit x = true
              /\ forallb is_digit hs = true
              /\ (length hs = 1 \/ length hs = 2)%nat
              /\ parseInt10 hs = h.
Proof.
  intros Hh [-> | ->].
  - destruct (toString_head_digit h Hh) as (x & r & -> & Hx & Hr & Hl & Hp).
    exists x, r. repeat split; try done.
    + simpl. by rewrite Hx, Hr.
    + destruct r as [|? [|? ?]]; simpl in *; lia.
  - rewrite pad2_digits by lia.
    assert (0 <= h / 10 < 10)
      by (split; [apply Z.div_pos; lia | apply Z.div_lt_upper_bound; lia]).
    pose proof (Z.mod_pos_bound h 10 ltac:(lia)).
    exists (48 + h / 10), [48 + h mod 10].
    repeat split; [apply digit_code; lia | | by right | ].
    + simpl. rewrite !digit_code by lia. done.
    + unfold parseInt10. simpl. pose proof (Z.div_mod h 10 ltac:(lia)). lia.
Qed.

(** C2.  A 12-hour time [h:MM] or [HH:MM] with hour 1 to 12 and minutes
    00 to 59, followed by AM or PM in any case (with any white space
    before the suffix and around the whole), is normalised to the
    zero-padded 24-hour time: 12 AM gives hour 00, 12 PM stays 12, the
    PM hours 1 to 11 gain 12, the AM hours 1 to 11 are kept. *)
Theorem normalizeTime_12_hour
    (h m : Z) (p : period) (hs ws sfx lead trail : jsstring) :
  1 <= h <= 12 -> 0 <= m <= 59 ->
  hs = toString h \/ hs = padStart 2 48 (toString h) ->
  forallb is_space ws = true -> spells p sfx = true ->
  forallb is_space lead = true -> forallb is_space trail = true ->
  normalizeTime
    (lead ++ hs ++ str ":" ++ padStart 2 48 (toString m) ++ ws ++ sfx ++ trail)
  = Ok (padStart 2 48 (toString (spec_hour24 h p)) ++ str ":"
          ++ padStart 2 48 (toString m)).
Proof.
  intros Hh Hm Hhs Hws Hs Hlead Htrail. rewrite normalizeTime_closed_form.
  destruct (hour_spelling h hs ltac:(lia) Hhs)
    as (x & r & Ex & Hx & Hdig & Hlen & Hparse).
  rewrite (pad2_digits m) by lia.
  assert (0 <= m / 10 < 10)
    by (split; [apply Z.div_pos; lia | apply Z.div_lt_upper_bound; lia]).
  pose proof (Z.mod_pos_bound m 10 ltac:(lia)) as Hmod.
  set (d1 := 48 + m / 10). set (d2 := 48 + m mod 10).
  assert (Hd1 : is_digit d1 = true) by (apply digit_code; lia).
  assert (Hd2 : is_digit d2 = true) by (apply digit_code; lia).
  pose proof (match12Hour_ok p hs ws sfx d1 d2 Hlen Hdig Hd1 Hd2 Hws Hs)
    as Hmatch.
  destruct sfx as [|a [|c [|? ?]]]; try discriminate.
  assert (Hc : c = 77 \/ c = 109)
    by (apply andb_true_iff in Hs as [_ Hc]; lia).
  assert (Ha : match p with AM => a = 65 \/ a = 97 | PM => a = 80 \/ a = 112 end)
    by (apply andb_true_iff in Hs as [Ha _]; destruct p; lia).
  unfold normalizeTime_direct.
  replace (trim (lead ++ hs ++ str ":" ++ [d1; d2] ++ ws ++ [a; c] ++ trail))
    with (hs ++ 58 :: d1 :: d2 :: ws ++ [a; c]).
  2:{ subst hs.
      replace (lead ++ (x :: r) ++ str ":" ++ [d1; d2] ++ ws ++ [a; c] ++ trail)
        with (lead ++ (x :: (r ++ 58 :: d1 :: d2 :: ws ++ [a]) ++ [c]) ++ trail)
        by (simpl; rewrite <- !app_assoc; simpl; rewrite <- !app_assoc; done).
      rewrite trim_around; try done.
      - simpl. rewrite <- !app_assoc. simpl. rewrite <- !app_assoc. done.
      - by apply digit_not_space.
      - unfold is_space.
        repeat (apply orb_false_iff; split); try apply andb_false_iff; lia. }
  rewrite Hmatch. rewrite Hparse.
  unfold spec_hour24.
  destruct p; destruct Ha as [-> | ->]; destruct Hc as [-> | ->];
    repeat match goal with
      | |- context [streqb ?u ?v] =>
          let b := eval vm_compute in (streqb u v) in
          change (streqb u v) with b
      end;
    cbn [andb negb]; destruct (Z.eqb_spec h 12) as [E12 | E12];
    cbn [andb negb]; rewrite ?E12; reflexivity.
Qed.

(** The examples of the specification, and the others of its section 8,
    obtained from the theorem. *)
Lemma normalizeTime_12_hour_witness :
  normalizeTime (str "12:00 AM") = Ok (str "00:00")
  /\ normalizeTime (str "12:00 PM") = Ok (str "12:00")
  /\ normalizeTime (str "1:05 PM") = Ok (str "13:05")
  /\ normalizeTime (str "11:59 PM") = Ok (str "23:59").
Proof.
  split; [|split; [|split]].
  - apply (normalizeTime_12_hour 12 0 AM (str "12") (str " ") (str "AM") [] []);
      first [lia | reflexivity | by left].
  - apply (normalizeTime_12_hour 12 0 PM (str "12") (str " ") (str "PM") [] []);
      first [lia | reflexivity | by left].
  - apply (normalizeTime_12_hour 1 5 PM (str "1") (str " ") (str "PM") [] []);
      first [lia | reflexivity | by left].
  - apply (normalizeTime_12_hour 11 59 PM (str "11") (str " ") (str "PM") [] []);
      first [lia | reflexivity | by left].
Defined.

(** C1.  The 12-hour branch of [normalizeTime] has no range check: the
    input 13:00 AM, whose hour is out of range, is not rejected but
    returned as the time 13:00. *)
Theorem normalizeTime_13_AM_accepted :
  normalizeTime (str "13:00 AM") = Ok (str "13:00").
Proof. reflexivity. Qed.

(** The same branch can even return what is no time of day. *)
Example normalizeTime_13_PM :
  normalizeTime (str "13:00 PM") = Ok (str "25:00").
Proof. reflexivity. Qed.

Example normalizeTime_12h_minutes_unchecked :
  normalizeTime (str "1:99 pm") = Ok (str "13:99").
Proof. reflexivity. Qed.

(** The 24-hour branch checks both ranges, and a string of neither
    shape is refused. *)
Example normalizeTime_25_00 :
  normalizeTime (str "25:00") = Throw err_time_range.
Proof. reflexivity. Qed.

Example normalizeTime_abc :
  normalizeTime (str "abc") = Throw err_time_format.
Proof. reflexivity. Qed.

Lemma normalizeTime_no_shape (s : jsstring) :
  shape12 (trim s) = None -> shape24 (trim s) = None ->
  normalizeTime s = Throw err_time_format.
Proof.
  intros H12 H24. rewrite normalizeTime_closed_form.
  unfold normalizeTime_direct. by rewrite H12, H24.
Qed.

Lemma normalizeTime_24_hour_checked (s g1 g2 : jsstring) :
  shape12 (trim s) = None -> shape24 (trim s) = Some (g1, g2) ->
  23 < parseInt10 g1 \/ 59 < parseInt10 g2 ->
  normalizeTime s = Throw err_time_range.
Proof.
  intros H12 H24 Hr. rewrite normalizeTime_closed_form.
  unfold normalizeTime_direct. rewrite H12, H24.
  replace ((parseInt10 g1 <? 0) || (parseInt10 g1 >? 23)
           || (parseInt10 g2 <? 0) || (parseInt10 g2 >? 59)) with true; [done|].
  symmetry. rewrite !orb_true_iff. lia.
Qed.

(** ** Slug derivation *)

Lemma is_hyphen_true (c : Z) : is_hyphen c = true <-> c = hyphen.
Proof. unfold is_hyphen. apply Z.eqb_eq. Qed.

Lemma is_hyphen_false (c : Z) : is_hyphen c = false <-> c <> hyphen.
Proof. unfold is_hyphen. apply Z.eqb_neq. Qed.

Lemma Forall_dropWhile (P : Z -> Prop) (p : Z -> bool) (s : jsstring) :
  Forall P s -> Forall P (dropWhile p s).
Proof.
  induction 1 as [|c s Hc Hs IH]; simpl; [constructor|].
  destruct (p c); [done | by constructor].
Qed.

Lemma Forall_dropWhileEnd (P : Z -> Prop) (p : Z -> bool) (s : jsstring) :
  Forall P s -> Forall P (dropWhileEnd p s).
Proof.
  intros H. unfold dropWhileEnd.
  apply List.Forall_rev, Forall_dropWhile, List.Forall_rev, H.
Qed.

Lemma Forall_trim (P : Z -> Prop) (s : jsstring) :
  Forall P s -> Forall P (trim s).
Proof. intros H. by apply Forall_dropWhileEnd, Forall_dropWhile. Qed.

Lemma Forall_remove_special (P : Z -> Prop) (s : jsstring) :
  Forall P s ->
  Forall (fun c => P c /\ keep_slug_unit c = true) (remove_special s).
Proof.
  induction 1 as [|c s Hc Hs IH]; simpl; [constructor|].
  destruct (keep_slug_unit c) eqn:E; [by constructor | done].
Qed.

Lemma Forall_replace_runs_from (P Q : Z -> Prop) (p : Z -> bool)
    (by_ : jsstring) (inrun : bool) (s : jsstring) :
  Forall P s -> Forall Q by_ ->
  Forall (fun c => (P c /\ p c = false) \/ Q c)
    (replace_runs_from p by_ inrun s).
Proof.
  intros Hs Hby. revert inrun.
  induction Hs as [|c s Hc Hs IH]; intros inrun; simpl; [constructor|].
  destruct (p c) eqn:E.
  - apply Forall_app. split; [|apply IH].
    destruct inrun; [constructor|].
    eapply Forall_impl; [exact Hby | by right].
  - constructor; [by left | apply IH].
Qed.

(** After [replace(/-+/g, "-")] no two hyphens are adjacent; and right
    after a replaced run the output does not go on with a hyphen. *)
Lemma replace_hyphen_runs_no_double (inrun : bool) (s : jsstring) :
  (forall l r,
     replace_runs_from is_hyphen [hyphen] inrun s <> l ++ hyphen :: hyphen :: r)
  /\ (inrun = true ->
      forall r, replace_runs_from is_hyphen [hyphen] inrun s <> hyphen :: r).
Proof.
  revert inrun. induction s as [|c s IH]; intros inrun.
  - split; [intros [|? ?] ? | intros _ ?]; done.
  - simpl. destruct (is_hyphen c) eqn:E.
    + destruct (IH true) as [IH1 IH2]. destruct inrun; simpl.
      * split; [apply IH1 | intros _; by apply IH2].
      * split; [|done]. intros [|x l] r Heq; simpl in Heq.
        -- injection Heq as Heq. by eapply IH2.
        -- injection Heq as _ Heq. by eapply IH1.
    + apply is_hyphen_false in E. destruct (IH false) as [IH1 _].
      split.
      * intros [|x l] r Heq; simpl in Heq; [congruence|].
        injection Heq as _ Heq. by eapply IH1.
      * intros _ r Heq. congruence.
Qed.

Lemma dropWhile_suffix (p : Z -> bool) (s : jsstring) :
  exists l, s = l ++ dropWhile p s.
Proof.
  induction s as [|c s [l IH]]; simpl; [by exists []|].
  destruct (p c); [|by exists []].
  exists (c :: l). simpl. by f_equal.
Qed.

Lemma dropWhile_head (p : Z -> bool) (s r : jsstring) (c : Z) :
  dropWhile p s = c :: r -> p c = false.
Proof.
  induction s as [|x s IH]; simpl; [done|].
  destruct (p x) eqn:E; [done|]. by intros [= <- _].
Qed.

Lemma dropWhileEnd_prefix (p : Z -> bool) (s : jsstring) :
  exists r, s = dropWhileEnd p s ++ r.
Proof.
  unfold dropWhileEnd.
  destruct (dropWhile_suffix p (rev s)) as [l Hl].
  exists (rev l). rewrite <- rev_app_distr, <- Hl. by rewrite rev_involutive.
Qed.

Lemma dropWhileEnd_last (p : Z -> bool) (s l : jsstring) (c : Z) :
  dropWhileEnd p s = l ++ [c] -> p c = false.
Proof.
  unfold dropWhileEnd. intros H.
  apply (f_equal (@rev Z)) in H.
  rewrite rev_involutive, rev_app_distr in H. simpl in H.
  by eapply dropWhile_head.
Qed.

Lemma dropWhileEnd_cons_keeps (p : Z -> bool) (s : jsstring) (c : Z) :
  p c = false -> dropWhileEnd p (c :: s) = c :: dropWhileEnd p s.
Proof.
  intros Hc. revert c Hc.
  induction s as [|x s IH] using rev_ind; intros c Hc.
  - unfold dropWhileEnd. simpl. by rewrite Hc.
  - destruct (p x) eqn:E.
    + change (c :: s ++ [x]) with ((c :: s) ++ [x]).
      rewrite !dropWhileEnd_app_all by (simpl; by rewrite E). by apply IH.
    + change (c :: s ++ [x]) with ((c :: s) ++ [x]).
      by rewrite !dropWhileEnd_stop.
Qed.

(** [strip_hyphens] leaves no hyphen at either end, and keeps a part
    of its argument. *)
Lemma strip_hyphens_ends (s : jsstring) :
  (forall r, strip_hyphens s <> hyphen :: r)
  /\ (forall l, strip_hyphens s <> l ++ [hyphen])
  /\ exists l r, s = l ++ strip_hyphens s ++ r.
Proof.
  unfold strip_hyphens. split; [|split].
  - intros r H.
    destruct (dropWhile is_hyphen s) as [|c t] eqn:E; [done|].
    pose proof (dropWhile_head _ _ _ _ E) as Hc.
    rewrite dropWhileEnd_cons_keeps in H by done.
    injection H as -> _. by apply is_hyphen_false in Hc.
  - intros l H. apply dropWhileEnd_last in H. by apply is_hyphen_false in H.
  - destruct (dropWhile_suffix is_hyphen s) as [l Hl].
    destruct (dropWhileEnd_prefix is_hyphen (dropWhile is_hyphen s)) as [r Hr].
    exists l, r. by rewrite <- Hr.
Qed.

Section SlugFacts.

Variable lowerNonAscii : jsstring -> Z -> jsstring -> jsstring.

(** No lower-case mapping of Unicode produces an ASCII capital. *)
Hypothesis lower_no_capital :
  forall before c after, 128 <= c ->
    Forall (fun d => is_upper d = false) (lowerNonAscii before c after).

Lemma toLowerCase_no_capital (before s : jsstring) :
  Forall (fun d => is_upper d = false)
    (toLowerCase_from lowerNonAscii before s).
Proof.
  revert before. induction s as [|c s IH]; intros before; simpl.
  - constructor.
  - apply Forall_app. split; [|apply IH].
    destruct (Z.ltb_spec c 128).
    + constructor; [|constructor]. unfold lowerAscii.
      destruct (is_upper c) eqn:E; unfold is_upper in *; lia.
    + by apply lower_no_capital.
Qed.

Lemma kept_unit_cases (c : Z) :
  is_upper c = false -> keep_slug_unit c = true ->
  (slug_unit c /\ is_space c = false) \/ is_space c = true.
Proof.
  unfold keep_slug_unit, is_word, slug_unit, is_lower_word.
  intros Hu Hk. rewrite Hu in Hk. simpl in Hk.
  destruct (is_space c) eqn:Es; [by right | left].
  split; [|done]. rewrite orb_false_r in Hk.
  apply orb_true_iff in Hk as [Hk | Hk]; [by left | right].
  by apply is_hyphen_true.
Qed.

Lemma slug_units_before_strip (text : jsstring) :
  Forall slug_unit
    (replace_runs is_hyphen (str "-")
       (replace_runs is_space (str "-")
          (remove_special (trim (toLowerCase lowerNonAscii text))))).
Proof.
  pose proof (toLowerCase_no_capital [] text) as H0.
  apply (Forall_trim _) in H0. apply Forall_remove_special in H0.
  apply (Forall_replace_runs_from _ (fun c => c = hyphen) is_space
           (str "-") false) in H0; [|by repeat constructor].
  apply (Forall_replace_runs_from _ (fun c => c = hyphen) is_hyphen
           (str "-") false) in H0; [|by repeat constructor].
  eapply Forall_impl; [exact H0|]. simpl.
  intros c [[[[[Hu Hk] Hs] | ->] _] | ->]; try by right.
  destruct (kept_unit_cases c Hu Hk) as [[? _] | ?]; [done | congruence].
Qed.

Lemma Forall_part (P : Z -> Prop) (l m r : jsstring) :
  Forall P (l ++ m ++ r) -> Forall P m.
Proof. intros H. by apply Forall_app in H as [_ [H _]%Forall_app]. Qed.

Lemma generateSlug_direct_finished (text : jsstring) :
  well_formed_slug (generateSlug_direct lowerNonAscii text).
Proof.
  unfold generateSlug_direct.
  pose proof (slug_units_before_strip text) as Hu.
  set (t := replace_runs is_hyphen (str "-") _) in *.
  destruct (strip_hyphens_ends t) as (Hhead & Hlast & l & r & Ht).
  repeat split; try done.
  - rewrite Ht in Hu. by eapply Forall_part.
  - intros l' r' Heq.
    destruct (replace_hyphen_runs_no_double false
                (replace_runs is_space (str "-")
                   (remove_special (trim (toLowerCase lowerNonAscii text)))))
      as [Hnd _].
    apply (Hnd (l ++ l') (r' ++ r)).
    change (t = (l ++ l') ++ hyphen :: hyphen :: r' ++ r).
    transitivity (l ++ strip_hyphens t ++ r); [exact Ht|].
    rewrite Heq, <- !app_assoc. done.
Qed.

(** C3.  The slug derived from a title, empty or not, contains only
    lowercase word characters and hyphens, neither starts nor ends with
    a hyphen, and has no two hyphens in a row. *)
Theorem generateSlug_well_formed (text : jsstring) :
  Forall (fun c => is_lower_word c = true \/ c = hyphen)
    (generateSlug lowerNonAscii text)
  /\ (forall r, generateSlug lowerNonAscii text <> hyphen :: r)
  /\ (forall l, generateSlug lowerNonAscii text <> l ++ [hyphen])
  /\ (forall l r,
        generateSlug lowerNonAscii text <> l ++ hyphen :: hyphen :: r).
Proof.
  rewrite generateSlug_closed_form.
  exact (generateSlug_direct_finished text).
Qed.

(** *** A finished slug is a fixed point *)

Lemma slug_unit_facts (c : Z) :
  slug_unit c ->
  c < 128 /\ is_upper c = false /\ is_space c = false
  /\ keep_slug_unit c = true.
Proof.
  unfold slug_unit, is_lower_word, keep_slug_unit, is_word, is_hyphen,
    is_lower, is_digit, is_upper, is_space, hyphen.
  intros [H | ->]; [|by repeat split].
  rewrite !orb_true_iff, !andb_true_iff in H.
  split; [lia|]. split; [apply andb_false_iff; lia|]. split.
  - repeat (apply orb_false_iff; split); try apply andb_false_iff; lia.
  - rewrite !orb_true_iff, !andb_true_iff. lia.
Qed.

Lemma toLowerCase_slug_units (before s : jsstring) :
  Forall slug_unit s -> toLowerCase_from lowerNonAscii before s = s.
Proof.
  intros H. revert before.
  induction H as [|c s Hc Hs IH]; intros before; simpl; [done|].
  destruct (slug_unit_facts c Hc) as (Hlt & Hup & _).
  destruct (Z.ltb_spec c 128); [|lia].
  unfold lowerAscii. rewrite Hup. simpl. by rewrite IH.
Qed.

Lemma slug_units_no_space (s : jsstring) :
  Forall slug_unit s -> forallb (fun c => negb (is_space c)) s = true.
Proof.
  induction 1 as [|c s Hc Hs IH]; simpl; [done|].
  destruct (slug_unit_facts c Hc) as (_ & _ & -> & _). done.
Qed.

Lemma remove_special_slug_units (s : jsstring) :
  Forall slug_unit s -> remove_special s = s.
Proof.
  unfold remove_special.
  induction 1 as [|c s Hc Hs IH]; simpl; [done|].
  destruct (slug_unit_facts c Hc) as (_ & _ & _ & ->). by rewrite IH.
Qed.

Lemma replace_runs_absent (p : Z -> bool) (by_ s : jsstring) :
  forallb (fun c => negb (p c)) s = true ->
  replace_runs_from p by_ false s = s.
Proof.
  induction s as [|c s IH]; simpl; [done|].
  intros [Hc Hs]%andb_true_iff. destruct (p c); [done|]. by rewrite IH.
Qed.

Lemma replace_hyphen_runs_single (inrun : bool) (s : jsstring) :
  (forall l r, s <> l ++ hyphen :: hyphen :: r) ->
  (inrun = true -> forall r, s <> hyphen :: r) ->
  replace_runs_from is_hyphen [hyphen] inrun s = s.
Proof.
  revert inrun. induction s as [|c s IH]; intros inrun Hnd Hhd; [done|].
  simpl. destruct (is_hyphen c) eqn:E.
  - apply is_hyphen_true in E as ->.
    destruct inrun; [by edestruct Hhd|].
    simpl. f_equal. apply IH.
    + intros l r ->. by apply (Hnd (hyphen :: l) r).
    + intros _ r ->. by apply (Hnd [] r).
  - f_equal. apply IH; [|done].
    intros l r ->. by apply (Hnd (c :: l) r).
Qed.

Lemma strip_hyphens_none (s : jsstring) :
  (forall r, s <> hyphen :: r) -> (forall l, s <> l ++ [hyphen]) ->
  strip_hyphens s = s.
Proof.
  intros Hhd Hlast. unfold strip_hyphens.
  assert (Hd : dropWhile is_hyphen s = s).
  { destruct s as [|c r]; [done|]. apply dropWhile_stop.
    apply is_hyphen_false. intros ->. by eapply Hhd. }
  rewrite Hd. destruct s as [|c r _] using rev_ind; [done|].
  apply dropWhileEnd_stop. apply is_hyphen_false. intros ->. by eapply Hlast.
Qed.

(** Deriving a slug from a finished slug changes nothing. *)
Lemma generateSlug_fixed_point (s : jsstring) :
  well_formed_slug s -> generateSlug_direct lowerNonAscii s = s.
Proof.
  intros (Hu & Hhd & Hlast & Hnd). unfold generateSlug_direct, toLowerCase.
  rewrite toLowerCase_slug_units by done.
  pose proof (slug_units_no_space s Hu) as Hsp.
  unfold trim.
  rewrite (dropWhile_none is_space s Hsp), (dropWhileEnd_none is_space s Hsp).
  rewrite (remove_special_slug_units s Hu).
  unfold replace_runs. rewrite (replace_runs_absent is_space _ s Hsp).
  change (str "-") with [hyphen].
  rewrite (replace_hyphen_runs_single false s Hnd) by done.
  by apply strip_hyphens_none.
Qed.

(** C10.  [generateSlug] is idempotent: deriving a slug from a derived
    slug gives that slug again. *)
Theorem generateSlug_idempotent (t : jsstring) :
  generateSlug lowerNonAscii (generateSlug lowerNonAscii t)
  = generateSlug lowerNonAscii t.
Proof.
  rewrite !generateSlug_closed_form.
  apply generateSlug_fixed_point, generateSlug_direct_finished.
Qed.

End SlugFacts.

(** The sample case table produces no ASCII capital. *)
Lemma lowerSample_no_capital (before : jsstring) (c : Z) (after : jsstring) :
  128 <= c -> Forall (fun d => is_upper d = false) (lowerSample before c after).
Proof.
  intros Hc. unfold lowerSample.
  repeat match goal with
         | |- context [if ?b then _ else _] => destruct b eqn:?
         end;
    repeat constructor; unfold is_upper; lia.
Qed.

Lemma generateSlug_well_formed_witness :
  let slug := generateSlug lowerSample (str "  Hello,  World -- 2024! ") in
  slug = str "hello-world-2024"
  /\ Forall (fun c => is_lower_word c = true \/ c = hyphen) slug
  /\ (forall r, slug <> hyphen :: r)
  /\ (forall l, slug <> l ++ [hyphen])
  /\ (forall l r, slug <> l ++ hyphen :: hyphen :: r).
Proof.
  split; [reflexivity|].
  exact (generateSlug_well_formed lowerSample lowerSample_no_capital
           (str "  Hello,  World -- 2024! ")).
Defined.

Lemma generateSlug_idempotent_witness :
  generateSlug lowerSample
    (generateSlug lowerSample ([8490; 32; 304; 32; 200; 8232] ++ str "--x_Y "))
  = generateSlug lowerSample ([8490; 32; 304; 32; 200; 8232] ++ str "--x_Y ").
Proof.
  exact (generateSlug_idempotent lowerSample lowerSample_no_capital
           ([8490; 32; 304; 32; 200; 8232] ++ str "--x_Y ")).
Defined.

(** ** The Event pre-save hook *)

Section EventHookFacts.

Variable lowerNonAscii : jsstring -> Z -> jsstring -> jsstring.
Variable hostParse : jsstring -> option Z.
Variable isModified : jsstring -> bool.

(** C7.  In a run of the Event pre-save hook each transformation is
    called only if its source field is modified; the slug, the date and
    the time of a document whose title, date or time is not modified
    are left as they were, and no other field is changed.  When the
    title is modified the slug is derived from it. *)
Theorem eventPreSave_only_modified
    (this this' : EventDoc) (ran : list transform) (out : next_arg) :
  eventPreSave lowerNonAscii hostParse isModified this = (this', ran, out) ->
  (In SlugDerivation ran <-> isModified (str "title") = true)
  /\ (In DateNormalization ran -> isModified (str "date") = true)
  /\ (In TimeNormalization ran -> isModified (str "time") = true)
  /\ (isModified (str "title") = false -> slug this' = slug this)
  /\ (isModified (str "date") = false -> date this' = date this)
  /\ (isModified (str "time") = false -> time this' = time this)
  /\ (isModified (str "title") = true ->
      slug this' = generateSlug lowerNonAscii (title this))
  /\ same_other_fields this this'.
Proof.
  unfold eventPreSave, bind, slug_stmt, date_stmt, time_stmt,
    same_other_fields.
  destruct (isModified (str "title")) eqn:Et;
    destruct (isModified (str "date")) eqn:Ed;
    destruct (isModified (str "time")) eqn:Em; cbn [title date time];
    repeat match goal with
      | |- context [normalizeDate ?h ?d] => destruct (normalizeDate h d)
      | |- context [normalizeTime ?t] => destruct (normalizeTime t)
      end;
    intros [= <- <- <-]; simpl; intuition congruence.
Qed.

End EventHookFacts.

Lemma eventPreSave_only_modified_witness :
  exists this',
    eventPreSave lowerSample (fun _ => None) only_time_modified sample_event
    = (this', [TimeNormalization], Next)
    /\ slug this' = str "kept-slug" /\ date this' = str "2024-05-01"
    /\ time this' = str "21:30".
Proof.
  eexists. split; [reflexivity|].
  destruct (eventPreSave_only_modified lowerSample (fun _ => None)
              only_time_modified sample_event _ _ _ eq_refl)
    as (_ & _ & _ & Hs & Hd & _).
  split; [exact (Hs eq_refl)|]. split; [exact (Hd eq_refl) | reflexivity].
Defined.

(** ** The Booking pre-save hook *)

Lemma save_rejected_by_hook
    (isModified : jsstring -> bool) (this : BookingDoc) (db db' : Db)
    (e : jsstring) :
  bookingPreSave isModified this db = (db', NextError e) ->
  save isModified this db = (db', Throw e).
Proof. unfold save. by intros ->. Qed.

(** C4, as amended.  When the event reference of a booking is modified
    and the existence query is answered, and no event with that
    identifier is stored, the save is rejected with the error that
    quotes the identifier.  When the query itself is rejected, the save
    is rejected with the error of the query.  In both cases the stored
    bookings are left as they were.  When the event reference is not
    modified the hook makes no existence query and lets the save go
    on. *)
Theorem booking_save_checks_event
    (isModified : jsstring -> bool) (this : BookingDoc) (db : Db) :
  (isModified (str "eventId") = true ->
   queryFailure db (eventId this) = None ->
   events db !! eventId this = None ->
   exists db',
     save isModified this db
     = (db', Throw (str "Event with ID " ++ eventId this
                      ++ str " does not exist. Cannot create booking for non-existent event."))
     /\ bookings db' = bookings db /\ events db' = events db)
  /\ (forall error,
      isModified (str "eventId") = true ->
      queryFailure db (eventId this) = Some error ->
      exists db',
        save isModified this db = (db', Throw error)
        /\ bookings db' = bookings db /\ events db' = events db)
  /\ (isModified (str "eventId") = false ->
      bookingPreSave isModified this db = (db, Next)
      /\ existsQueries (fst (save isModified this db)) = existsQueries db).
Proof.
  split; [|split].
  - intros Hm Hq Hnone. eexists. split.
    + apply save_rejected_by_hook. unfold bookingPreSave, Event_exists.
      rewrite Hm, Hq, Hnone. reflexivity.
    + done.
  - intros error Hm Hq. eexists. split.
    + apply save_rejected_by_hook. unfold bookingPreSave, Event_exists.
      rewrite Hm, Hq. reflexivity.
    + done.
  - intros Hm. unfold save, bookingPreSave. rewrite Hm. split; [done|].
    by destruct (duplicate_pair this db).
Qed.

Lemma booking_save_checks_event_witness :
  (exists db',
     save (fun _ => true) sample_booking sample_db
     = (db', Throw (str "Event with ID ffffffffffffffffffffffff does not exist. Cannot create booking for non-existent event."))
     /\ bookings db' = bookings sample_db /\ events db' = events sample_db)
  /\ (exists db',
        save (fun _ => true) sample_booking sample_db_down
        = (db', Throw (str "connect ECONNREFUSED 127.0.0.1:27017"))
        /\ bookings db' = bookings sample_db_down
        /\ events db' = events sample_db_down)
  /\ existsQueries (fst (save (fun _ => false) sample_booking sample_db)) = [].
Proof.
  destruct (booking_save_checks_event (fun _ => true) sample_booking sample_db)
    as (H1 & _ & _).
  destruct (booking_save_checks_event (fun _ => true) sample_booking
              sample_db_down) as (_ & H2 & _).
  destruct (booking_save_checks_event (fun _ => false) sample_booking sample_db)
    as (_ & _ & H3).
  split; [|split].
  - exact (H1 eq_refl eq_refl eq_refl).
  - exact (H2 _ eq_refl eq_refl).
  - by destruct (H3 eq_refl) as [_ ->].
Defined.

(** C4, as stated, fails when the database cannot be reached: the
    event reference is modified and no event with that identifier is
    stored, yet the save is rejected with the error of the query, which
    is not the error of the hook and does not contain the
    identifier. *)
Lemma booking_save_query_rejected :
  events sample_db_down !! eventId sample_booking = None
  /\ exists db',
       save (fun _ => true) sample_booking sample_db_down
       = (db', Throw (str "connect ECONNREFUSED 127.0.0.1:27017"))
       /\ str "connect ECONNREFUSED 127.0.0.1:27017"
          <> err_no_event (eventId sample_booking)
       /\ includes (str "connect ECONNREFUSED 127.0.0.1:27017")
            (eventId sample_booking) = false.
Proof.
  split; [by vm_compute|]. eexists. split; [reflexivity|].
  split; [by vm_compute | by vm_compute].
Qed.

(** ** The connection cache *)

Lemma state_of_set_attempt (s : State) (a a' : nat) (st : attempt_state)
    (u : jsstring) (cn : option handle) (pr : option nat)
    (cs : gmap nat caller_state) :
  state_of (mkState u cn pr (set_attempt a st s) cs) a'
  = if decide (a' = a) then (fun _ => st) <$> state_of s a
    else state_of s a'.
Proof.
  unfold state_of, set_attempt. simpl.
  destruct (attempts s !! a) as [at_|] eqn:E.
  - destruct (decide (a' = a)) as [-> | Hne].
    + rewrite list_lookup_insert_eq by (by eapply lookup_lt_Some). done.
    + by rewrite list_lookup_insert_ne.
  - destruct (decide (a' = a)) as [-> | Hne]; [by rewrite E | done].
Qed.

Lemma state_of_new_attempt (s : State) (a' : nat) (at_ : attempt)
    (u : jsstring) (cn : option handle) (pr : option nat)
    (cs : gmap nat caller_state) :
  state_of (mkState u cn pr (attempts s ++ [at_]) cs) a'
  = if decide (a' = length (attempts s)) then Some (a_state at_)
    else state_of s a'.
Proof.
  unfold state_of. simpl.
  destruct (decide (a' = length (attempts s))) as [-> | Hne].
  - rewrite lookup_app_r by lia. by rewrite Nat.sub_diag.
  - destruct (decide (a' < length (attempts s))%nat).
    + by rewrite lookup_app_l.
    + rewrite !lookup_ge_None_2; [done | lia |].
      rewrite length_app. simpl. lia.
Qed.

Lemma state_of_same_attempts (s : State) (a : nat) (u : jsstring)
    (cn : option handle) (pr : option nat) (cs : gmap nat caller_state) :
  state_of (mkState u cn pr (attempts s) cs) a = state_of s a.
Proof. done. Qed.

Lemma state_of_fresh (s : State) : state_of s (length (attempts s)) = None.
Proof. unfold state_of. by rewrite lookup_ge_None_2. Qed.

Lemma cache_inv_init (u : jsstring) : cache_inv (mkState u None None [] ∅).
Proof.
  unfold cache_inv, state_of. simpl.
  repeat split; intros; simplify_eq; try done.
Qed.

Ltac cache_cases :=
  repeat match goal with
    | H : context [state_of (mkState _ _ _ (set_attempt _ _ _) _) _] |- _ =>
        rewrite state_of_set_attempt in H
    | |- context [state_of (mkState _ _ _ (set_attempt _ _ _) _) _] =>
        rewrite state_of_set_attempt
    | H : context [state_of (mkState _ _ _ (attempts _ ++ [_]) _) _] |- _ =>
        rewrite state_of_new_attempt in H
    | |- context [state_of (mkState _ _ _ (attempts _ ++ [_]) _) _] =>
        rewrite state_of_new_attempt
    | H : context [state_of (mkState _ _ _ (attempts _) _) _] |- _ =>
        rewrite state_of_same_attempts in H
    | |- context [state_of (mkState _ _ _ (attempts _) _) _] =>
        rewrite state_of_same_attempts
    | H : context [decide (?x = ?y)] |- _ => destruct (decide (x = y))
    | |- context [decide (?x = ?y)] => destruct (decide (x = y))
    end.

Lemma cache_inv_enter (c : nat) (s : State) :
  callers s !! c = None -> cache_inv s -> cache_inv (connectDB_enter c s).
Proof.
  intros Hc (I1 & I2 & I3 & I4 & I5). unfold connectDB_enter.
  destruct (conn s) as [h|] eqn:Econn; [|destruct (promise s) as [a|] eqn:Ep].
  - unfold cache_inv. simpl. repeat split.
    + intros a st. cache_cases. apply I1.
    + intros a. cache_cases. apply I2.
    + intros h' [= <-]. cache_cases. by apply I3.
    + intros c' h'. destruct (decide (c' = c)) as [-> | Hne].
      * rewrite lookup_insert_eq. intros [= <-].
        destruct (I3 h eq_refl) as (a & _ & Ha). exists a. by cache_cases.
      * rewrite lookup_insert_ne by done. intros Hr.
        destruct (I4 c' h' Hr) as (a & Ha). exists a. by cache_cases.
    + intros c' a. destruct (decide (c' = c)) as [-> | Hne].
      * by rewrite lookup_insert_eq.
      * rewrite lookup_insert_ne by done. cache_cases. apply I5.
  - unfold cache_inv. simpl. repeat split.
    + intros a' st. cache_cases. apply I1.
    + intros a'. cache_cases. apply I2.
    + done.
    + intros c' h'. destruct (decide (c' = c)) as [-> | Hne].
      * by rewrite lookup_insert_eq.
      * rewrite lookup_insert_ne by done. intros Hr.
        destruct (I4 c' h' Hr) as (a' & Ha'). exists a'. by cache_cases.
    + intros c' a'. destruct (decide (c' = c)) as [-> | Hne].
      * rewrite lookup_insert_eq. intros [= <-]. cache_cases. by apply I2.
      * rewrite lookup_insert_ne by done. cache_cases. apply I5.
  - unfold cache_inv. simpl. repeat split.
    + intros a' st Hst Hnf. cache_cases; [by subst|].
      by pose proof (I1 a' st Hst Hnf).
    + intros a' [= <-]. cache_cases; [done | congruence].
    + done.
    + intros c' h'. destruct (decide (c' = c)) as [-> | Hne].
      * by rewrite lookup_insert_eq.
      * rewrite lookup_insert_ne by done. intros Hr.
        destruct (I4 c' h' Hr) as (a' & Ha'). exists a'.
        cache_cases; [|done]. subst a'. by rewrite state_of_fresh in Ha'.
    + intros c' a'. destruct (decide (c' = c)) as [-> | Hne].
      * rewrite lookup_insert_eq. intros [= <-]. cache_cases; [done | congruence].
      * rewrite lookup_insert_ne by done. intros Hw. cache_cases; [done|].
        by eapply I5.
Qed.

Lemma cache_inv_settle (a : nat) (r : result handle) (s : State) :
  state_of s a = Some Connecting -> cache_inv s ->
  cache_inv (mkState (MONGODB_URI s) (conn s) (promise s)
               (set_attempt a (Settled r) s) (callers s)).
Proof.
  intros Ha (I1 & I2 & I3 & I4 & I5). unfold cache_inv. simpl.
  assert (Hslot : promise s = Some a) by (by eapply I1).
  repeat split.
  - intros a' st Hst Hnf. cache_cases; [by subst | by eapply I1].
  - intros a' Hp. cache_cases; [by rewrite Ha | by apply I2].
  - intros h Hh. destruct (I3 h Hh) as (a' & Hp & Hst). exists a'.
    split; [done|]. cache_cases; [|done]. subst a'. congruence.
  - intros c h Hc. destruct (I4 c h Hc) as (a' & Hst). exists a'.
    cache_cases; [|done]. subst a'. congruence.
  - intros c a' Hc. cache_cases; [by rewrite Ha | by eapply I5].
Qed.

Lemma cache_inv_reaction (a : nat) (r : result handle) (s : State) :
  state_of s a = Some (Settled r) -> cache_inv s -> cache_inv (reaction a r s).
Proof.
  intros Ha (I1 & I2 & I3 & I4 & I5).
  assert (Hslot : promise s = Some a) by (by eapply I1).
  unfold reaction. destruct r as [h | e]; unfold cache_inv; simpl; repeat split.
  - intros a' st Hst Hnf. cache_cases; [by subst | by eapply I1].
  - intros a' Hp. cache_cases; [by rewrite Ha | by apply I2].
  - intros h' Hh. destruct (I3 h' Hh) as (a' & Hp & Hst). exists a'.
    split; [done|]. cache_cases; [|done]. subst a'. congruence.
  - intros c h' Hc. destruct (I4 c h' Hc) as (a' & Hst). exists a'.
    cache_cases; [|done]. subst a'. congruence.
  - intros c a' Hc. cache_cases; [by rewrite Ha | by eapply I5].
  - intros a' st Hst Hnf. cache_cases.
    + rewrite Ha in Hst. simpl in Hst. injection Hst as <-. by edestruct Hnf.
    + pose proof (I1 a' st Hst Hnf). congruence.
  - done.
  - intros h' Hh. destruct (I3 h' Hh) as (a' & Hp & Hst). congruence.
  - intros c h' Hc. destruct (I4 c h' Hc) as (a' & Hst). exists a'.
    cache_cases; [|done]. subst a'. congruence.
  - intros c a' Hc. cache_cases; [by rewrite Ha | by eapply I5].
Qed.

Lemma cache_inv_resume (c a : nat) (r : result handle) (s : State) :
  callers s !! c = Some (Awaiting a) -> state_of s a = Some (Handled r) ->
  cache_inv s -> cache_inv (connectDB_resume c r s).
Proof.
  intros Hc Ha (I1 & I2 & I3 & I4 & I5).
  unfold connectDB_resume. destruct r as [h | e]; unfold cache_inv; simpl;
    repeat split; try done.
  - intros h' [= <-]. exists a. split; [|done]. by eapply I1.
  - intros c' h'. destruct (decide (c' = c)) as [-> | Hne].
    + rewrite lookup_insert_eq. intros [= <-]. by exists a.
    + rewrite lookup_insert_ne by done. apply I4.
  - intros c' a'. destruct (decide (c' = c)) as [-> | Hne].
    + by rewrite lookup_insert_eq.
    + rewrite lookup_insert_ne by done. apply I5.
  - intros c' h'. destruct (decide (c' = c)) as [-> | Hne].
    + by rewrite lookup_insert_eq.
    + rewrite lookup_insert_ne by done. apply I4.
  - intros c' a'. destruct (decide (c' = c)) as [-> | Hne].
    + by rewrite lookup_insert_eq.
    + rewrite lookup_insert_ne by done. apply I5.
Qed.

Lemma cache_inv_step (ev : event) (s s' : State) :
  step ev s = Some s' -> cache_inv s -> cache_inv s'.
Proof.
  destruct ev as [c | a r | a | c]; simpl.
  - destruct (callers s !! c) eqn:Ec; [done|]. intros [= <-].
    by apply cache_inv_enter.
  - destruct (state_of s a) as [[| |]|] eqn:Ea; try done. intros [= <-].
    by apply cache_inv_settle.
  - destruct (state_of s a) as [[| r |]|] eqn:Ea; try done. intros [= <-].
    by apply cache_inv_reaction.
  - destruct (callers s !! c) as [[a | |]|] eqn:Ec; try done.
    destruct (state_of s a) as [[| | r]|] eqn:Ea; try done. intros [= <-].
    by eapply cache_inv_resume.
Qed.

Lemma cache_inv_run (evs : list event) (s s' : State) :
  run evs s = Some s' -> cache_inv s -> cache_inv s'.
Proof.
  revert s. induction evs as [|ev evs IH]; intros s; simpl.
  - by intros [= <-].
  - destruct (step ev s) as [s1|] eqn:E; [|done].
    intros Hrun Hinv. eapply IH; [done|]. by eapply cache_inv_step.
Qed.

Lemma loadModule_Ok (env : gmap jsstring jsstring) (s : State) :
  loadModule env = Ok s ->
  exists u, env !! str "MONGODB_URI" = Some u /\ u <> []
            /\ s = mkState u None None [] ∅.
Proof.
  unfold loadModule. destruct (env !! str "MONGODB_URI") as [[|x u]|]; try done.
  intros [= <-]. by exists (x :: u).
Qed.

Lemma cache_inv_reachable (env : gmap jsstring jsstring) (s : State) :
  reachable env s -> cache_inv s.
Proof.
  intros (s0 & evs & Hload & Hrun).
  destruct (loadModule_Ok env s0 Hload) as (u & _ & _ & ->).
  eapply cache_inv_run; [done|]. apply cache_inv_init.
Qed.

Lemma pending_in_slot (s : State) (a : nat) :
  cache_inv s -> pending s a -> promise s = Some a /\ conn s = None.
Proof.
  intros (I1 & _ & I3 & _) Hp.
  assert (Hslot : promise s = Some a).
  { destruct Hp as [Hp | [r Hp]]; by eapply I1. }
  split; [done|].
  destruct (conn s) as [h|] eqn:Ec; [|done].
  destruct (I3 h eq_refl) as (a' & Hp' & Hst).
  assert (a' = a) as -> by congruence.
  destruct Hp as [Hp | [r Hp]]; congruence.
Qed.

(** C5.  In every state a process can reach: at most one attempt is
    pending, so at most one connection-establishment operation is in
    flight; a call made while the connection is cached returns it and
    starts nothing; a call made while an attempt is pending waits for
    that attempt and starts nothing; a call waiting for an attempt that
    succeeded returns the attempt's handle; and all handles returned
    are the same. *)
Theorem connectDB_single_flight (env : gmap jsstring jsstring) (s : State) :
  reachable env s ->
  (forall a b, pending s a -> pending s b -> a = b)
  /\ (forall a b, in_flight s a -> in_flight s b -> a = b)
  /\ (forall c h, callers s !! c = None -> conn s = Some h ->
      exists s', step (Call c) s = Some s' /\ attempts s' = attempts s
                 /\ callers s' !! c = Some (Returned h))
  /\ (forall c a, callers s !! c = None -> pending s a ->
      exists s', step (Call c) s = Some s' /\ attempts s' = attempts s
                 /\ callers s' !! c = Some (Awaiting a))
  /\ (forall c a h, callers s !! c = Some (Awaiting a) ->
      state_of s a = Some (Handled (Ok h)) ->
      exists s', step (Resume c) s = Some s' /\ attempts s' = attempts s
                 /\ conn s' = Some h /\ callers s' !! c = Some (Returned h))
  /\ (forall c1 c2 h1 h2, callers s !! c1 = Some (Returned h1) ->
      callers s !! c2 = Some (Returned h2) -> h1 = h2).
Proof.
  intros Hr. pose proof (cache_inv_reachable env s Hr) as Hinv.
  assert (Hone : forall a b, pending s a -> pending s b -> a = b).
  { intros a b Ha Hb.
    destruct (pending_in_slot s a Hinv Ha) as [Ha' _].
    destruct (pending_in_slot s b Hinv Hb) as [Hb' _]. congruence. }
  split; [done|]. split; [|split; [|split; [|split]]].
  - intros a b Ha Hb. apply Hone; by left.
  - intros c h Hc Hconn. simpl. rewrite Hc. eexists. split; [done|].
    unfold connectDB_enter. rewrite Hconn. simpl.
    split; [done | by rewrite lookup_insert_eq].
  - intros c a Hc Hp. destruct (pending_in_slot s a Hinv Hp) as [Hslot Hconn].
    simpl. rewrite Hc. eexists. split; [done|].
    unfold connectDB_enter. rewrite Hconn, Hslot. simpl.
    split; [done | by rewrite lookup_insert_eq].
  - intros c a h Hc Ha. simpl. rewrite Hc, Ha. eexists. split; [done|].
    simpl. split; [done|]. split; [done | by rewrite lookup_insert_eq].
  - intros c1 c2 h1 h2 H1 H2.
    destruct Hinv as (I1 & _ & _ & I4 & _).
    destruct (I4 c1 h1 H1) as (a1 & Ha1). destruct (I4 c2 h2 H2) as (a2 & Ha2).
    assert (promise s = Some a1) by (by eapply I1).
    assert (promise s = Some a2) by (by eapply I1). congruence.
Qed.

(** C6.  In every state a process can reach: the reaction to a failed
    attempt empties [cached.promise] and starts no attempt; a call
    waiting for a failed attempt ends with that attempt's error and
    starts no attempt; and a call made while [cached.promise] is empty,
    as it is after a failure, starts a new attempt and waits for it. *)
Theorem connectDB_failure_not_cached (env : gmap jsstring jsstring) (s : State) :
  reachable env s ->
  (forall a e, state_of s a = Some (Settled (Throw e)) ->
   exists s', step (React a) s = Some s'
              /\ promise s' = None /\ conn s' = None
              /\ state_of s' a = Some (Handled (Throw e))
              /\ length (attempts s') = length (attempts s)
              /\ callers s' = callers s)
  /\ (forall c a e, callers s !! c = Some (Awaiting a) ->
      state_of s a = Some (Handled (Throw e)) ->
      exists s', step (Resume c) s = Some s'
                 /\ callers s' !! c = Some (Threw e)
                 /\ attempts s' = attempts s /\ promise s' = promise s
                 /\ conn s' = conn s)
  /\ (forall c, callers s !! c = None -> promise s = None ->
      exists s', step (Call c) s = Some s'
                 /\ attempts s'
                    = attempts s ++ [mkAttempt (MONGODB_URI s) false Connecting]
                 /\ in_flight s' (length (attempts s))
                 /\ promise s' = Some (length (attempts s))
                 /\ callers s' !! c = Some (Awaiting (length (attempts s)))).
Proof.
  intros Hr. pose proof (cache_inv_reachable env s Hr) as Hinv.
  split; [|split].
  - intros a e Ha.
    destruct (pending_in_slot s a Hinv) as [_ Hconn]; [right; eauto|].
    simpl. rewrite Ha. eexists. split; [done|]. simpl.
    split; [done|]. split; [done|]. split.
    + rewrite state_of_set_attempt. rewrite decide_True by done. by rewrite Ha.
    + split; [|done]. unfold set_attempt.
      destruct (attempts s !! a); [apply length_insert | done].
  - intros c a e Hc Ha. simpl. rewrite Hc, Ha. eexists. split; [done|].
    simpl. by rewrite lookup_insert_eq.
  - intros c Hc Hslot.
    assert (Hconn : conn s = None).
    { destruct Hinv as (_ & _ & I3 & _). destruct (conn s) as [h|]; [|done].
      destruct (I3 h eq_refl) as (a & Hp & _). congruence. }
    simpl. rewrite Hc. eexists. split; [done|].
    unfold connectDB_enter. rewrite Hconn, Hslot. simpl.
    split; [done|]. split; [|split; [done | by rewrite lookup_insert_eq]].
    unfold in_flight. rewrite state_of_new_attempt.
    by rewrite decide_True.
Qed.

(** C9.  Without [MONGODB_URI] in the environment the evaluation of the
    module throws, and the process has no state in which [connectDB]
    could be called: nothing is reachable, however many calls are
    tried. *)
Theorem loadModule_requires_uri (env : gmap jsstring jsstring) :
  env !! str "MONGODB_URI" = None ->
  loadModule env
  = Throw (str "Please define the MONGODB_URI environment variable inside .env")
  /\ (forall s, ~ reachable env s)
  /\ (forall evs s0 s, loadModule env = Ok s0 -> run evs s0 <> Some s).
Proof.
  intros Habs.
  assert (Hload : loadModule env = Throw err_no_uri)
    by (unfold loadModule; by rewrite Habs).
  split; [done|]. split.
  - intros s (s0 & evs & Hok & _). congruence.
  - intros evs s0 s Hok. congruence.
Qed.

(** A state reached by a process was loaded with a connection string,
    and every attempt used it, with command buffering disabled. *)
Lemma attempts_use_configured_uri (env : gmap jsstring jsstring) (s : State) :
  reachable env s ->
  exists u, env !! str "MONGODB_URI" = Some u /\ u <> [] /\ MONGODB_URI s = u
            /\ Forall (fun at_ => a_uri at_ = u /\ a_bufferCommands at_ = false)
                 (attempts s).
Proof.
  intros (s0 & evs & Hload & Hrun).
  destruct (loadModule_Ok env s0 Hload) as (u & Henv & Hu & ->).
  exists u. split; [done|]. split; [done|].
  set (J := fun s : State =>
              MONGODB_URI s = u
              /\ Forall (fun at_ => a_uri at_ = u /\ a_bufferCommands at_ = false)
                   (attempts s)).
  enough (HJ : J s) by exact HJ.
  assert (Hset : forall s a st, J s ->
            Forall (fun at_ => a_uri at_ = u /\ a_bufferCommands at_ = false)
              (set_attempt a st s)).
  { intros s1 a st [_ HF]. unfold set_attempt.
    destruct (attempts s1 !! a) as [at_|] eqn:E; [|done].
    apply Forall_insert; [done|].
    by apply (Forall_lookup_1 _ _ _ _ HF E). }
  assert (Hstep : forall ev s1 s2, step ev s1 = Some s2 -> J s1 -> J s2).
  { intros ev s1 s2 Hs HJ. pose proof HJ as [Hu1 HF1].
    destruct ev as [c | a r | a | c]; simpl in Hs.
    - destruct (callers s1 !! c); [done|]. injection Hs as <-.
      unfold connectDB_enter.
      destruct (conn s1); [done|]. destruct (promise s1); [done|].
      split; [done|]. simpl. apply Forall_app. split; [done|].
      by repeat constructor.
    - destruct (state_of s1 a) as [[| |]|]; try done. injection Hs as <-.
      split; [done|]. simpl. by apply Hset.
    - destruct (state_of s1 a) as [[|r|]|]; try done. injection Hs as <-.
      destruct r; (split; [done|]); simpl; by apply Hset.
    - destruct (callers s1 !! c) as [[a| |]|]; try done.
      destruct (state_of s1 a) as [[| |r]|]; try done. injection Hs as <-.
      by destruct r. }
  clear Hload. revert Hrun.
  assert (J (mkState u None None [] ∅)) as H0 by (split; [done | constructor]).
  revert H0. generalize (mkState u None None [] ∅). clear Hset.
  induction evs as [|ev evs IH]; intros s1 H1; simpl.
  - by intros [= <-].
  - destruct (step ev s1) as [s2|] eqn:E; [|done]. intros Hrun.
    eapply IH; [|done]. by eapply Hstep.
Qed.

(** Any number of calls made before the driver answers make exactly
    one attempt, and all of them wait for it. *)
Lemma concurrent_initial_calls (env : gmap jsstring jsstring)
    (s0 s : State) (c0 : nat) (cs : list nat) :
  loadModule env = Ok s0 -> run (Call <$> (c0 :: cs)) s0 = Some s ->
  length (attempts s) = 1%nat /\ in_flight s 0
  /\ forall c, c ∈ c0 :: cs -> callers s !! c = Some (Awaiting 0).
Proof.
  intros Hload Hrun.
  destruct (loadModule_Ok env s0 Hload) as (u & _ & _ & ->).
  cbn [fmap list_fmap run step] in Hrun.
  change (mkState u None None [] ∅).(callers) with (∅ : gmap nat caller_state)
    in Hrun.
  rewrite lookup_empty in Hrun.
  set (s1 := connectDB_enter c0 (mkState u None None [] ∅)) in Hrun.
  assert (H1 : conn s1 = None /\ promise s1 = Some 0%nat
               /\ attempts s1 = [mkAttempt u false Connecting]
               /\ forall c, c ∈ [c0] -> callers s1 !! c = Some (Awaiting 0)).
  { repeat split; try done. intros c ->%list_elem_of_singleton.
    subst s1. unfold connectDB_enter. simpl. apply lookup_insert_eq. }
  clearbody s1. revert s1 H1 Hrun.
  change (c0 :: cs) with ([c0] ++ cs). generalize [c0].
  induction cs as [|c cs IH]; intros seen s1 (Hc & Hp & Ha & Hw) Hrun.
  - injection Hrun as <-. rewrite app_nil_r.
    split; [by rewrite Ha|]. split; [|done]. unfold in_flight, state_of.
    by rewrite Ha.
  - cbn [fmap list_fmap run step] in Hrun.
    destruct (callers s1 !! c) eqn:Ec; [done|].
    replace (seen ++ c :: cs) with ((seen ++ [c]) ++ cs)
      by (by rewrite <- app_assoc).
    apply (IH (seen ++ [c]) (connectDB_enter c s1)); [|exact Hrun].
    unfold connectDB_enter. rewrite Hc, Hp. simpl.
    repeat split; try done.
    intros c' [Hin | ->%list_elem_of_singleton]%elem_of_app.
    + rewrite lookup_insert_ne; [by apply Hw|].
      intros ->. rewrite (Hw c' Hin) in Ec. done.
    + apply lookup_insert_eq.
Qed.

Lemma sample_env_boots : loadModule sample_env = Ok booted.
Proof. reflexivity. Qed.

Lemma connectDB_single_flight_witness :
  exists s,
    run success_trace booted = Some s
    /\ length (attempts s) = 1%nat
    /\ callers s !! 0%nat = Some (Returned 7%nat)
    /\ callers s !! 1%nat = Some (Returned 7%nat)
    /\ callers s !! 2%nat = Some (Returned 7%nat)
    /\ (forall a b, in_flight s a -> in_flight s b -> a = b)
    /\ (forall c1 c2 h1 h2, callers s !! c1 = Some (Returned h1) ->
        callers s !! c2 = Some (Returned h2) -> h1 = h2).
Proof.
  eexists. split; [vm_compute; reflexivity|].
  repeat (split; [reflexivity|]).
  match goal with
  | |- (forall a b, in_flight ?s a -> _) /\ _ =>
      destruct (connectDB_single_flight sample_env s) as (_ & H2 & _ & _ & _ & H6)
  end.
  - exists booted, success_trace. split; [exact sample_env_boots|].
    vm_compute; reflexivity.
  - split; [exact H2 | exact H6].
Defined.

Lemma connectDB_failure_not_cached_witness :
  exists s,
    run failure_trace booted = Some s
    /\ callers s !! 0%nat = Some (Threw (str "ECONNREFUSED"))
    /\ (exists s', step (Resume 1%nat) s = Some s'
                   /\ callers s' !! 1%nat = Some (Threw (str "ECONNREFUSED"))
                   /\ attempts s' = attempts s /\ promise s' = promise s
                   /\ conn s' = conn s)
    /\ (exists s', step (Call 2%nat) s = Some s'
                   /\ attempts s'
                      = attempts s ++ [mkAttempt (MONGODB_URI s) false Connecting]
                   /\ in_flight s' (length (attempts s))
                   /\ promise s' = Some (length (attempts s))
                   /\ callers s' !! 2%nat
                      = Some (Awaiting (length (attempts s)))).
Proof.
  eexists. split; [vm_compute; reflexivity|].
  split; [reflexivity|].
  match goal with
  | |- (exists s', step _ ?s = _ /\ _) /\ _ =>
      destruct (connectDB_failure_not_cached sample_env s) as (_ & H2 & H3)
  end.
  - exists booted, failure_trace. split; [exact sample_env_boots|].
    vm_compute; reflexivity.
  - split.
    + apply (H2 1%nat 0%nat (str "ECONNREFUSED")); reflexivity.
    + apply (H3 2%nat); reflexivity.
Defined.

Lemma loadModule_requires_uri_witness :
  loadModule ∅
  = Throw (str "Please define the MONGODB_URI environment variable inside .env")
  /\ (forall s, ~ reachable ∅ s)
  /\ (forall evs s0 s, loadModule ∅ = Ok s0 -> run evs s0 <> Some s).
Proof. exact (loadModule_requires_uri ∅ eq_refl). Defined.

(** ** Date normalisation *)

(** C8.  The string +010000-01-01, an expanded-year date of the
    ECMAScript format, is parsed by every engine as the first day of
    the year 10000, and [normalizeDate] accepts it and returns it as it
    is: the result is not of the shape [YYYY-MM-DD]. *)
Theorem normalizeDate_expanded_year (hostParse : jsstring -> option Z) :
  normalizeDate hostParse (str "+010000-01-01") = Ok (str "+010000-01-01")
  /\ isYMD (str "+010000-01-01") = false.
Proof. split; reflexivity. Qed.

Example normalizeDate_year_before_0 (hostParse : jsstring -> option Z) :
  normalizeDate hostParse (str "-000001-12-31") = Ok (str "-000001-12-31").
Proof. reflexivity. Qed.

Example normalizeDate_leap_day (hostParse : jsstring -> option Z) :
  normalizeDate hostParse (str "2024-02-29") = Ok (str "2024-02-29").
Proof. reflexivity. Qed.

Example normalizeDate_expanded_in_range (hostParse : jsstring -> option Z) :
  normalizeDate hostParse (str "+002024-02-29") = Ok (str "2024-02-29").
Proof. reflexivity. Qed.

(** A string that no engine can parse is refused. *)
Example normalizeDate_unparsable :
  normalizeDate (fun _ => None) (str "not a date") = Throw err_date.
Proof. reflexivity. Qed.

(** Some time values and their ISO strings. *)
Example toISOString_epoch : toISOString 0 = str "1970-01-01T00:00:00.000Z".
Proof. reflexivity. Qed.

Example toISOString_latest :
  toISOString maxTime = str "+275760-09-13T00:00:00.000Z".
Proof. reflexivity. Qed.

Example toISOString_year_before_0 :
  toISOString (-62198755200000) = str "-000001-01-01T00:00:00.000Z".
Proof. reflexivity. Qed.

Example toISOString_last_ms_of_9999 :
  toISOString 253402300799999 = str "9999-12-31T23:59:59.999Z".
Proof. reflexivity. Qed.

(** *** What does hold of [normalizeDate] *)

Lemma civilFromDays_bounds (z : Z) :
  let '(_, m, d) := civilFromDays z in 1 <= m <= 12 /\ 1 <= d <= 31.
Proof.
  unfold civilFromDays.
  set (doe := z + 719468 - (z + 719468) / 146097 * 146097).
  assert (Hdoe : 0 <= doe < 146097)
    by (subst doe; Z.div_mod_to_equations; lia).
  set (yoe := (doe - doe / 1460 + doe / 36524 - doe / 146096) / 365).
  set (doy := doe - (365 * yoe + yoe / 4 - yoe / 100)).
  assert (Hdoy : 0 <= doy <= 365)
    by (subst doy yoe; Z.div_mod_to_equations; lia).
  set (mp := (5 * doy + 2) / 153).
  assert (Hmp : 0 <= mp <= 11) by (subst mp; Z.div_mod_to_equations; lia).
  assert (Hd : 1 <= doy - (153 * mp + 2) / 5 + 1 <= 31)
    by (subst mp; Z.div_mod_to_equations; lia).
  split; [|done]. destruct (Z.ltb_spec mp 10); lia.
Qed.

Lemma digits_loop_small (f : nat) (n : Z) (acc : jsstring) :
  0 <= n < 10 -> digits_loop f n acc = (48 + n) :: acc.
Proof.
  intros H. assert (Hm : n mod 10 = n) by (apply Z.mod_small; lia).
  destruct f; simpl; rewrite Hm; [done|].
  destruct (Z.ltb_spec n 10); [done | lia].
Qed.

Lemma digits_loop_step (f : nat) (n : Z) (acc : jsstring) :
  10 <= n ->
  digits_loop (S f) n acc = digits_loop f (n / 10) ((48 + n mod 10) :: acc).
Proof. intros H. simpl. destruct (Z.ltb_spec n 10); [lia | done]. Qed.

Lemma digits_loop_digits (f : nat) (n : Z) (acc : jsstring) :
  Forall (fun c => is_digit c = true) acc ->
  Forall (fun c => is_digit c = true) (digits_loop f n acc).
Proof.
  revert n acc. induction f as [|f IH]; intros n acc Hacc; simpl.
  - constructor; [|done]. apply digit_code. apply Z.mod_pos_bound. lia.
  - assert (Forall (fun c => is_digit c = true) ((48 + n mod 10) :: acc))
      by (constructor; [apply digit_code, Z.mod_pos_bound; lia | done]).
    destruct (n <? 10); [done | by apply IH].
Qed.

Lemma padStart_digits (len : nat) (s : jsstring) :
  Forall (fun c => is_digit c = true) s ->
  Forall (fun c => is_digit c = true) (padStart len 48 s).
Proof.
  intros H. unfold padStart. apply Forall_app. split; [|done].
  by apply Forall_replicate.
Qed.

Lemma toString_lt1000 (n : Z) :
  100 <= n < 1000 ->
  toString n = [48 + n / 100; 48 + n / 10 mod 10; 48 + n mod 10].
Proof.
  intros H. unfold toString.
  assert (Hlog : 6 <= Z.log2 n)
    by (change 6 with (Z.log2 100); apply Z.log2_le_mono; lia).
  destruct (Z.to_nat (Z.log2 n)) as [|[|f]] eqn:E; try lia.
  rewrite !digits_loop_step by (Z.div_mod_to_equations; lia).
  rewrite digits_loop_small by (Z.div_mod_to_equations; lia).
  rewrite Z.div_div by lia. done.
Qed.

Lemma toString_lt10000 (n : Z) :
  1000 <= n < 10000 ->
  toString n
  = [48 + n / 1000; 48 + n / 100 mod 10; 48 + n / 10 mod 10; 48 + n mod 10].
Proof.
  intros H. unfold toString.
  assert (Hlog : 9 <= Z.log2 n)
    by (change 9 with (Z.log2 1000); apply Z.log2_le_mono; lia).
  destruct (Z.to_nat (Z.log2 n)) as [|[|[|f]]] eqn:E; try lia.
  rewrite !digits_loop_step by (Z.div_mod_to_equations; lia).
  rewrite digits_loop_small by (Z.div_mod_to_equations; lia).
  rewrite !Z.div_div by lia. done.
Qed.

(** Four decimal digits, zero-padded. *)
Lemma pad4_digits (n : Z) :
  0 <= n < 10000 ->
  padStart 4 48 (toString n)
  = [48 + n / 1000; 48 + n / 100 mod 10; 48 + n / 10 mod 10; 48 + n mod 10].
Proof.
  intros H.
  destruct (Z.lt_ge_cases n 10); [|destruct (Z.lt_ge_cases n 100);
    [|destruct (Z.lt_ge_cases n 1000)]].
  - rewrite toString_lt10 by lia. unfold padStart. simpl.
    repeat f_equal; Z.div_mod_to_equations; lia.
  - rewrite toString_lt100 by lia. unfold padStart. simpl.
    repeat f_equal; Z.div_mod_to_equations; lia.
  - rewrite toString_lt1000 by lia. unfold padStart. simpl.
    repeat f_equal; Z.div_mod_to_equations; lia.
  - rewrite toString_lt10000 by lia. done.
Qed.

Lemma toString_digits (n : Z) : Forall (fun c => is_digit c = true) (toString n).
Proof. unfold toString. by apply digits_loop_digits. Qed.

Lemma isoYear_units (y : Z) :
  Forall (fun c => is_digit c = true \/ c = 45 \/ c = 43) (isoYear y).
Proof.
  unfold isoYear.
  assert (Hd : forall len n,
            Forall (fun c => is_digit c = true \/ c = 45 \/ c = 43)
              (padStart len 48 (toString n))).
  { intros len n. eapply Forall_impl; [apply padStart_digits, toString_digits|].
    simpl. tauto. }
  destruct ((0 <=? y) && (y <=? 9999)); [apply Hd|].
  constructor; [|apply Hd]. destruct (y <? 0); tauto.
Qed.

Lemma split_first_keep (sep : Z) (l r : jsstring) :
  Forall (fun c => c <> sep) l ->
  split_first sep (l ++ r) = l ++ split_first sep r.
Proof.
  induction 1 as [|c l Hc Hl IH]; simpl; [done|].
  destruct (Z.eqb_spec c sep); [done | by rewrite IH].
Qed.

Lemma split_toISOString (tv : Z) :
  split_first 84 (toISOString tv) = isoDatePart tv.
Proof.
  unfold toISOString, isoDatePart.
  destruct (civilFromDays (tv / msPerDay)) as [[y m] d].
  assert (Hpad : forall len n,
            Forall (fun c => c <> 84) (padStart len 48 (toString n))).
  { intros len n. eapply Forall_impl; [apply padStart_digits, toString_digits|].
    simpl. intros c Hc ->. done. }
  assert (Hyear : Forall (fun c => c <> 84) (isoYear y)).
  { eapply Forall_impl; [apply isoYear_units|]. simpl.
    intros c [Hc | [-> | ->]] E; [by subst | done | done]. }
  assert (Hdash : Forall (fun c => c <> 84) (str "-")) by (by repeat constructor).
  rewrite (split_first_keep 84 (isoYear y)) by done.
  rewrite (split_first_keep 84 (str "-")) by done.
  rewrite (split_first_keep 84 (padStart 2 48 (toString m))) by done.
  rewrite (split_first_keep 84 (str "-")) by done.
  rewrite (split_first_keep 84 (padStart 2 48 (toString d))) by done.
  simpl. by rewrite app_nil_r.
Qed.

(** [normalizeDate] refuses a string exactly when it does not parse to
    a time value; otherwise it returns the UTC calendar date of the
    time value, which is of the shape [YYYY-MM-DD] whenever the year is
    between 0 and 9999. *)
Lemma normalizeDate_result (hostParse : jsstring -> option Z) (s : jsstring) :
  match Date_getTime hostParse s with
  | None => normalizeDate hostParse s = Throw err_date
  | Some tv =>
      normalizeDate hostParse s = Ok (isoDatePart tv)
      /\ (0 <= fst (fst (civilFromDays (tv / msPerDay))) <= 9999 ->
          isYMD (isoDatePart tv) = true)
  end.
Proof.
  unfold normalizeDate. destruct (Date_getTime hostParse s) as [tv|]; [|done].
  split; [by rewrite split_toISOString|].
  unfold isoDatePart. pose proof (civilFromDays_bounds (tv / msPerDay)) as Hb.
  destruct (civilFromDays (tv / msPerDay)) as [[y m] d]. simpl.
  intros Hy. destruct Hb as [Hm Hd]. unfold isoYear.
  replace ((0 <=? y) && (y <=? 9999)) with true by (symmetry; apply andb_true_iff; lia).
  rewrite pad4_digits, !pad2_digits by lia.
  cbn [app str isYMD forallb].
  rewrite !digit_code by (Z.div_mod_to_equations; lia). done.
Qed.

(** *** Canonical dates are left as they are *)

Lemma isLeapYear_true (y : Z) :
  isLeapYear y = true <-> y mod 4 = 0 /\ (y mod 100 <> 0 \/ y mod 400 = 0).
Proof.
  unfold isLeapYear.
  rewrite orb_true_iff, andb_true_iff, negb_true_iff, !Z.eqb_eq, Z.eqb_neq.
  split; [|tauto]. intros [[? ?] | ?]; [tauto|].
  split; [|tauto]. Z.div_mod_to_equations. lia.
Qed.

(** The year of an era is found again from the day of the era. *)
Lemma year_of_era_found (yoe doy : Z) :
  0 <= yoe < 400 -> 0 <= doy <= 365 ->
  (doy = 365 -> (yoe + 1) mod 4 = 0 /\ ((yoe + 1) mod 100 <> 0 \/ yoe = 399)) ->
  let doe := yoe * 365 + yoe / 4 - yoe / 100 + doy in
  0 <= doe < 146097
  /\ (doe - doe / 1460 + doe / 36524 - doe / 146096) / 365 = yoe.
Proof. intros Hy Hd Hl doe. subst doe. Z.div_mod_to_equations. lia. Qed.

Lemma civilFromDays_daysFromCivil (y m d : Z) :
  1 <= m <= 12 -> 1 <= d <= daysInMonth y m ->
  civilFromDays (daysFromCivil y m d) = (y, m, d).
Proof.
  intros Hm Hd. unfold daysFromCivil.
  set (y' := if m <=? 2 then y - 1 else y).
  set (era := y' / 400). set (yoe := y' - era * 400).
  set (mp := if 2 <? m then m - 3 else m + 9).
  set (doy := (153 * mp + 2) / 5 + d - 1).
  assert (Hyoe : 0 <= yoe < 400) by (subst yoe era; Z.div_mod_to_equations; lia).
  assert (Hmp : 0 <= mp <= 11 /\ m = (if mp <? 10 then mp + 3 else mp - 9)).
  { subst mp. destruct (Z.ltb_spec 2 m); split; try lia.
    - destruct (Z.ltb_spec (m - 3) 10); lia.
    - destruct (Z.ltb_spec (m + 9) 10); lia. }
  assert (Hy : y = yoe + era * 400 + (if m <=? 2 then 1 else 0)).
  { subst yoe y'. destruct (m <=? 2); lia. }
  assert (Hdoy : 0 <= doy <= 365 /\ (5 * doy + 2) / 153 = mp
                 /\ (doy = 365 -> m = 2 /\ d = 29)).
  { unfold daysInMonth in Hd. subst doy mp.
    assert (m = 1 \/ m = 2 \/ m = 3 \/ m = 4 \/ m = 5 \/ m = 6 \/ m = 7
            \/ m = 8 \/ m = 9 \/ m = 10 \/ m = 11 \/ m = 12) as Hc by lia.
    repeat (destruct Hc as [-> | Hc]); try subst m; simpl in Hd |- *;
      try (destruct (isLeapYear y)); Z.div_mod_to_equations; lia. }
  destruct Hdoy as (Hdoy & Hmp' & Hfeb).
  assert (Hleap : doy = 365 ->
            (yoe + 1) mod 4 = 0 /\ ((yoe + 1) mod 100 <> 0 \/ yoe = 399)).
  { intros E. destruct (Hfeb E) as [-> ->].
    unfold daysInMonth in Hd. simpl in Hd, Hy.
    destruct (isLeapYear y) eqn:El; [|lia].
    apply isLeapYear_true in El. rewrite Hy in El.
    Z.div_mod_to_equations. lia. }
  destruct (year_of_era_found yoe doy Hyoe Hdoy Hleap) as [Hdoe Hfound].
  set (doe := yoe * 365 + yoe / 4 - yoe / 100 + doy) in *.
  unfold civilFromDays.
  replace (era * 146097 + doe - 719468 + 719468) with (doe + era * 146097) by lia.
  assert (Hq : (doe + era * 146097) / 146097 = era)
    by (rewrite Z.div_add, Z.div_small; lia).
  rewrite Hq.
  replace (doe + era * 146097 - era * 146097) with doe by lia.
  rewrite Hfound.
  replace (doe - (365 * yoe + yoe / 4 - yoe / 100)) with doy by (subst doe; lia).
  rewrite Hmp'. destruct Hmp as [Hmp Hm'].
  rewrite <- Hm'. f_equal; [f_equal; lia|]. subst doy. lia.
Qed.

Lemma parseIsoDate_plain (y1 y2 y3 y4 m1 m2 d1 d2 : Z) :
  forallb is_digit [y1; y2; y3; y4; m1; m2; d1; d2] = true ->
  parseIsoDate [y1; y2; y3; y4; 45; m1; m2; 45; d1; d2]
  = let y := parseInt10 [y1; y2; y3; y4] in
    let m := parseInt10 [m1; m2] in
    let d := parseInt10 [d1; d2] in
    if (1 <=? m) && (m <=? 12) && (1 <=? d) && (d <=? daysInMonth y m)
    then Some (daysFromCivil y m d * msPerDay) else None.
Proof.
  intros H. cbn [forallb] in H. rewrite !andb_true_iff in H.
  destruct H as (H1 & H2 & H3 & H4 & H5 & H6 & H7 & H8 & _).
  unfold parseIsoDate.
  assert (Hs : (y1 =? 43) || (y1 =? 45) = false).
  { unfold is_digit in H1. apply andb_true_iff in H1.
    apply orb_false_iff. lia. }
  rewrite Hs. cbn [forallb]. rewrite H1, H2, H3, H4. cbn [andb].
  unfold parseMonthDay. cbn [forallb]. rewrite H5, H6, H7, H8.
  rewrite !Z.eqb_refl. cbn [andb]. done.
Qed.

Lemma canonicalDate_units (y m d : Z) :
  0 <= y <= 9999 -> 0 <= m < 100 -> 0 <= d < 100 ->
  canonicalDate y m d
  = [48 + y / 1000; 48 + y / 100 mod 10; 48 + y / 10 mod 10; 48 + y mod 10;
     45; 48 + m / 10; 48 + m mod 10; 45; 48 + d / 10; 48 + d mod 10].
Proof.
  intros Hy Hm Hd. unfold canonicalDate.
  by rewrite pad4_digits, !pad2_digits by lia.
Qed.

(** A valid date with a year from 0 to 9999 that is already written
    [YYYY-MM-DD] is accepted and returned as it is, whatever the
    engine. *)
Lemma normalizeDate_canonical (hostParse : jsstring -> option Z) (y m d : Z) :
  0 <= y <= 9999 -> 1 <= m <= 12 -> 1 <= d <= daysInMonth y m ->
  normalizeDate hostParse (canonicalDate y m d) = Ok (canonicalDate y m d).
Proof.
  intros Hy Hm Hd.
  assert (Hd31 : d <= 31).
  { unfold daysInMonth in Hd.
    repeat match type of Hd with
           | context [if ?b then _ else _] => destruct b
           end; lia. }
  assert (Hparse : parseIsoDate (canonicalDate y m d)
                   = Some (daysFromCivil y m d * msPerDay)).
  { rewrite canonicalDate_units by lia. rewrite parseIsoDate_plain.
    - cbv zeta.
      replace (parseInt10 [48 + y / 1000; 48 + y / 100 mod 10;
                           48 + y / 10 mod 10; 48 + y mod 10]) with y
        by (unfold parseInt10; simpl; Z.div_mod_to_equations; lia).
      replace (parseInt10 [48 + m / 10; 48 + m mod 10]) with m
        by (unfold parseInt10; simpl; Z.div_mod_to_equations; lia).
      replace (parseInt10 [48 + d / 10; 48 + d mod 10]) with d
        by (unfold parseInt10; simpl; Z.div_mod_to_equations; lia).
      replace ((1 <=? m) && (m <=? 12) && (1 <=? d) && (d <=? daysInMonth y m))
        with true; [done|].
      symmetry. rewrite !andb_true_iff. lia.
    - cbn [forallb]. rewrite !digit_code by (Z.div_mod_to_equations; lia). done. }
  assert (Hrange : Z.abs (daysFromCivil y m d * msPerDay) <= maxTime).
  { unfold daysFromCivil, msPerDay, maxTime.
    destruct (m <=? 2); destruct (2 <? m); Z.div_mod_to_equations; lia. }
  pose proof (normalizeDate_result hostParse (canonicalDate y m d)) as Hres.
  unfold Date_getTime, Date_parse in Hres. rewrite Hparse in Hres.
  destruct (Z.leb_spec (Z.abs (daysFromCivil y m d * msPerDay)) maxTime); [|lia].
  destruct Hres as [-> _]. f_equal. unfold isoDatePart.
  rewrite Z.div_mul by done.
  rewrite civilFromDays_daysFromCivil by done.
  unfold isoYear, canonicalDate.
  replace ((0 <=? y) && (y <=? 9999)) with true; [done|].
  symmetry. rewrite andb_true_iff. lia.
Qed.

Example normalizeDate_canonical_example (hostParse : jsstring -> option Z) :
  normalizeDate hostParse (str "1999-12-31") = Ok (str "1999-12-31").
Proof.
  apply (normalizeDate_canonical hostParse 1999 12 31); vm_compute; by split.
Qed.

(** * Further properties *)

(** ** Time normalisation: the 24-hour branch and the errors *)

Lemma trim_core (lead trail core : jsstring) :
  forallb is_space lead = true -> forallb is_space trail = true ->
  (exists x mid d, core = x :: mid ++ [d]
                   /\ is_space x = false /\ is_space d = false) ->
  trim (lead ++ core ++ trail) = core.
Proof.
  intros Hl Ht (x & mid & d & -> & Hx & Hd). by apply trim_around.
Qed.

Lemma digits_head (hs : jsstring) :
  (length hs = 1 \/ length hs = 2)%nat -> forallb is_digit hs = true ->
  exists x r, hs = x :: r /\ is_space x = false.
Proof.
  intros Hlen Hd. destruct hs as [|x r]; [simpl in Hlen; lia|].
  exists x, r. split; [done|]. apply digit_not_space.
  by apply andb_true_iff in Hd as [-> _].
Qed.

Lemma shape24_ok (hs : jsstring) (d1 d2 : Z) :
  (length hs = 1 \/ length hs = 2)%nat -> forallb is_digit hs = true ->
  is_digit d1 = true -> is_digit d2 = true ->
  shape12 (hs ++ [58; d1; d2]) = None
  /\ shape24 (hs ++ [58; d1; d2]) = Some (hs, [d1; d2]).
Proof.
  intros Hlen Hhs Hd1 Hd2.
  unfold shape12, shape24, match12_with, match24_with, match_hm, match_period.
  destruct hs as [|x [|y [|? ?]]]; simpl in Hlen; try lia; simpl in *.
  - apply andb_true_iff in Hhs as [Hx _]. rewrite Hx. simpl.
    rewrite Hd1, Hd2. simpl. split; reflexivity.
  - rewrite Hhs. apply andb_true_iff in Hhs as [Hx [Hy _]%andb_true_iff].
    rewrite Hx. simpl. rewrite Hd1, Hd2. simpl.
    replace (y =? 58) with false
      by (unfold is_digit in Hy; apply andb_true_iff in Hy; lia).
    simpl. split; reflexivity.
Qed.

Lemma trim_24 (lead trail hs : jsstring) (d1 d2 : Z) :
  (length hs = 1 \/ length hs = 2)%nat -> forallb is_digit hs = true ->
  is_digit d2 = true ->
  forallb is_space lead = true -> forallb is_space trail = true ->
  trim (lead ++ hs ++ str ":" ++ [d1; d2] ++ trail) = hs ++ [58; d1; d2].
Proof.
  intros Hlen Hhs Hd2 Hl Ht.
  destruct (digits_head hs Hlen Hhs) as (x & r & -> & Hx).
  replace (lead ++ (x :: r) ++ str ":" ++ [d1; d2] ++ trail)
    with (lead ++ ((x :: r) ++ [58; d1; d2]) ++ trail)
    by (rewrite <- !app_assoc; done).
  apply trim_core; try done.
  exists x, (r ++ [58; d1]), d2. split.
  - simpl. rewrite <- !app_assoc. done.
  - split; [done | by apply digit_not_space].
Qed.

Lemma normalizeTime_24_hour_ok (h m : Z) (hs lead trail : jsstring) :
  0 <= h <= 23 -> 0 <= m <= 59 ->
  hs = toString h \/ hs = padStart 2 48 (toString h) ->
  forallb is_space lead = true -> forallb is_space trail = true ->
  normalizeTime (lead ++ hs ++ str ":" ++ padStart 2 48 (toString m) ++ trail)
  = Ok (padStart 2 48 (toString h) ++ str ":" ++ padStart 2 48 (toString m)).
Proof.
  intros Hh Hm Hhs Hlead Htrail. rewrite normalizeTime_closed_form.
  destruct (hour_spelling h hs ltac:(lia) Hhs)
    as (x & r & Ex & Hx & Hdig & Hlen & Hparse).
  rewrite (pad2_digits m) by lia.
  assert (0 <= m / 10 < 10)
    by (split; [apply Z.div_pos; lia | apply Z.div_lt_upper_bound; lia]).
  pose proof (Z.mod_pos_bound m 10 ltac:(lia)) as Hmod.
  set (d1 := 48 + m / 10). set (d2 := 48 + m mod 10).
  assert (Hd1 : is_digit d1 = true) by (apply digit_code; lia).
  assert (Hd2 : is_digit d2 = true) by (apply digit_code; lia).
  unfold normalizeTime_direct. rewrite trim_24 by done.
  destruct (shape24_ok hs d1 d2 Hlen Hdig Hd1 Hd2) as [-> ->].
  rewrite Hparse.
  assert (Hpm : parseInt10 [d1; d2] = m).
  { unfold parseInt10, d1, d2. simpl. pose proof (Z.div_mod m 10 ltac:(lia)). lia. }
  rewrite Hpm.
  replace ((h <? 0) || (h >? 23) || (m <? 0) || (m >? 59)) with false.
  - by rewrite (pad2_digits m) by lia.
  - symmetry. rewrite !orb_false_iff. lia.
Qed.

(** X1.  A 24-hour time [H:MM] or [HH:MM] with hour 0 to 23 and minutes 00
    to 59, with any white space around it, is normalised to the
    zero-padded [HH:MM]; a time already in that form is returned as it
    is. *)
Theorem normalizeTime_24_hour (h m : Z) (hs lead trail : jsstring) :
  0 <= h <= 23 -> 0 <= m <= 59 ->
  hs = toString h \/ hs = padStart 2 48 (toString h) ->
  forallb is_space lead = true -> forallb is_space trail = true ->
  normalizeTime (lead ++ hs ++ str ":" ++ padStart 2 48 (toString m) ++ trail)
  = Ok (padStart 2 48 (toString h) ++ str ":" ++ padStart 2 48 (toString m)).
Proof. apply normalizeTime_24_hour_ok. Qed.

Lemma normalizeTime_24_hour_witness :
  normalizeTime (str " 7:05 ") = Ok (str "07:05")
  /\ normalizeTime (str "23:59") = Ok (str "23:59")
  /\ normalizeTime (str "00:00") = Ok (str "00:00").
Proof.
  split; [|split].
  - apply (normalizeTime_24_hour 7 5 (str "7") (str " ") (str " "));
      first [lia | reflexivity | by left].
  - apply (normalizeTime_24_hour 23 59 (str "23") [] []);
      first [lia | reflexivity | by left].
  - apply (normalizeTime_24_hour 0 0 (str "00") [] []);
      first [lia | reflexivity | by right].
Defined.

(** X2.  A string of the 24-hour shape, one or two digits, a colon and two
    digits, whose hour is above 23 or whose minutes are above 59, is
    refused with the range error, whatever white space is around it. *)
Theorem normalizeTime_24_hour_out_of_range
    (hs lead trail : jsstring) (d1 d2 : Z) :
  (length hs = 1 \/ length hs = 2)%nat -> forallb is_digit hs = true ->
  is_digit d1 = true -> is_digit d2 = true ->
  23 < parseInt10 hs \/ 59 < parseInt10 [d1; d2] ->
  forallb is_space lead = true -> forallb is_space trail = true ->
  normalizeTime (lead ++ hs ++ str ":" ++ [d1; d2] ++ trail)
  = Throw (str "Invalid time. Hours must be 0-23 and minutes 0-59.").
Proof.
  intros Hlen Hhs Hd1 Hd2 Hr Hlead Htrail. rewrite normalizeTime_closed_form.
  unfold normalizeTime_direct. rewrite trim_24 by done.
  destruct (shape24_ok hs d1 d2 Hlen Hhs Hd1 Hd2) as [-> ->].
  replace ((parseInt10 hs <? 0) || (parseInt10 hs >? 23)
           || (parseInt10 [d1; d2] <? 0) || (parseInt10 [d1; d2] >? 59))
    with true; [done|].
  symmetry. rewrite !orb_true_iff. lia.
Qed.

Lemma normalizeTime_24_hour_out_of_range_witness :
  normalizeTime (str "24:00") = Throw err_time_range
  /\ normalizeTime (str " 9:60") = Throw err_time_range.
Proof.
  split.
  - apply (normalizeTime_24_hour_out_of_range (str "24") [] [] 48 48);
      first [reflexivity | by right | (left; vm_compute; reflexivity)].
  - apply (normalizeTime_24_hour_out_of_range (str "9") (str " ") [] 54 48);
      first [reflexivity | by left | (right; vm_compute; reflexivity)].
Defined.

(** X3.  A string of the 12-hour shape is never refused, whatever its
    digits: the hour read from one or two digits gains 12 under PM unless
    it is 12, becomes 0 under AM when it is 12, and is kept otherwise,
    and the two minute digits are copied as they are. *)
Theorem normalizeTime_12_hour_unchecked
    (p : period) (hs ws sfx lead trail : jsstring) (d1 d2 : Z) :
  (length hs = 1 \/ length hs = 2)%nat -> forallb is_digit hs = true ->
  is_digit d1 = true -> is_digit d2 = true ->
  forallb is_space ws = true -> spells p sfx = true ->
  forallb is_space lead = true -> forallb is_space trail = true ->
  normalizeTime (lead ++ hs ++ str ":" ++ [d1; d2] ++ ws ++ sfx ++ trail)
  = Ok (padStart 2 48
          (toString
             (match p with
              | AM => if parseInt10 hs =? 12 then 0 else parseInt10 hs
              | PM => if parseInt10 hs =? 12 then 12 else parseInt10 hs + 12
              end))
        ++ str ":" ++ [d1; d2]).
Proof.
  intros Hlen Hdig Hd1 Hd2 Hws Hs Hlead Htrail.
  rewrite normalizeTime_closed_form.
  pose proof (match12Hour_ok p hs ws sfx d1 d2 Hlen Hdig Hd1 Hd2 Hws Hs)
    as Hmatch.
  destruct (digits_head hs Hlen Hdig) as (x & r & Ex & Hx).
  destruct sfx as [|a [|c [|? ?]]]; try discriminate.
  assert (Hc : c = 77 \/ c = 109)
    by (apply andb_true_iff in Hs as [_ Hc]; lia).
  assert (Ha : match p with AM => a = 65 \/ a = 97 | PM => a = 80 \/ a = 112 end)
    by (apply andb_true_iff in Hs as [Ha _]; destruct p; lia).
  unfold normalizeTime_direct.
  replace (trim (lead ++ hs ++ str ":" ++ [d1; d2] ++ ws ++ [a; c] ++ trail))
    with (hs ++ 58 :: d1 :: d2 :: ws ++ [a; c]).
  2:{ subst hs.
      replace (lead ++ (x :: r) ++ str ":" ++ [d1; d2] ++ ws ++ [a; c] ++ trail)
        with (lead ++ (x :: (r ++ 58 :: d1 :: d2 :: ws ++ [a]) ++ [c]) ++ trail)
        by (simpl; rewrite <- !app_assoc; simpl; rewrite <- !app_assoc; done).
      rewrite trim_around; try done.
      - simpl. rewrite <- !app_assoc. simpl. rewrite <- !app_assoc. done.
      - unfold is_space.
        repeat (apply orb_false_iff; split); try apply andb_false_iff; lia. }
  rewrite Hmatch. set (h := parseInt10 hs).
  destruct p; destruct Ha as [-> | ->]; destruct Hc as [-> | ->];
    repeat match goal with
      | |- context [streqb ?u ?v] =>
          let b := eval vm_compute in (streqb u v) in
          change (streqb u v) with b
      end;
    cbn [andb negb]; destruct (Z.eqb_spec h 12) as [E12 | E12];
    cbn [andb negb]; rewrite ?E12; reflexivity.
Qed.

Lemma normalizeTime_12_hour_unchecked_witness :
  normalizeTime (str "0:30 pm") = Ok (str "12:30")
  /\ normalizeTime (str "99:99AM") = Ok (str "99:99")
  /\ normalizeTime (str "12:07 am") = Ok (str "00:07").
Proof.
  split; [|split].
  - apply (normalizeTime_12_hour_unchecked PM (str "0") (str " ") (str "pm")
             [] [] 51 48); first [reflexivity | by left].
  - apply (normalizeTime_12_hour_unchecked AM (str "99") [] (str "AM")
             [] [] 57 57); first [reflexivity | by right].
  - apply (normalizeTime_12_hour_unchecked AM (str "12") (str " ") (str "am")
             [] [] 48 55); first [reflexivity | by right].
Defined.

Lemma match_hm_colon (n : nat) (t : jsstring)
    (g : jsstring * jsstring * jsstring) :
  match_hm n t = Some g -> 58 ∈ t.
Proof.
  unfold match_hm. destruct (_ && _); [|done].
  destruct (drop n t) as [|c [|m1 [|m2 r]]] eqn:E; try done.
  destruct (Z.eqb_spec c 58) as [-> | ?]; [|done]. intros _.
  rewrite <- (take_drop n t), E. apply elem_of_app. right. by left.
Qed.

(** X4.  A string without a colon, such as the empty string, a string of
    white space or a word, is refused with the format error. *)
Theorem normalizeTime_without_colon (s : jsstring) :
  58 ∉ s ->
  normalizeTime s = Throw (str "Invalid time format. Use HH:MM or HH:MM AM/PM.").
Proof.
  intros Hs. apply normalizeTime_no_shape.
  - unfold shape12, match12_with.
    assert (Hn : forall n, match_hm n (trim s) = None).
    { intros n. destruct (match_hm n (trim s)) as [g|] eqn:E; [|done].
      apply match_hm_colon in E. exfalso. apply Hs.
      assert (HF : Forall (fun c => c ∈ s) (trim s))
        by (apply Forall_trim, Forall_forall; auto).
      by apply (proj1 (Forall_forall _ _) HF). }
    by rewrite !Hn.
  - unfold shape24, match24_with.
    assert (Hn : forall n, match_hm n (trim s) = None).
    { intros n. destruct (match_hm n (trim s)) as [g|] eqn:E; [|done].
      apply match_hm_colon in E. exfalso. apply Hs.
      assert (HF : Forall (fun c => c ∈ s) (trim s))
        by (apply Forall_trim, Forall_forall; auto).
      by apply (proj1 (Forall_forall _ _) HF). }
    by rewrite !Hn.
Qed.

Lemma normalizeTime_without_colon_witness :
  normalizeTime [] = Throw err_time_format
  /\ normalizeTime (str " noon ") = Throw err_time_format.
Proof.
  split.
  - apply normalizeTime_without_colon. apply not_elem_of_nil.
  - apply normalizeTime_without_colon. vm_compute.
    intros H. repeat (apply elem_of_cons in H as [H | H]; [discriminate H|]).
    by apply elem_of_nil in H.
Defined.

(** ** Date normalisation: a normalised date is left as it is *)

Lemma era_year_facts (doe : Z) :
  0 <= doe < 146097 ->
  let yoe := (doe - doe / 1460 + doe / 36524 - doe / 146096) / 365 in
  let doy := doe - (365 * yoe + yoe / 4 - yoe / 100) in
  0 <= yoe <= 399 /\ 0 <= doy <= 365
  /\ (doy = 365 ->
      (yoe + 1) mod 4 = 0 /\ ((yoe + 1) mod 100 <> 0 \/ yoe = 399)).
Proof. intros H yoe doy. subst doy yoe. Z.div_mod_to_equations. lia. Qed.

Lemma month_facts (doy : Z) :
  0 <= doy <= 365 ->
  let mp := (5 * doy + 2) / 153 in
  let d := doy - (153 * mp + 2) / 5 + 1 in
  0 <= mp <= 11 /\ 1 <= d
  /\ (mp = 0 \/ mp = 2 \/ mp = 4 \/ mp = 5 \/ mp = 7 \/ mp = 9 \/ mp = 10 ->
      d <= 31)
  /\ (mp = 1 \/ mp = 3 \/ mp = 6 \/ mp = 8 -> d <= 30)
  /\ (mp = 11 -> d <= 29 /\ (d = 29 -> doy = 365)).
Proof. intros H mp d. subst d mp. Z.div_mod_to_equations. lia. Qed.

Ltac closed_tests :=
  repeat match goal with
    | |- context [?a <=? ?b] =>
        let v := eval vm_compute in (a <=? b) in
        match v with
        | true => change (a <=? b) with true
        | false => change (a <=? b) with false
        end
    | |- context [?a <? ?b] =>
        let v := eval vm_compute in (a <? b) in
        match v with
        | true => change (a <? b) with true
        | false => change (a <? b) with false
        end
    | |- context [?a =? ?b] =>
        let v := eval vm_compute in (a =? b) in
        match v with
        | true => change (a =? b) with true
        | false => change (a =? b) with false
        end
    end; cbn [orb andb negb].

(** The civil date of a day number is a date of the calendar, and it
    is the date of that day. *)
Lemma civilFromDays_valid (z : Z) :
  let '(y, m, d) := civilFromDays z in
  1 <= m <= 12 /\ 1 <= d <= daysInMonth y m /\ daysFromCivil y m d = z.
Proof.
  unfold civilFromDays.
  set (era := (z + 719468) / 146097).
  set (doe := z + 719468 - era * 146097).
  assert (Hdoe : 0 <= doe < 146097)
    by (subst doe era; Z.div_mod_to_equations; lia).
  assert (Hz : z = era * 146097 + doe - 719468) by (subst doe; lia).
  pose proof (era_year_facts doe Hdoe) as Hy. cbv zeta in Hy.
  set (yoe := (doe - doe / 1460 + doe / 36524 - doe / 146096) / 365) in *.
  set (doy := doe - (365 * yoe + yoe / 4 - yoe / 100)) in *.
  assert (Hdoyeq : doe = 365 * yoe + yoe / 4 - yoe / 100 + doy)
    by (subst doy; lia).
  destruct Hy as (Hyoe & Hdoy & Hleap).
  pose proof (month_facts doy Hdoy) as Hm. cbv zeta in Hm.
  set (mp := (5 * doy + 2) / 153) in *.
  assert (Hdeq : doy = (153 * mp + 2) / 5 + (doy - (153 * mp + 2) / 5 + 1) - 1)
    by lia.
  set (d := doy - (153 * mp + 2) / 5 + 1) in *.
  destruct Hm as (Hmp & Hd1 & H31 & H30 & Hfeb).
  assert (Hera : forall k, (yoe + era * 400 + k - k) / 400 = era
                           /\ yoe + era * 400 + k - k - era * 400 = yoe).
  { intros k. split; [Z.div_mod_to_equations|]; lia. }
  clearbody d mp doy yoe doe era.
  assert (mp = 0 \/ mp = 1 \/ mp = 2 \/ mp = 3 \/ mp = 4 \/ mp = 5 \/ mp = 6
          \/ mp = 7 \/ mp = 8 \/ mp = 9 \/ mp = 10 \/ mp = 11) as Hc by lia.
  unfold daysFromCivil, daysInMonth.
  repeat (destruct Hc as [-> | Hc]); try subst mp; closed_tests;
    cbn [Z.add Z.sub Z.opp Z.pos_sub Pos.add Pos.succ Pos.pred_double
           Pos.add_carry Z.succ_double Z.pred_double Z.double] in *;
    closed_tests.
  all: try (destruct (isLeapYear _) eqn:El;
            [| assert (Hnl : ~ (isLeapYear (yoe + era * 400 + 1) = true))
                 by congruence;
               rewrite isLeapYear_true in Hnl ]).
  all: repeat split; try lia.
  all: try (destruct (Hera 0) as [He1 He2]; destruct (Hera 1) as [He3 He4];
            Z.div_mod_to_equations; lia).
Qed.

Lemma digits_loop_length (f k : nat) (n : Z) (acc : jsstring) :
  0 <= n < 10 ^ Z.of_nat (S k) ->
  (length (digits_loop f n acc) <= S k + length acc)%nat.
Proof.
  revert k n acc. induction f as [|f IH]; intros k n acc Hn.
  - simpl. lia.
  - cbn [digits_loop]. destruct (Z.ltb_spec n 10); [simpl; lia|].
    destruct k as [|k]; [change (10 ^ Z.of_nat 1) with 10 in Hn; lia|].
    etransitivity; [apply (IH k)|simpl; lia].
    split; [apply Z.div_pos; lia|].
    rewrite (Nat2Z.inj_succ (S k)), Z.pow_succ_r in Hn by lia.
    apply Z.div_lt_upper_bound; lia.
Qed.

Lemma parseInt10_zeros (j : nat) (s : jsstring) :
  parseInt10 (replicate j 48 ++ s) = parseInt10 s.
Proof.
  induction j as [|j IH]; [done|].
  unfold parseInt10 in *. cbn [replicate app fold_left].
  change (0 * 10 + (48 - 48)) with 0. exact IH.
Qed.

(** A number below [10^k], printed and padded to [k] digits, is [k]
    digits that read back as the number. *)
Lemma padStart_number (k : nat) (n : Z) :
  0 <= n < 10 ^ Z.of_nat (S k) ->
  length (padStart (S k) 48 (toString n)) = S k
  /\ forallb is_digit (padStart (S k) 48 (toString n)) = true
  /\ parseInt10 (padStart (S k) 48 (toString n)) = n.
Proof.
  intros Hn. unfold padStart.
  assert (Hlen : (length (toString n) <= S k)%nat).
  { unfold toString. etransitivity; [by apply digits_loop_length|]. simpl. lia. }
  split; [|split].
  - rewrite length_app, length_replicate. lia.
  - apply forallb_forall. intros c Hc. apply in_app_or in Hc as [Hc | Hc].
    + apply list_elem_of_In, elem_of_replicate in Hc as [-> _]. done.
    + pose proof (toString_digits n) as HF.
      by apply (proj1 (List.Forall_forall _ _) HF).
  - rewrite parseInt10_zeros. apply parseInt10_toString. lia.
Qed.

Lemma parseMonthDay_pad (y m d : Z) :
  1 <= m <= 12 -> 1 <= d <= daysInMonth y m ->
  parseMonthDay y (str "-" ++ padStart 2 48 (toString m) ++ str "-"
                     ++ padStart 2 48 (toString d))
  = Some (daysFromCivil y m d * msPerDay).
Proof.
  intros Hm Hd.
  assert (Hd31 : d <= 31).
  { unfold daysInMonth in Hd.
    repeat match type of Hd with
           | context [if ?b then _ else _] => destruct b
           end; lia. }
  rewrite !pad2_digits by lia. change (str "-") with [45].
  cbn [app]. unfold parseMonthDay.
  rewrite !Z.eqb_refl. cbn [andb forallb].
  rewrite !digit_code by (Z.div_mod_to_equations; lia). cbn [andb].
  replace (parseInt10 [48 + m / 10; 48 + m mod 10]) with m
    by (unfold parseInt10; simpl; Z.div_mod_to_equations; lia).
  replace (parseInt10 [48 + d / 10; 48 + d mod 10]) with d
    by (unfold parseInt10; simpl; Z.div_mod_to_equations; lia).
  replace ((1 <=? m) && (m <=? 12) && (1 <=? d) && (d <=? daysInMonth y m))
    with true; [done|].
  symmetry. rewrite !andb_true_iff. lia.
Qed.

(** The year as [toISOString] prints it is read back by [Date.parse]. *)
Lemma parseIsoDate_isoYear (y : Z) (r : jsstring) :
  -1000000 < y < 1000000 -> length r = 6%nat ->
  parseIsoDate (isoYear y ++ r) = parseMonthDay y r.
Proof.
  intros Hy Hr. unfold isoYear.
  destruct r as [|r1 [|r2 [|r3 [|r4 [|r5 [|r6 [|? ?]]]]]]]; try discriminate.
  destruct ((0 <=? y) && (y <=? 9999)) eqn:E.
  - apply andb_true_iff in E as [E1 E2].
    destruct (padStart_number 3 y) as (Hl & Hd & Hp);
      [change (10 ^ Z.of_nat 4) with 10000; lia|].
    destruct (padStart 4 48 (toString y)) as [|y1 [|y2 [|y3 [|y4 [|? ?]]]]];
      try discriminate.
    cbn [app]. unfold parseIsoDate.
    cbn [forallb] in Hd. rewrite !andb_true_iff in Hd.
    destruct Hd as (H1 & H2 & H3 & H4 & _).
    replace ((y1 =? 43) || (y1 =? 45)) with false
      by (unfold is_digit in H1; apply andb_true_iff in H1; lia).
    cbn [forallb]. rewrite H1, H2, H3, H4. cbn [andb]. by rewrite Hp.
  - assert (Hrange : y < 0 \/ 9999 < y)
      by (apply andb_false_iff in E; lia).
    destruct (padStart_number 5 (Z.abs y)) as (Hl & Hd & Hp);
      [change (10 ^ Z.of_nat 6) with 1000000; lia|].
    destruct (padStart 6 48 (toString (Z.abs y)))
      as [|y1 [|y2 [|y3 [|y4 [|y5 [|y6 [|? ?]]]]]]]; try discriminate.
    cbn [app]. unfold parseIsoDate.
    replace (((if y <? 0 then 45 else 43) =? 43)
             || ((if y <? 0 then 45 else 43) =? 45)) with true
      by (by destruct (y <? 0)).
    rewrite Hd, Hp.
    destruct (Z.ltb_spec y 0).
    + change (45 =? 45) with true. cbn [andb].
      replace (Z.abs y =? 0) with false by lia.
      by replace (- Z.abs y) with y by lia.
    + change (43 =? 45) with false. cbn [andb].
      by replace (Z.abs y) with y by lia.
Qed.

Lemma civilFromDays_year_bound (z : Z) :
  -100000000 <= z <= 100000000 ->
  -1000000 < fst (fst (civilFromDays z)) < 1000000.
Proof.
  intros Hz. unfold civilFromDays.
  set (era := (z + 719468) / 146097).
  set (doe := z + 719468 - era * 146097).
  assert (Hera : -700 <= era <= 700)
    by (subst era; Z.div_mod_to_equations; lia).
  assert (Hdoe : 0 <= doe < 146097)
    by (subst doe era; Z.div_mod_to_equations; lia).
  destruct (era_year_facts doe Hdoe) as (Hyoe & _ & _). cbv zeta in Hyoe.
  cbn [fst].
  match goal with |- context [if ?b then 1 else 0] => destruct b end; lia.
Qed.

Lemma normalizeDate_fixed
    (hostParse hostParse' : jsstring -> option Z) (s r : jsstring) :
  normalizeDate hostParse s = Ok r -> normalizeDate hostParse' r = Ok r.
Proof.
  unfold normalizeDate at 1.
  destruct (Date_getTime hostParse s) as [tv|] eqn:Etv; [|done].
  intros [= <-]. rewrite split_toISOString.
  assert (Htv : Z.abs tv <= maxTime).
  { unfold Date_getTime in Etv. destruct (Date_parse hostParse s); [|done].
    destruct (Z.leb_spec (Z.abs z) maxTime); [|done]. by injection Etv as <-. }
  set (D := tv / msPerDay).
  assert (HD : -100000000 <= D <= 100000000).
  { subst D. unfold maxTime, msPerDay in *. Z.div_mod_to_equations. lia. }
  pose proof (civilFromDays_valid D) as Hvalid.
  pose proof (civilFromDays_year_bound D HD) as Hyear.
  assert (Hpart : isoDatePart tv
                  = let '(y, m, d) := civilFromDays D in
                    isoYear y ++ str "-" ++ padStart 2 48 (toString m)
                      ++ str "-" ++ padStart 2 48 (toString d)) by done.
  destruct (civilFromDays D) as [[y m] d] eqn:Ec. cbn [fst] in Hyear.
  destruct Hvalid as (Hm & Hd & Hdays).
  assert (Hparse : parseIsoDate (isoDatePart tv) = Some (D * msPerDay)).
  { rewrite Hpart, parseIsoDate_isoYear; [|done|].
    - rewrite parseMonthDay_pad by done. by rewrite Hdays.
    - assert (Hd31 : d <= 31).
      { unfold daysInMonth in Hd.
        repeat match type of Hd with
               | context [if ?b then _ else _] => destruct b
               end; lia. }
      by rewrite !pad2_digits by lia. }
  assert (Hok : Z.abs (D * msPerDay) <= maxTime)
    by (unfold maxTime, msPerDay; lia).
  unfold normalizeDate, Date_getTime, Date_parse. rewrite Hparse.
  destruct (Z.leb_spec (Z.abs (D * msPerDay)) maxTime); [|lia].
  f_equal. rewrite split_toISOString. unfold isoDatePart at 1.
  rewrite Z.div_mul by done. rewrite Ec. by rewrite Hpart.
Qed.

(** X5.  A date that [normalizeDate] has returned is returned unchanged
    when it is normalised again, on any engine: the stored form of a
    date is stable under further saves. *)
Theorem normalizeDate_idempotent
    (hostParse hostParse' : jsstring -> option Z) (s r : jsstring) :
  normalizeDate hostParse s = Ok r -> normalizeDate hostParse' r = Ok r.
Proof. apply normalizeDate_fixed. Qed.

Lemma normalizeDate_idempotent_witness :
  normalizeDate (fun _ => None) (str "+002024-02-29") = Ok (str "2024-02-29")
  /\ normalizeDate (fun _ => Some 0) (str "2024-02-29") = Ok (str "2024-02-29").
Proof.
  split; [reflexivity|].
  apply (normalizeDate_idempotent (fun _ => None) (fun _ => Some 0)
           (str "+002024-02-29")). reflexivity.
Defined.

(** X6.  [normalizeDate] throws exactly when the string does not parse to
    a time value; otherwise it returns the UTC calendar date of the time
    value, printed with the year as [toISOString] prints it, and that is
    of the shape [YYYY-MM-DD] whenever the year is between 0 and 9999. *)
Theorem normalizeDate_outcome (hostParse : jsstring -> option Z) (s : jsstring) :
  (normalizeDate hostParse s
   = Throw (str "Invalid date format. Please provide a valid date.")
   <-> Date_getTime hostParse s = None)
  /\ (forall tv y m d,
        Date_getTime hostParse s = Some tv ->
        civilFromDays (tv / msPerDay) = (y, m, d) ->
        normalizeDate hostParse s
        = Ok (isoYear y ++ str "-" ++ padStart 2 48 (toString m) ++ str "-"
                ++ padStart 2 48 (toString d))
        /\ (0 <= y <= 9999 ->
            isYMD (isoYear y ++ str "-" ++ padStart 2 48 (toString m)
                     ++ str "-" ++ padStart 2 48 (toString d)) = true)).
Proof.
  pose proof (normalizeDate_result hostParse s) as H.
  split.
  - destruct (Date_getTime hostParse s) as [tv|].
    + destruct H as [-> _]. split; discriminate.
    + by split.
  - intros tv y m d Etv Ec. rewrite Etv in H. unfold isoDatePart in H.
    rewrite Ec in H. cbn [fst] in H. exact H.
Qed.

Lemma normalizeDate_outcome_witness :
  normalizeDate (fun _ => Some 1700000000123) (str "14 Nov 2023 22:13:20.123 GMT")
  = Ok (str "2023-11-14")
  /\ isYMD (str "2023-11-14") = true.
Proof.
  destruct (normalizeDate_outcome (fun _ => Some 1700000000123)
              (str "14 Nov 2023 22:13:20.123 GMT")) as [_ H].
  destruct (H 1700000000123 2023 11 14 eq_refl eq_refl) as [H1 H2].
  split; [exact H1 | apply H2; lia].
Defined.

(** X7.  A date of the calendar with a year from 0 to 9999 that is
    written [YYYY-MM-DD] is accepted and returned as it is, whatever the
    engine does with other strings. *)
Theorem normalizeDate_keeps_canonical
    (hostParse : jsstring -> option Z) (y m d : Z) :
  0 <= y <= 9999 -> 1 <= m <= 12 -> 1 <= d <= daysInMonth y m ->
  normalizeDate hostParse
    (padStart 4 48 (toString y) ++ str "-" ++ padStart 2 48 (toString m)
       ++ str "-" ++ padStart 2 48 (toString d))
  = Ok (padStart 4 48 (toString y) ++ str "-" ++ padStart 2 48 (toString m)
          ++ str "-" ++ padStart 2 48 (toString d)).
Proof. intros Hy Hm Hd. by apply normalizeDate_canonical. Qed.

Lemma normalizeDate_keeps_canonical_witness :
  normalizeDate (fun _ => None) (str "2000-02-29") = Ok (str "2000-02-29").
Proof.
  apply (normalizeDate_keeps_canonical (fun _ => None) 2000 2 29);
    vm_compute; by split.
Defined.

(** ** Slug derivation: what is kept of the title *)

Lemma space_not_word (c : Z) : is_space c = true -> is_word c = false.
Proof.
  unfold is_space, is_word, is_upper, is_lower, is_digit.
  rewrite !orb_true_iff, !andb_true_iff, !orb_false_iff, !andb_false_iff. lia.
Qed.

Lemma hyphen_not_word (c : Z) : is_hyphen c = true -> is_word c = false.
Proof. intros ->%is_hyphen_true. reflexivity. Qed.

Section WordsKept.

Variable p : Z -> bool.
Hypothesis p_not_word : forall c, p c = true -> is_word c = false.

Lemma words_none (s : jsstring) :
  forallb p s = true -> List.filter is_word s = [].
Proof.
  induction s as [|c s IH]; simpl; [done|].
  intros [Hc Hs]%andb_true_iff. rewrite (p_not_word c Hc). auto.
Qed.

Lemma words_dropWhile (s : jsstring) :
  List.filter is_word (dropWhile p s) = List.filter is_word s.
Proof.
  induction s as [|c s IH]; simpl; [done|].
  destruct (p c) eqn:E; [|done]. by rewrite (p_not_word c E).
Qed.

Lemma words_dropWhileEnd (s : jsstring) :
  List.filter is_word (dropWhileEnd p s) = List.filter is_word s.
Proof.
  induction s as [|c s IH]; [done|]. rewrite dropWhileEnd_cons.
  destruct (forallb p (c :: s)) eqn:E.
  - by rewrite (words_none (c :: s)).
  - simpl. by rewrite IH.
Qed.

Lemma words_replace_runs (by_ : jsstring) (inrun : bool) (s : jsstring) :
  List.filter is_word by_ = [] ->
  List.filter is_word (replace_runs_from p by_ inrun s)
  = List.filter is_word s.
Proof.
  intros Hby. revert inrun. induction s as [|c s IH]; intros inrun; [done|].
  cbn [replace_runs_from]. destruct (p c) eqn:E.
  - rewrite List.filter_app, IH. simpl. rewrite (p_not_word c E).
    by destruct inrun; [|rewrite Hby].
  - simpl. by rewrite IH.
Qed.

End WordsKept.

Lemma words_remove_special (s : jsstring) :
  List.filter is_word (remove_special s) = List.filter is_word s.
Proof.
  unfold remove_special. induction s as [|c s IH]; simpl; [done|].
  unfold keep_slug_unit at 1.
  destruct (is_word c) eqn:E; simpl; [by rewrite E, IH|].
  destruct (is_space c || is_hyphen c); simpl; [by rewrite E|done].
Qed.

Lemma generateSlug_direct_words
    (lowerNonAscii : jsstring -> Z -> jsstring -> jsstring) (text : jsstring) :
  List.filter is_word (generateSlug_direct lowerNonAscii text)
  = List.filter is_word (toLowerCase lowerNonAscii text).
Proof.
  unfold generateSlug_direct, strip_hyphens, replace_runs, trim.
  rewrite (words_dropWhileEnd is_hyphen hyphen_not_word).
  rewrite (words_dropWhile is_hyphen hyphen_not_word).
  rewrite (words_replace_runs is_hyphen hyphen_not_word) by done.
  rewrite (words_replace_runs is_space space_not_word) by done.
  rewrite words_remove_special.
  rewrite (words_dropWhileEnd is_space space_not_word).
  by rewrite (words_dropWhile is_space space_not_word).
Qed.

(** X8.  The word characters of a slug are exactly the word characters of
    the lower-cased title, in the same order: deriving the slug drops,
    adds or moves no letter, digit or underscore. *)
Theorem generateSlug_keeps_words
    (lowerNonAscii : jsstring -> Z -> jsstring -> jsstring) (text : jsstring) :
  List.filter is_word (generateSlug lowerNonAscii text)
  = List.filter is_word (toLowerCase lowerNonAscii text).
Proof.
  rewrite generateSlug_closed_form. apply generateSlug_direct_words.
Qed.

Lemma filter_word_nil (s : jsstring) :
  List.filter is_word s = [] <-> Forall (fun c => is_word c = false) s.
Proof.
  induction s as [|c s IH]; simpl.
  - split; [constructor | done].
  - destruct (is_word c) eqn:E.
    + split; [done|]. intros H. inversion H; congruence.
    + rewrite IH. split; [by constructor | by inversion 1].
Qed.

Lemma generateSlug_direct_word_or_hyphen
    (lowerNonAscii : jsstring -> Z -> jsstring -> jsstring) (text : jsstring) :
  Forall (fun c => is_word c = true \/ c = hyphen)
    (generateSlug_direct lowerNonAscii text).
Proof.
  unfold generateSlug_direct.
  set (t := replace_runs is_hyphen (str "-") _).
  assert (Ht : Forall (fun c => is_word c = true \/ c = hyphen) t).
  { subst t.
    assert (H0 : Forall (fun _ : Z => True)
                   (trim (toLowerCase lowerNonAscii text)))
      by (apply Forall_forall; done).
    apply Forall_remove_special in H0.
    apply (Forall_replace_runs_from _ (fun c => c = hyphen) is_space
             (str "-") false) in H0; [|by repeat constructor].
    apply (Forall_replace_runs_from _ (fun c => c = hyphen) is_hyphen
             (str "-") false) in H0; [|by repeat constructor].
    eapply Forall_impl; [exact H0|]. simpl.
    intros c [[[[[_ Hk] Hs] | ->] _] | ->]; try by right.
    unfold keep_slug_unit in Hk. rewrite Hs, orb_false_r in Hk.
    apply orb_true_iff in Hk as [Hk | Hk]; [by left | right].
    by apply is_hyphen_true. }
  destruct (strip_hyphens_ends t) as (_ & _ & l & r & Hlr).
  rewrite Hlr in Ht. by eapply Forall_part.
Qed.

(** X9.  The slug is empty exactly when the lower-cased title has no word
    character: a title of punctuation, white space and hyphens only gets
    the empty slug, and any title with a letter, digit or underscore gets
    a slug that is not empty. *)
Theorem generateSlug_empty_iff
    (lowerNonAscii : jsstring -> Z -> jsstring -> jsstring) (text : jsstring) :
  generateSlug lowerNonAscii text = []
  <-> Forall (fun c => is_word c = false) (toLowerCase lowerNonAscii text).
Proof.
  rewrite generateSlug_closed_form, <- filter_word_nil.
  rewrite <- generateSlug_direct_words. split; [by intros ->|].
  intros Hnil. apply filter_word_nil in Hnil.
  pose proof (generateSlug_direct_word_or_hyphen lowerNonAscii text) as Hwh.
  unfold generateSlug_direct in *.
  set (t := replace_runs is_hyphen (str "-") _) in *.
  destruct (strip_hyphens_ends t) as (Hhead & _ & _).
  destruct (strip_hyphens t) as [|c r]; [done|].
  exfalso. apply (Hhead r). f_equal.
  inversion Hwh as [|? ? [Hw | ->] _]; [|done].
  inversion Hnil; congruence.
Qed.

Lemma toLowerCase_ascii
    (lowerNonAscii : jsstring -> Z -> jsstring -> jsstring)
    (before s : jsstring) :
  Forall (fun c => c < 128) s ->
  toLowerCase_from lowerNonAscii before s = map lowerAscii s.
Proof.
  intros H. revert before.
  induction H as [|c s Hc Hs IH]; intros before; simpl; [done|].
  destruct (Z.ltb_spec c 128); [|lia]. simpl. by rewrite IH.
Qed.

(** X10.  Two titles of ASCII characters that differ only in the case of
    their letters get the same slug, whatever the case table; so they
    collide on the unique slug. *)
Theorem generateSlug_ascii_case_insensitive
    (lowerNonAscii lowerNonAscii' : jsstring -> Z -> jsstring -> jsstring)
    (t1 t2 : jsstring) :
  Forall (fun c => c < 128) t1 -> Forall (fun c => c < 128) t2 ->
  map lowerAscii t1 = map lowerAscii t2 ->
  generateSlug lowerNonAscii t1 = generateSlug lowerNonAscii' t2.
Proof.
  intros H1 H2 Heq. unfold generateSlug, toLowerCase.
  by rewrite !toLowerCase_ascii, Heq by done.
Qed.

Lemma generateSlug_ascii_case_insensitive_witness :
  generateSlug lowerSample (str "React Summit 2025")
  = generateSlug (fun _ c _ => [c]) (str "REACT summit 2025").
Proof.
  apply generateSlug_ascii_case_insensitive.
  - vm_compute. repeat constructor.
  - vm_compute. repeat constructor.
  - reflexivity.
Defined.

(** ** The e-mail validator *)

Lemma greedy_is_Some {A : Type} (lo : nat) (try : nat -> option A) (n : nat) :
  (lo <= n)%nat ->
  is_Some (greedy lo try n)
  <-> exists j, (lo <= j <= n)%nat /\ is_Some (try j).
Proof.
  induction n as [|n IH]; intros Hlo.
  - simpl. destruct (try 0%nat) eqn:E.
    + split; [|done]. intros _. exists 0%nat. rewrite E. split; [lia | done].
    + split; [by intros [? ?]|]. intros (j & Hj & Hs).
      replace j with 0%nat in Hs by lia. by rewrite E in Hs.
  - cbn [greedy]. destruct (try (S n)) eqn:E.
    + split; [|done]. intros _. exists (S n). rewrite E. split; [lia | done].
    + destruct (Nat.leb_spec lo n) as [Hle | Hgt].
      * rewrite IH by done. split.
        -- intros (j & Hj & Hs). exists j. split; [lia | done].
        -- intros (j & Hj & Hs). exists j. split; [|done].
           destruct (decide (j = S n)) as [-> | ?]; [|lia].
           rewrite E in Hs. by destruct Hs.
      * split; [by intros [? ?]|]. intros (j & Hj & Hs).
        replace j with (S n) in Hs by lia. rewrite E in Hs. by destruct Hs.
Qed.

Lemma exec_plus_is_Some {A : Type} (p : Z -> bool) (pos : nat)
    (rest : jsstring) (caps : list jsstring)
    (k : nat -> jsstring -> list jsstring -> option A) :
  is_Some (exec (Rep p 1 None) pos rest caps k)
  <-> exists j, (1 <= j <= span p rest)%nat
                /\ is_Some (k (pos + j)%nat (drop j rest) caps).
Proof.
  cbn [exec]. destruct (Nat.leb_spec 1 (span p rest)) as [Hle | Hgt].
  - by apply greedy_is_Some.
  - split; [by intros [? ?]|]. intros (j & Hj & _). lia.
Qed.

Lemma take_within_span (p : Z -> bool) (j : nat) (s : jsstring) :
  (j <= span p s)%nat ->
  forallb p (take j s) = true /\ length (take j s) = j.
Proof.
  revert s. induction j as [|j IH]; intros s Hj; [done|].
  destruct s as [|c s]; [simpl in Hj; lia|]. cbn [span] in Hj.
  destruct (p c) eqn:E; [|lia]. cbn [take forallb length]. rewrite E.
  destruct (IH s ltac:(lia)) as [-> ->]. done.
Qed.

Lemma span_app_ge (p : Z -> bool) (a r : jsstring) :
  forallb p a = true -> (length a <= span p (a ++ r))%nat.
Proof.
  induction a as [|c a IH]; simpl; [lia|].
  intros [-> Ha]%andb_true_iff. specialize (IH Ha). lia.
Qed.

Lemma not_space_or_at_true (c : Z) :
  not_space_or_at c = true <-> is_space c = false /\ c <> 64.
Proof.
  unfold not_space_or_at. rewrite negb_true_iff, orb_false_iff, Z.eqb_neq. done.
Qed.

Lemma email_match (s : jsstring) :
  is_Some (match_at emailRegex 0 s)
  <-> exists j1 r1 j2 r2 j3,
        (1 <= j1 <= span not_space_or_at s)%nat /\ drop j1 s = 64 :: r1
        /\ (1 <= j2 <= span not_space_or_at r1)%nat /\ drop j2 r1 = 46 :: r2
        /\ (1 <= j3 <= span not_space_or_at r2)%nat /\ drop j3 r2 = [].
Proof.
  unfold match_at, emailRegex.
  change (exec (Seq Bol ?r) 0 s [] ?k) with (exec r 0 s [] k).
  rewrite exec_Seq, exec_plus_is_Some. split.
  - intros (j1 & Hj1 & H1). rewrite exec_Seq, exec_Unit in H1.
    destruct (drop j1 s) as [|c r1] eqn:E1; [by destruct H1|].
    destruct (Z.eqb_spec c 64) as [-> | ?]; [|by destruct H1].
    rewrite exec_Seq, exec_plus_is_Some in H1.
    destruct H1 as (j2 & Hj2 & H2). rewrite exec_Seq, exec_Unit in H2.
    destruct (drop j2 r1) as [|c r2] eqn:E2; [by destruct H2|].
    destruct (Z.eqb_spec c 46) as [-> | ?]; [|by destruct H2].
    rewrite exec_Seq, exec_plus_is_Some in H2.
    destruct H2 as (j3 & Hj3 & H3). rewrite exec_Eol in H3.
    destruct (drop j3 r2) eqn:E3; [|by destruct H3].
    by exists j1, r1, j2, r2, j3.
  - intros (j1 & r1 & j2 & r2 & j3 & Hj1 & E1 & Hj2 & E2 & Hj3 & E3).
    exists j1. split; [done|]. rewrite exec_Seq, exec_Unit, E1.
    rewrite Z.eqb_refl, exec_Seq, exec_plus_is_Some.
    exists j2. split; [done|]. rewrite exec_Seq, exec_Unit, E2.
    rewrite Z.eqb_refl, exec_Seq, exec_plus_is_Some.
    exists j3. split; [done|]. by rewrite exec_Eol, E3.
Qed.

(** X11.  The validator accepts exactly the strings made of a local part,
    an at sign, and a domain with a dot inside it: three parts that are
    not empty and hold neither white space nor an at sign, joined by one
    at sign and one dot. *)
Theorem email_validator_accepts (email : jsstring) :
  email_validator email = true
  <-> exists a b c,
        email = a ++ str "@" ++ b ++ str "." ++ c
        /\ a <> [] /\ b <> [] /\ c <> []
        /\ Forall (fun x => is_space x = false /\ x <> 64) (a ++ b ++ c).
Proof.
  unfold email_validator, RegExp_test.
  assert (Hs : search emailRegex 0 email
               = match match_at emailRegex 0 email with
                 | Some (_, caps) => Some caps
                 | None => None
                 end) by apply String_match_anchored.
  assert (Htest : (match search emailRegex 0 email with
                   | Some _ => true | None => false end) = true
                  <-> is_Some (match_at emailRegex 0 email)).
  { rewrite Hs. destruct (match_at emailRegex 0 email) as [[? ?]|].
    - split; [by eexists | done].
    - split; [done | by intros [? ?]]. }
  rewrite Htest, email_match. clear Hs Htest. split.
  - intros (j1 & r1 & j2 & r2 & j3 & Hj1 & E1 & Hj2 & E2 & Hj3 & E3).
    destruct (take_within_span not_space_or_at j1 email (proj2 Hj1))
      as [Ha La].
    destruct (take_within_span not_space_or_at j2 r1 (proj2 Hj2))
      as [Hb Lb].
    destruct (take_within_span not_space_or_at j3 r2 (proj2 Hj3))
      as [Hc Lc].
    exists (take j1 email), (take j2 r1), r2.
    assert (Hr2 : take j3 r2 = r2).
    { rewrite <- (take_drop j3 r2) at 2. by rewrite E3, app_nil_r. }
    rewrite Hr2 in Hc, Lc.
    split; [|split; [|split; [|split]]].
    + rewrite <- (take_drop j1 email) at 1. rewrite E1.
      rewrite <- (take_drop j2 r1) at 1. by rewrite E2.
    + intros E. rewrite E in La. simpl in La. lia.
    + intros E. rewrite E in Lb. simpl in Lb. lia.
    + intros E. rewrite E in Lc. simpl in Lc. lia.
    + rewrite !Forall_app. repeat split;
        (apply Forall_forall; intros x Hx; apply not_space_or_at_true;
         match goal with
         | H : forallb _ ?l = true |- _ =>
             match type of Hx with
             | _ ∈ l => exact (proj1 (forallb_forall _ _) H x
                                 (proj1 (list_elem_of_In _ _) Hx))
             end
         end).
  - intros (a & b & c & -> & Ha & Hb & Hc & HF).
    rewrite !Forall_app in HF. destruct HF as (Fa & Fb & Fc).
    assert (Hall : forall l, Forall (fun x => is_space x = false /\ x <> 64) l ->
                             forallb not_space_or_at l = true).
    { intros l Hl. apply forallb_forall. intros x Hx.
      apply not_space_or_at_true.
      apply (proj1 (Forall_forall _ _) Hl). by apply list_elem_of_In. }
    change (str "@") with [64]. change (str ".") with [46].
    exists (length a), (b ++ [46] ++ c), (length b), c, (length c).
    assert (Hpos : forall l : jsstring, l <> [] -> (1 <= length l)%nat)
      by (intros [|? ?] ?; [done | simpl; lia]).
    split; [split; [by apply Hpos | by apply span_app_ge, Hall]|].
    split; [by rewrite drop_app_length|].
    split; [split; [by apply Hpos | by apply span_app_ge, Hall]|].
    split; [by rewrite drop_app_length|].
    split; [split; [by apply Hpos|]|apply drop_all].
    rewrite <- (app_nil_r c) at 2. by apply span_app_ge, Hall.
Qed.

(** ** The Event pre-save hook: errors and saved documents *)

Ltac hook_fields :=
  repeat progress
    (try unfold set_slug; try unfold set_date; try unfold set_time;
     cbn [title slug date time description overview image venue location
          mode audience agenda organizer tags]).

Lemma eventPreSave_nothing_to_do
    (lowerNonAscii : jsstring -> Z -> jsstring -> jsstring)
    (hostParse : jsstring -> option Z) (isModified : jsstring -> bool)
    (this : EventDoc) :
  (isModified (str "title") = true ->
   generateSlug lowerNonAscii (title this) = slug this) ->
  (isModified (str "date") = true ->
   normalizeDate hostParse (date this) = Ok (date this)) ->
  (isModified (str "time") = true ->
   normalizeTime (time this) = Ok (time this)) ->
  exists ran,
    eventPreSave lowerNonAscii hostParse isModified this = (this, ran, Next).
Proof.
  intros Hs Hd Ht. destruct this.
  unfold eventPreSave, bind, slug_stmt, date_stmt, time_stmt.
  cbn [title slug date time] in *.
  destruct (isModified (str "title"));
    destruct (isModified (str "date"));
    destruct (isModified (str "time"));
    repeat first
      [ rewrite (Hs eq_refl) | rewrite (Hd eq_refl) | rewrite (Ht eq_refl)
      | progress (unfold set_slug, set_date, set_time;
                  cbn [title slug date time description overview image venue
                       location mode audience agenda organizer tags]) ];
    by eexists.
Qed.

Section EventHookOutcomes.

Variable lowerNonAscii : jsstring -> Z -> jsstring -> jsstring.
Variable hostParse : jsstring -> option Z.
Variable isModified : jsstring -> bool.

(** X12.  The hook hands to [next] the first error met, the date before
    the time.  When the modified date is refused, the time is not looked
    at and both fields stay as given; when the date passes and the
    modified time is refused, the date of the document has already been
    replaced by its normal form.  In both cases a modified title has
    already given the document its new slug. *)
Theorem eventPreSave_first_error (this : EventDoc) (e : jsstring) :
  (isModified (str "date") = true ->
   normalizeDate hostParse (date this) = Throw e ->
   exists this' ran,
     eventPreSave lowerNonAscii hostParse isModified this
     = (this', ran, NextError e)
     /\ date this' = date this /\ time this' = time this
     /\ ~ In TimeNormalization ran
     /\ (isModified (str "title") = true ->
         slug this' = generateSlug lowerNonAscii (title this)))
  /\ (isModified (str "time") = true ->
      normalizeTime (time this) = Throw e ->
      (isModified (str "date") = true ->
       exists d, normalizeDate hostParse (date this) = Ok d) ->
      exists this' ran,
        eventPreSave lowerNonAscii hostParse isModified this
        = (this', ran, NextError e)
        /\ time this' = time this
        /\ (isModified (str "date") = true ->
            normalizeDate hostParse (date this) = Ok (date this'))
        /\ (isModified (str "title") = true ->
            slug this' = generateSlug lowerNonAscii (title this))).
Proof.
  unfold eventPreSave, bind, slug_stmt, date_stmt, time_stmt. split.
  - intros Hd He. rewrite Hd.
    destruct (isModified (str "title")); hook_fields; rewrite He;
      do 2 eexists; (split; [reflexivity|]); simpl; intuition congruence.
  - intros Ht He Hdate. rewrite Ht.
    destruct (isModified (str "date")) eqn:Ed.
    + destruct (Hdate eq_refl) as [d Hd].
      destruct (isModified (str "title")); hook_fields; rewrite Hd;
        hook_fields; rewrite He; do 2 eexists; (split; [reflexivity|]);
        simpl; intuition congruence.
    + destruct (isModified (str "title")); hook_fields; rewrite He;
        do 2 eexists; (split; [reflexivity|]); simpl; intuition congruence.
Qed.

(** X13.  A document that went through the hook with its title and its
    date modified, and whose time is a time of day in the form [HH:MM],
    goes through the hook again unchanged, whichever fields are marked
    modified then and whatever the engine's date parser, the case table
    being the same: saving a stored event again,
    or a copy of it, does not alter it. *)
Theorem eventPreSave_resave_stable
    (this this' : EventDoc) (ran : list transform) (h m : Z)
    (hostParse' : jsstring -> option Z) (isModified' : jsstring -> bool) :
  eventPreSave lowerNonAscii hostParse isModified this = (this', ran, Next) ->
  isModified (str "title") = true -> isModified (str "date") = true ->
  0 <= h <= 23 -> 0 <= m <= 59 ->
  time this' = padStart 2 48 (toString h) ++ str ":" ++ padStart 2 48 (toString m) ->
  exists ran',
    eventPreSave lowerNonAscii hostParse' isModified' this'
    = (this', ran', Next).
Proof.
  intros Hrun Ht Hd Hh Hm Htime.
  assert (Hfields : title this' = title this
                    /\ slug this' = generateSlug lowerNonAscii (title this)
                    /\ normalizeDate hostParse (date this) = Ok (date this')).
  { revert Hrun. unfold eventPreSave, bind, slug_stmt, date_stmt, time_stmt.
    rewrite Ht, Hd. hook_fields.
    destruct (normalizeDate hostParse (date this)) as [d|e']; [|done].
    destruct (isModified (str "time")); hook_fields.
    - destruct (normalizeTime (time this)); [|done]. by intros [= <- _].
    - by intros [= <- _]. }
  destruct Hfields as (Etitle & Eslug & Edate).
  apply eventPreSave_nothing_to_do.
  - intros _. by rewrite Etitle, Eslug.
  - intros _. exact (normalizeDate_fixed hostParse hostParse' _ _ Edate).
  - intros _. rewrite Htime.
    pose proof (normalizeTime_24_hour_ok h m (padStart 2 48 (toString h))
                  [] [] Hh Hm (or_intror eq_refl) eq_refl eq_refl) as H.
    rewrite app_nil_r in H. exact H.
Qed.

End EventHookOutcomes.

Lemma eventPreSave_first_error_witness :
  (exists this' ran,
     eventPreSave lowerSample (fun _ => None) (fun _ => true)
       (set_time (str "noon") (set_date (str "soon") sample_event))
     = (this', ran, NextError (str "Invalid date format. Please provide a valid date."))
     /\ date this' = str "soon" /\ time this' = str "noon"
     /\ slug this' = str "rocq-meetup")
  /\ (exists this' ran,
        eventPreSave lowerSample (fun _ => None) (fun _ => true)
          (set_time (str "noon") sample_event)
        = (this', ran, NextError (str "Invalid time format. Use HH:MM or HH:MM AM/PM."))
        /\ time this' = str "noon" /\ date this' = str "2024-05-01").
Proof.
  split.
  - destruct (proj1 (eventPreSave_first_error lowerSample (fun _ => None)
                       (fun _ => true)
                       (set_time (str "noon") (set_date (str "soon") sample_event))
                       (str "Invalid date format. Please provide a valid date."))
                eq_refl eq_refl)
      as (this' & ran & Hrun & Hd & Ht & _ & Hs).
    exists this', ran. split; [exact Hrun|]. split; [exact Hd|].
    split; [exact Ht|]. rewrite (Hs eq_refl). reflexivity.
  - destruct (proj2 (eventPreSave_first_error lowerSample (fun _ => None)
                       (fun _ => true) (set_time (str "noon") sample_event)
                       (str "Invalid time format. Use HH:MM or HH:MM AM/PM."))
                eq_refl eq_refl
                (fun _ => ex_intro _ (str "2024-05-01") eq_refl))
      as (this' & ran & Hrun & Ht & Hd & _).
    exists this', ran. split; [exact Hrun|]. split; [exact Ht|].
    pose proof (Hd eq_refl) as Hd'. vm_compute in Hd'. by injection Hd'.
Defined.

Lemma eventPreSave_resave_stable_witness :
  exists this' ran ran',
    eventPreSave lowerSample (fun _ => None) (fun _ => true) sample_event
    = (this', ran, Next)
    /\ time this' = str "21:30"
    /\ eventPreSave lowerSample (fun _ => Some 0) (fun _ => true) this'
       = (this', ran', Next).
Proof.
  eexists _, _.
  assert (Hrun : eventPreSave lowerSample (fun _ => None) (fun _ => true)
                   sample_event
                 = (set_time (str "21:30")
                      (set_slug (str "rocq-meetup") sample_event),
                    [SlugDerivation; DateNormalization; TimeNormalization],
                    Next)) by reflexivity.
  destruct (eventPreSave_resave_stable lowerSample (fun _ => None)
              (fun _ => true) sample_event _ _ 21 30 (fun _ => Some 0)
              (fun _ => true) Hrun eq_refl eq_refl
              ltac:(lia) ltac:(lia) eq_refl) as [ran' Hran'].
  exists ran'. split; [exact Hrun|]. split; [reflexivity | exact Hran'].
Defined.

(** ** The connection cache over time *)

Lemma length_set_attempt (a : nat) (st : attempt_state) (s : State) :
  length (set_attempt a st s) = length (attempts s).
Proof.
  unfold set_attempt. destruct (attempts s !! a); [apply length_insert | done].
Qed.

Lemma callers_enter (c : nat) (s : State) :
  exists st, callers (connectDB_enter c s) = <[c := st]> (callers s).
Proof.
  unfold connectDB_enter.
  destruct (conn s); [by eexists|]. destruct (promise s); by eexists.
Qed.

Lemma calls_run (cs : list nat) (s : State) :
  NoDup cs -> (forall c, c ∈ cs -> callers s !! c = None) ->
  is_Some (run (Call <$> cs) s).
Proof.
  revert s. induction cs as [|c cs IH]; intros s Hnd Hfree; [by eexists|].
  cbn [fmap list_fmap run step]. rewrite (Hfree c) by left.
  apply NoDup_cons in Hnd as [Hc Hnd]. apply IH; [done|].
  intros c' Hc'. destruct (callers_enter c s) as [st ->].
  rewrite lookup_insert_ne by (intros ->; done).
  apply Hfree. by right.
Qed.

(** X14.  Any number of calls of [connectDB] made one after the other in
    a fresh process, before the driver has answered, make exactly one
    connection attempt; that attempt is in flight and every one of the
    calls waits for it. *)
Theorem connectDB_concurrent_calls (env : gmap jsstring jsstring)
    (s0 : State) (c0 : nat) (cs : list nat) :
  loadModule env = Ok s0 -> NoDup (c0 :: cs) ->
  exists s, run (Call <$> (c0 :: cs)) s0 = Some s
            /\ length (attempts s) = 1%nat /\ in_flight s 0
            /\ forall c, c ∈ c0 :: cs -> callers s !! c = Some (Awaiting 0).
Proof.
  intros Hload Hnd.
  destruct (calls_run (c0 :: cs) s0 Hnd) as [s Hrun].
  - intros c _. destruct (loadModule_Ok env s0 Hload) as (u & _ & _ & ->).
    apply lookup_empty.
  - exists s. split; [done|]. by eapply concurrent_initial_calls.
Qed.

Lemma connectDB_concurrent_calls_witness :
  exists s, run (Call <$> [4; 2; 9]%nat) booted = Some s
            /\ length (attempts s) = 1%nat /\ in_flight s 0
            /\ forall c, c ∈ [4; 2; 9]%nat -> callers s !! c = Some (Awaiting 0).
Proof.
  apply (connectDB_concurrent_calls sample_env booted 4%nat [2; 9]%nat).
  - exact sample_env_boots.
  - apply (bool_decide_unpack _). vm_compute. exact I.
Defined.

(** X15.  Every connection attempt a process has made was given the
    connection string found in the environment when the module was
    loaded, which is not empty, and was made with command buffering
    switched off. *)
Theorem connectDB_uses_configured_uri
    (env : gmap jsstring jsstring) (s : State) :
  reachable env s ->
  exists u, env !! str "MONGODB_URI" = Some u /\ u <> [] /\ MONGODB_URI s = u
            /\ Forall (fun at_ => a_uri at_ = u /\ a_bufferCommands at_ = false)
                 (attempts s).
Proof. apply attempts_use_configured_uri. Qed.

Lemma success_step (ev : event) (s s' : State) (a : nat) (h : handle) :
  cache_inv s ->
  state_of s a = Some (Settled (Ok h)) \/ state_of s a = Some (Handled (Ok h)) ->
  step ev s = Some s' ->
  length (attempts s') = length (attempts s)
  /\ (state_of s' a = Some (Settled (Ok h))
      \/ state_of s' a = Some (Handled (Ok h))).
Proof.
  intros (I1 & _) Ha.
  assert (Hslot : promise s = Some a).
  { destruct Ha as [Ha | Ha]; by eapply I1. }
  destruct ev as [c | a' r | a' | c]; simpl.
  - destruct (callers s !! c); [done|]. intros [= <-].
    unfold connectDB_enter. destruct (conn s); [done|]. by rewrite Hslot.
  - destruct (state_of s a') as [[| |]|] eqn:Ea'; try done.
    assert (promise s = Some a') by (by eapply I1).
    assert (a' = a) as -> by congruence.
    destruct Ha; congruence.
  - destruct (state_of s a') as [[|r|]|] eqn:Ea'; try done.
    assert (promise s = Some a') by (by eapply I1).
    assert (a' = a) as -> by congruence.
    assert (r = Ok h) as -> by (destruct Ha; congruence).
    intros [= <-]. cbn [reaction attempts]. split; [apply length_set_attempt|].
    right. rewrite state_of_set_attempt, decide_True by done. by rewrite Ea'.
  - destruct (callers s !! c) as [[a'| |]|]; try done.
    destruct (state_of s a') as [[| |r]|]; try done. intros [= <-].
    by destruct r.
Qed.

Lemma success_run (evs : list event) (s s' : State) (a : nat) (h : handle) :
  cache_inv s ->
  state_of s a = Some (Settled (Ok h)) \/ state_of s a = Some (Handled (Ok h)) ->
  run evs s = Some s' ->
  cache_inv s' /\ length (attempts s') = length (attempts s)
  /\ (state_of s' a = Some (Settled (Ok h))
      \/ state_of s' a = Some (Handled (Ok h))).
Proof.
  revert s. induction evs as [|ev evs IH]; intros s Hinv Ha; simpl.
  - by intros [= <-].
  - destruct (step ev s) as [s1|] eqn:E; [|done]. intros Hrun.
    destruct (success_step ev s s1 a h Hinv Ha E) as [Hlen Ha1].
    destruct (IH s1 (cache_inv_step ev s s1 E Hinv) Ha1 Hrun)
      as (Hinv' & Hlen' & Ha').
    split; [done|]. split; [congruence | done].
Qed.

(** X16.  Once the driver has answered an attempt with a connection, that
    is the connection of the process for good: whatever happens
    afterwards, no further attempt is made, the cache keeps pointing at
    that attempt, and the connection cached and every connection
    returned to a caller is that one. *)
Theorem connectDB_success_is_final (env : gmap jsstring jsstring)
    (s s' : State) (a : nat) (h : handle) (evs : list event) :
  reachable env s -> state_of s a = Some (Settled (Ok h)) ->
  run evs s = Some s' ->
  length (attempts s') = length (attempts s)
  /\ promise s' = Some a
  /\ (forall h', conn s' = Some h' -> h' = h)
  /\ (forall c h', callers s' !! c = Some (Returned h') -> h' = h).
Proof.
  intros Hr Ha Hrun.
  destruct (success_run evs s s' a h (cache_inv_reachable env s Hr)
              (or_introl Ha) Hrun) as ((I1 & _ & I3 & I4 & _) & Hlen & Ha').
  assert (Hslot : promise s' = Some a).
  { destruct Ha' as [Ha' | Ha']; by eapply I1. }
  split; [done|]. split; [done|]. split.
  - intros h' Hc. destruct (I3 h' Hc) as (a' & Hp & Hst).
    assert (a' = a) as -> by congruence. destruct Ha'; congruence.
  - intros c h' Hc. destruct (I4 c h' Hc) as (a' & Hst).
    assert (promise s' = Some a') by (by eapply I1).
    assert (a' = a) as -> by congruence. destruct Ha'; congruence.
Qed.

Lemma connectDB_success_is_final_witness :
  exists s s',
    run [Call 0; Call 1; Settle 0 (Ok 7)]%nat booted = Some s
    /\ run [React 0; Resume 1; Call 2; Resume 0]%nat s = Some s'
    /\ length (attempts s') = 1%nat /\ promise s' = Some 0%nat
    /\ (forall h', conn s' = Some h' -> h' = 7%nat)
    /\ (forall c h', callers s' !! c = Some (Returned h') -> h' = 7%nat).
Proof.
  eexists _, _. split; [vm_compute; reflexivity|].
  split; [vm_compute; reflexivity|].
  match goal with
  | |- length (attempts ?s') = _ /\ _ =>
      apply (connectDB_success_is_final sample_env
               (mkState (str "mongodb://localhost:27017/devevent") None
                  (Some 0%nat)
                  [mkAttempt (str "mongodb://localhost:27017/devevent") false
                     (Settled (Ok 7%nat))]
                  (<[1%nat := Awaiting 0%nat]>
                     (<[0%nat := Awaiting 0%nat]> ∅)))
               s' 0%nat 7%nat [React 0; Resume 1; Call 2; Resume 0]%nat)
  end.
  - exists booted, [Call 0; Call 1; Settle 0 (Ok 7)]%nat.
    split; [exact sample_env_boots | vm_compute; reflexivity].
  - reflexivity.
  - vm_compute; reflexivity.
Defined.

Lemma connectDB_uses_configured_uri_witness :
  exists s,
    run (failure_trace ++ [Call 2%nat]) booted = Some s
    /\ length (attempts s) = 2%nat
    /\ Forall (fun at_ => a_uri at_ = str "mongodb://localhost:27017/devevent"
                          /\ a_bufferCommands at_ = false) (attempts s).
Proof.
  eexists. split; [vm_compute; reflexivity|]. split; [reflexivity|].
  match goal with
  | |- Forall _ (attempts ?s) =>
      destruct (connectDB_uses_configured_uri sample_env s)
        as (u & Henv & _ & _ & HF)
  end.
  - exists booted, (failure_trace ++ [Call 2%nat]).
    split; [exact sample_env_boots | vm_compute; reflexivity].
  - vm_compute in Henv. injection Henv as <-. exact HF.
Defined.

Lemma slot_latest_step (ev : event) (s s' : State) :
  step ev s = Some s' ->
  (forall a, promise s = Some a -> S a = length (attempts s)) ->
  forall a, promise s' = Some a -> S a = length (attempts s').
Proof.
  intros Hstep Hs. destruct ev as [c | a' r | a' | c]; simpl in Hstep.
  - destruct (callers s !! c); [done|]. injection Hstep as <-.
    unfold connectDB_enter. destruct (conn s); [done|].
    destruct (promise s) as [p|] eqn:Ep; [done|]. cbn [promise attempts].
    intros a [= <-]. rewrite length_app. simpl. lia.
  - destruct (state_of s a') as [[| |]|]; try done. injection Hstep as <-.
    cbn [promise attempts]. intros a Ha. rewrite length_set_attempt. auto.
  - destruct (state_of s a') as [[|r|]|]; try done. injection Hstep as <-.
    destruct r as [h|e]; cbn [reaction promise attempts]; [|done].
    intros a Ha. rewrite length_set_attempt. auto.
  - destruct (callers s !! c) as [[a'| |]|]; try done.
    destruct (state_of s a') as [[| |r]|]; try done. injection Hstep as <-.
    by destruct r.
Qed.

Lemma slot_latest_run (evs : list event) (s s' : State) :
  run evs s = Some s' ->
  (forall a, promise s = Some a -> S a = length (attempts s)) ->
  forall a, promise s' = Some a -> S a = length (attempts s').
Proof.
  revert s. induction evs as [|ev evs IH]; intros s; simpl.
  - by intros [= <-].
  - destruct (step ev s) as [s1|] eqn:E; [|done]. intros Hrun Hs.
    eapply IH; [done|]. by eapply slot_latest_step.
Qed.

Lemma failed_or_in_slot (s : State) (a : nat) (st : attempt_state) :
  cache_inv s -> state_of s a = Some st ->
  promise s = Some a \/ exists e, st = Handled (Throw e).
Proof.
  intros (I1 & _) Ha.
  destruct st as [|r|[h|e]]; [left | left | left | right; by exists e];
    by eapply I1.
Qed.

(** X17.  The cache holds the latest attempt or nothing: in every state
    a process can reach, the attempt in [cached.promise] is the last one
    made, every earlier attempt has failed and its failure has been
    handled, and when [cached.promise] is empty every attempt made so far
    has failed.  So a new attempt is made only after all the others have
    failed. *)
Theorem connectDB_retries_only_after_failure
    (env : gmap jsstring jsstring) (s : State) :
  reachable env s ->
  (forall a, promise s = Some a -> S a = length (attempts s))
  /\ (forall a, (S a < length (attempts s))%nat ->
      exists e, state_of s a = Some (Handled (Throw e)))
  /\ (promise s = None ->
      Forall (fun at_ => exists e, a_state at_ = Handled (Throw e))
        (attempts s)).
Proof.
  intros Hr. pose proof (cache_inv_reachable env s Hr) as Hinv.
  assert (Hlast : forall a, promise s = Some a -> S a = length (attempts s)).
  { destruct Hr as (s0 & evs & Hload & Hrun).
    destruct (loadModule_Ok env s0 Hload) as (u & _ & _ & ->).
    eapply slot_latest_run; [exact Hrun | done]. }
  split; [done|]. split.
  - intros a Ha.
    destruct (lookup_lt_is_Some_2 (attempts s) a ltac:(lia)) as [at_ Hat].
    assert (Hst : state_of s a = Some (a_state at_))
      by (unfold state_of; by rewrite Hat).
    destruct (failed_or_in_slot s a _ Hinv Hst) as [Hp | [e He]].
    + specialize (Hlast a Hp). lia.
    + exists e. by rewrite Hst, He.
  - intros Hnone. apply Forall_lookup. intros a at_ Hat.
    assert (Hst : state_of s a = Some (a_state at_))
      by (unfold state_of; by rewrite Hat).
    destruct (failed_or_in_slot s a _ Hinv Hst) as [Hp | [e He]];
      [congruence | by exists e].
Qed.

Lemma connectDB_retries_only_after_failure_witness :
  exists s,
    run (failure_trace ++ [Call 2%nat]) booted = Some s
    /\ promise s = Some 1%nat /\ length (attempts s) = 2%nat
    /\ exists e, state_of s 0%nat = Some (Handled (Throw e)).
Proof.
  eexists. split; [vm_compute; reflexivity|].
  split; [reflexivity|]. split; [reflexivity|].
  match goal with
  | |- exists e, state_of ?s _ = _ =>
      destruct (connectDB_retries_only_after_failure sample_env s)
        as (_ & H2 & _)
  end.
  - exists booted, (failure_trace ++ [Call 2%nat]).
    split; [exact sample_env_boots | vm_compute; reflexivity].
  - apply (H2 0%nat). vm_compute. lia.
Defined.

(** ** The connection cache under hot reloads *)

Lemma cache_inv_reload (env : gmap jsstring jsstring) (s s' : State) :
  reloadModule env s = Ok s' -> cache_inv s -> cache_inv s'.
Proof.
  unfold reloadModule.
  destruct (env !! str "MONGODB_URI") as [[|x u]|]; try done.
  by intros [= <-].
Qed.

Lemma cache_inv_hmr_run (evs : list hmr_event) (s s' : State) :
  hmr_run evs s = Some s' -> cache_inv s -> cache_inv s'.
Proof.
  revert s. induction evs as [|ev evs IH]; intros s; simpl.
  - by intros [= <-].
  - destruct (hmr_step ev s) as [s1|] eqn:E; [|done].
    intros Hrun Hinv. eapply IH; [done|].
    destruct ev as [ev | env]; simpl in E.
    + by eapply cache_inv_step.
    + destruct (reloadModule env s) as [s2|] eqn:E2.
      * injection E as <-. by eapply cache_inv_reload.
      * by injection E as <-.
Qed.

(** X18.  The cache outlives reloads of the module.  In a process where
    the module is evaluated again any number of times, between any
    events and with any environment: at most one attempt is pending,
    all connections returned are the same, and a call made after a
    reload, even one that changed the connection string, returns the
    connection cached before it, or waits for the attempt pending before
    it, without making a new attempt. *)
Theorem connectDB_cache_survives_reload (env : gmap jsstring jsstring)
    (s0 s : State) (evs : list hmr_event) :
  loadModule env = Ok s0 -> hmr_run evs s0 = Some s ->
  (forall a b, pending s a -> pending s b -> a = b)
  /\ (forall c1 c2 h1 h2, callers s !! c1 = Some (Returned h1) ->
      callers s !! c2 = Some (Returned h2) -> h1 = h2)
  /\ (forall env' s1 c h, reloadModule env' s = Ok s1 ->
      callers s !! c = None -> conn s = Some h ->
      exists s2, step (Call c) s1 = Some s2 /\ attempts s2 = attempts s
                 /\ callers s2 !! c = Some (Returned h))
  /\ (forall env' s1 c a, reloadModule env' s = Ok s1 ->
      callers s !! c = None -> pending s a ->
      exists s2, step (Call c) s1 = Some s2 /\ attempts s2 = attempts s
                 /\ callers s2 !! c = Some (Awaiting a)).
Proof.
  intros Hload Hrun.
  assert (Hinv : cache_inv s).
  { destruct (loadModule_Ok env s0 Hload) as (u & _ & _ & ->).
    eapply cache_inv_hmr_run; [done|]. apply cache_inv_init. }
  assert (Hre : forall env' s1, reloadModule env' s = Ok s1 ->
            conn s1 = conn s /\ promise s1 = promise s
            /\ attempts s1 = attempts s /\ callers s1 = callers s).
  { intros env' s1. unfold reloadModule.
    destruct (env' !! str "MONGODB_URI") as [[|x u]|]; try done.
    by intros [= <-]. }
  split; [|split; [|split]].
  - intros a b Ha Hb.
    destruct (pending_in_slot s a Hinv Ha) as [Ha' _].
    destruct (pending_in_slot s b Hinv Hb) as [Hb' _]. congruence.
  - intros c1 c2 h1 h2 H1 H2. destruct Hinv as (I1 & _ & _ & I4 & _).
    destruct (I4 c1 h1 H1) as (a1 & Ha1). destruct (I4 c2 h2 H2) as (a2 & Ha2).
    assert (promise s = Some a1) by (by eapply I1).
    assert (promise s = Some a2) by (by eapply I1). congruence.
  - intros env' s1 c h Hs1 Hc Hconn.
    destruct (Hre env' s1 Hs1) as (E1 & E2 & E3 & E4).
    simpl. rewrite E4, Hc. eexists. split; [done|].
    unfold connectDB_enter. rewrite E1, Hconn. cbn [attempts callers].
    split; [done | by rewrite lookup_insert_eq].
  - intros env' s1 c a Hs1 Hc Hp.
    destruct (pending_in_slot s a Hinv Hp) as [Hslot Hconn].
    destruct (Hre env' s1 Hs1) as (E1 & E2 & E3 & E4).
    simpl. rewrite E4, Hc. eexists. split; [done|].
    unfold connectDB_enter. rewrite E1, Hconn, E2, Hslot.
    cbn [attempts callers]. split; [done | by rewrite lookup_insert_eq].
Qed.

Lemma connectDB_cache_survives_reload_witness :
  exists s s1 s2,
    hmr_run [Run (Call 0%nat); Reload ∅; Run (Settle 0%nat (Ok 7%nat));
             Run (React 0%nat); Run (Resume 0%nat)] booted = Some s
    /\ reloadModule {[ str "MONGODB_URI" := str "mongodb://other/db" ]} s
       = Ok s1
    /\ step (Call 1%nat) s1 = Some s2 /\ attempts s2 = attempts s
    /\ callers s2 !! 1%nat = Some (Returned 7%nat).
Proof.
  eexists _, _. 
  assert (Hrun : hmr_run [Run (Call 0%nat); Reload ∅;
                          Run (Settle 0%nat (Ok 7%nat));
                          Run (React 0%nat); Run (Resume 0%nat)] booted
                 = Some (mkState (str "mongodb://localhost:27017/devevent")
                           (Some 7%nat) (Some 0%nat)
                           [mkAttempt (str "mongodb://localhost:27017/devevent")
                              false (Handled (Ok 7%nat))]
                           (<[0%nat := Returned 7%nat]> ∅)))
    by (vm_compute; reflexivity).
  destruct (connectDB_cache_survives_reload sample_env booted _ _
              sample_env_boots Hrun) as (_ & _ & H3 & _).
  assert (Hre : reloadModule {[ str "MONGODB_URI" := str "mongodb://other/db" ]}
                  (mkState (str "mongodb://localhost:27017/devevent")
                     (Some 7%nat) (Some 0%nat)
                     [mkAttempt (str "mongodb://localhost:27017/devevent")
                        false (Handled (Ok 7%nat))]
                     (<[0%nat := Returned 7%nat]> ∅))
                = Ok (mkState (str "mongodb://other/db")
                        (Some 7%nat) (Some 0%nat)
                        [mkAttempt (str "mongodb://localhost:27017/devevent")
                           false (Handled (Ok 7%nat))]
                        (<[0%nat := Returned 7%nat]> ∅)))
    by (vm_compute; reflexivity).
  destruct (H3 _ _ 1%nat 7%nat Hre ltac:(vm_compute; reflexivity) eq_refl)
    as (s2 & Hs2 & Ha & Hc).
  exists s2. split; [exact Hrun|]. split; [exact Hre|].
  split; [exact Hs2|]. split; [exact Ha | exact Hc].
Defined.
